(** * Container auto-update orchestrator (dockhand)

    A shallow embedding of
    [src/lib/server/scheduler/tasks/container-update.ts]:
    [scanAndCheckBlock], the detail builders, [runContainerUpdate] and
    [recreateContainer], over an explicit model of the collaborators the
    file imports (container runtime, scanner, scan history, execution
    ledger, notification sink, compose subsystem).

    Conventions of the embedding:
    - an awaited collaborator call is a state transformer on the
      collaborators' world [W] that either resolves ([Ok]) or rejects
      ([Err] with the error's [message]);
    - the run's own control flow uses completion records
      ([Normal], [Return], [Throw]), so that [return] inside nested
      [try] blocks and [catch] clauses behave as in the source;
    - every collaborator call and every log line is appended, in order, to
      a trace; the properties below are statements about that trace;
    - every collaborator is taken at the run's environment ([envId]), which
      the source passes unchanged to each call; wall-clock fields
      ([startedAt], [completedAt], [duration]) are left out of the ledger
      writes. *)

From Stdlib Require Import ZArith Lia.
From stdpp Require Import base strings list gmap pretty.

Local Open Scope Z_scope.
Local Open Scope string_scope.
Local Open Scope list_scope.

(** ** Data model *)

(** [VulnerabilitySeverity] (scanner module): findings per severity bucket. *)
Record VulnerabilitySeverity := mkSeverity {
  critical : Z;
  high : Z;
  medium : Z;
  low : Z;
  negligible : Z;
  unknown : Z
}.

(** [ScanResult] (scanner module), with the fields the task reads.
    [vulnerabilities] is an opaque payload handed on to the scan history. *)
Record ScanResult := mkScanResult {
  imageName : string;
  scanner : string;
  scannedAt : string;
  scanDuration : Z;
  summary : VulnerabilitySeverity;
  vulnerabilities : list string;
  error : option string
}.

(** Progress notifications the scanner passes to its callback. *)
Record ScanProgress := mkProgress {
  progress_scanner : option string;
  progress_message : option string;
  progress_output : option string
}.

(** [VulnerabilityCriteria] is declared in the db module as a union of
    string literals; line 414 casts whatever string the setting holds, so a
    criteria is a string here. The task itself only compares it with
    ['more_than_current'] and defaults it to ['never']. *)
Definition VulnerabilityCriteria := string.

(** The record handed to [saveVulnerabilityScan]. *)
Record ScanRecord := mkScanRecord {
  rec_imageId : string;
  rec_imageName : string;
  rec_scanner : string;
  rec_scannedAt : string;
  rec_scanDuration : Z;
  rec_counts : VulnerabilitySeverity;
  rec_vulnerabilities : list string;
  rec_error : option string
}.

(** [ScanContext] without its logger, which the embedding threads through
    the trace. *)
Record ScanContext := mkScanContext {
  newImageId : string;
  currentImageId : string;
  vulnerabilityCriteria : VulnerabilityCriteria
}.

Record ScanOutcome := mkScanOutcome {
  blocked : bool;
  reason : option string;
  scanResults : option (list ScanResult);
  scanSummary : option VulnerabilitySeverity
}.

Record ScannerCounts := mkScannerCounts {
  sc_scanner : string;
  sc_critical : Z;
  sc_high : Z;
  sc_medium : Z;
  sc_low : Z;
  sc_negligible : Z;
  sc_unknown : Z
}.

Record DetailsSummary := mkDetailsSummary {
  checked : Z; updated : Z; blocked_count : Z; failed_count : Z
}.

Record DetailsContainer := mkDetailsContainer {
  dc_name : string;
  dc_status : string;
  dc_blockReason : option string;
  dc_scannerResults : option (list ScannerCounts)
}.

Record DetailsScanResult := mkDetailsScanResult {
  dsr_summary : VulnerabilitySeverity;
  dsr_scanners : list string;
  dsr_scannedAt : option string;
  dsr_scannerResults : list ScannerCounts
}.

Record ExecutionDetails := mkExecutionDetails {
  mode : string;
  newDigest : option string;
  det_vulnerabilityCriteria : VulnerabilityCriteria;
  det_reason : option string;
  blockReason : option string;
  det_summary : DetailsSummary;
  containers : list DetailsContainer;
  scanResult : option DetailsScanResult
}.

(** The [details] field of a ledger write is either the short
    [{ reason }] object or a full [ExecutionDetails]. *)
Inductive Details :=
  | ReasonOnly (reason : string)
  | FullDetails (d : ExecutionDetails).

Inductive ExecStatus := running | success | failed | skipped.

(** The fields of one [updateScheduleExecution] call. [startedAt] only says
    whether the call sets the start time. *)
Record ExecutionUpdate := mkUpdate {
  startedAt : bool;
  status : option ExecStatus;
  errorMessage : option string;
  details : option Details
}.

(** Runtime inspection payloads, with the fields the task reads. A field
    the source guards with [?.] or [||] is optional here. *)
Record ContainerInfo := mkContainerInfo { id : string; name : string }.

Record ContainerConfig := mkContainerConfig {
  Config_Image : option string;
  Config_Labels : option (gmap string string)
}.

Record IPAMConfig := mkIPAM {
  IPv4Address : option string;
  IPv6Address : option string
}.

Record EndpointSettings := mkEndpoint {
  Aliases : option (list string);
  DNSNames : option (list string);
  Endpoint_IPAMConfig : option IPAMConfig;
  GwPriority : option Z
}.

Record InspectData := mkInspect {
  Config : option ContainerConfig;
  Image : string;
  State_Running : option bool;
  HostConfig_NetworkMode : option (option string);
  NetworkSettings_Networks : option (list (string * EndpointSettings))
}.

Record RegistryCheck := mkRegistryCheck {
  hasUpdate : bool;
  registryDigest : option string;
  isLocalImage : bool;
  check_error : option string
}.

Record ComposeFileResult := mkComposeFile {
  compose_success : bool;
  compose_content : option string;
  composePath : option string
}.

Record ServiceResult := mkServiceResult {
  service_success : bool;
  service_error : option string
}.

Record NetworkInfo := mkNetworkInfo {
  net_name : string;
  net_aliases : list string;
  ipv4Address : option string;
  ipv6Address : option string;
  gwPriority : option Z
}.

(** The options object of [connectContainerToNetwork]. *)
Record ConnectOptions := mkConnect {
  conn_aliases : option (list string);
  conn_ipv4Address : option string;
  conn_ipv6Address : option string;
  conn_gwPriority : option Z
}.

Inductive NotificationKind :=
  | auto_update_success | auto_update_blocked | auto_update_failed.

Record Notification := mkNotification {
  title : string;
  message : string;
  type : string
}.

Inductive SystemContainerType := dockhand | hawser.

Inductive ScheduleTrigger := manual | scheduled | api.

(** ** Collaborator results, events and the trace *)

(** The settlement of an awaited collaborator call. *)
Inductive Res (A : Type) : Type :=
  | Ok (a : A)
  | Err (msg : string).
Arguments Ok {A} a.
Arguments Err {A} msg.

Definition isOk {A} (r : Res A) : bool :=
  match r with Ok _ => true | Err _ => false end.

(** What an evaluated statement list completes with: it falls through with
    a value, leaves the enclosing function through [return], or throws. *)
Inductive Completion (R A : Type) : Type :=
  | Normal (a : A)
  | Return (r : R)
  | Throw (msg : string).
Arguments Normal {R A} a.
Arguments Return {R A} r.
Arguments Throw {R A} msg.

Section Task.
(** The options object [extractContainerOptions] builds is kept abstract. *)
Context {ContainerOptions : Type}.

Inductive Event :=
  | EvLog (msg : string)
  | EvCreateScheduleExecution (settingId : Z) (entityName : string)
      (triggeredBy : ScheduleTrigger) (st : ExecStatus) (r : Res Z)
  | EvUpdateScheduleExecution (execId : Z) (u : ExecutionUpdate) (r : Res unit)
  | EvUpdateAutoUpdateLastChecked (containerName : string) (r : Res unit)
  | EvUpdateAutoUpdateLastUpdated (containerName : string) (r : Res unit)
  | EvGetAutoUpdateSettingById (settingId : Z)
      (r : Res (option (option VulnerabilityCriteria)))
  | EvGetScannerSettings (r : Res string)
  | EvListContainers (r : Res (list ContainerInfo))
  | EvInspectContainer (cid : string) (r : Res InspectData)
  | EvCheckImageUpdateAvailable (image : string) (currentId : string)
      (r : Res RegistryCheck)
  | EvGetStackComposeFile (project : string) (configFiles : option string)
      (r : Res ComposeFileResult)
  | EvPullStackService (project service : string) (configFiles : option string)
      (r : Res ServiceResult)
  | EvUpdateStackService (project service : string) (configFiles : option string)
      (r : Res ServiceResult)
  | EvPullImage (image : string) (r : Res unit)
  | EvGetImageIdByTag (image : string) (r : Res (option string))
  | EvTagImage (imageId repo tag : string) (r : Res unit)
  | EvRemoveTempImage (imageIdOrTag : string) (r : Res unit)
  | EvScanImage (imageId : string) (r : Res (list ScanResult))
  | EvSaveVulnerabilityScan (record : ScanRecord) (r : Res unit)
  | EvGetCombinedScanForImage (imageId : string)
      (r : Res (option VulnerabilitySeverity))
  | EvSendEventNotification (kind : NotificationKind) (n : Notification)
      (r : Res unit)
  | EvStopContainer (cid : string) (r : Res unit)
  | EvRemoveContainer (cid : string) (force : bool) (r : Res unit)
  | EvCreateContainer (options : ContainerOptions) (r : Res string)
  | EvConnectContainerToNetwork (network cid : string) (o : ConnectOptions)
      (r : Res unit)
  | EvStart (cid : string) (r : Res unit).


(** ** The run monad *)

(** The collaborators' world. *)
Context {W : Type}.

Record St := mkSt { world : W; trace : list Event }.

(** A statement list of a function whose return type is [R]. *)
Definition M (R A : Type) : Type := St → Completion R A * St.

Definition ret {R A} (a : A) : M R A := λ s, (Normal a, s).

Definition bind {R A B} (m : M R A) (k : A → M R B) : M R B :=
  λ s, match m s with
       | (Normal a, s') => k a s'
       | (Return r, s') => (Return r, s')
       | (Throw msg, s') => (Throw msg, s')
       end.

Definition returnWith {R A} (r : R) : M R A := λ s, (Return r, s).

Definition throw {R A} (msg : string) : M R A := λ s, (Throw msg, s).

(** [try { m } catch (e) { h e.message }]: only a throw enters the handler;
    a [return] inside [m] leaves the function. *)
Definition tryCatch {R A} (m : M R A) (h : string → M R A) : M R A :=
  λ s, match m s with
       | (Throw msg, s') => h msg s'
       | other => other
       end.

(** The boundary of a function: the caller gets the value of a [return]
    (or of the last statement), or the exception. *)
Definition asFunction {R R'} (body : M R R) : M R' R :=
  λ s, match body s with
       | (Normal r, s') => (Normal r, s')
       | (Return r, s') => (Normal r, s')
       | (Throw msg, s') => (Throw msg, s')
       end.

Definition emit {R} (e : Event) : M R unit :=
  λ s, (Normal tt, mkSt (world s) (trace s ++ [e])).

(** [await h(...)]: run the collaborator on the world, record the call with
    its settlement, continue with the value or throw the rejection. *)
Definition call {R A} (h : W → Res A * W) (ev : Res A → Event) : M R A :=
  λ s, let '(r, w') := h (world s) in
       let s' := mkSt w' (trace s ++ [ev r]) in
       match r with
       | Ok a => (Normal a, s')
       | Err msg => (Throw msg, s')
       end.

(** The run's logger: [console.log] plus an un-awaited
    [appendScheduleExecutionLog]; nothing the append does can reach the
    caller, the line is kept in the trace. *)
Definition log {R} (msg : string) : M R unit := emit (EvLog msg).

(** [log?.(msg)] for an optional logger. *)
Definition optLog {R} (logger : bool) (msg : string) : M R unit :=
  if logger then log msg else ret tt.

Definition when {R} (b : bool) (m : M R unit) : M R unit :=
  if b then m else ret tt.

(** [for (const x of l) { body x }]. *)
Fixpoint forOf {R A} (l : list A) (body : A → M R unit) : M R unit :=
  match l with
  | [] => ret tt
  | x :: l' => bind (body x) (λ _, forOf l' body)
  end.

Notation "x <- m ;; k" := (bind m (λ x, k))
  (at level 100, m at next level, right associativity).
Notation "m ;; k" := (bind m (λ _, k))
  (at level 100, right associativity).

(** ** Collaborators *)

(** The awaited functions the task imports from the db, docker, scanner,
    notifications and stacks modules. *)
Record Collaborators := mkCollaborators {
  createScheduleExecution :
    Z → string → ScheduleTrigger → ExecStatus → W → Res Z * W;
  updateScheduleExecution : Z → ExecutionUpdate → W → Res unit * W;
  updateAutoUpdateLastChecked : string → W → Res unit * W;
  updateAutoUpdateLastUpdated : string → W → Res unit * W;
  getAutoUpdateSettingById :
    Z → W → Res (option (option VulnerabilityCriteria)) * W;
  getScannerSettings : W → Res string * W;
  listContainers : W → Res (list ContainerInfo) * W;
  inspectContainer : string → W → Res InspectData * W;
  checkImageUpdateAvailable : string → string → W → Res RegistryCheck * W;
  getStackComposeFile :
    string → option string → W → Res ComposeFileResult * W;
  pullStackService :
    string → string → option string → W → Res ServiceResult * W;
  updateStackService :
    string → string → option string → W → Res ServiceResult * W;
  pullImage : string → W → Res unit * W;
  getImageIdByTag : string → W → Res (option string) * W;
  tagImage : string → string → string → W → Res unit * W;
  removeTempImage : string → W → Res unit * W;
  (** the scanner reports progress through its callback while it runs *)
  scanImage : string → W → list ScanProgress * Res (list ScanResult) * W;
  saveVulnerabilityScan : ScanRecord → W → Res unit * W;
  getCombinedScanForImage :
    string → W → Res (option VulnerabilitySeverity) * W;
  sendEventNotification : NotificationKind → Notification → W → Res unit * W;
  stopContainer : string → W → Res unit * W;
  removeContainer : string → bool → W → Res unit * W;
  createContainer : ContainerOptions → W → Res string * W;
  connectContainerToNetwork :
    string → string → ConnectOptions → W → Res unit * W;
  (** [newContainer.start()] on the object [createContainer] returned *)
  start : string → W → Res unit * W
}.

(** The synchronous helpers imported from the docker and update-utils
    modules, whose bodies are not part of the sources at hand, and the
    conversion of a number to a string that a template literal applies. *)
Record Utils := mkUtils {
  shouldBlockUpdate :
    VulnerabilityCriteria → VulnerabilitySeverity →
    option VulnerabilitySeverity → bool * string;
  numberToString : Z → string;
  parseImageNameAndTag : string → string * string;
  getTempImageTag : string → string;
  isDigestBasedImage : string → bool;
  isSystemContainer : string → option SystemContainerType;
  extractContainerOptions : InspectData → ContainerOptions;
  networkAliases : ContainerOptions → option (list string);
  networkIpv4Address : ContainerOptions → option string
}.

Variable C : Collaborators.
Variable U : Utils.

(** ** Synchronous helpers *)

(** JavaScript truthiness of an optional string: [undefined] and the empty
    string are falsy. *)
Definition truthy (o : option string) : bool :=
  match o with
  | Some s => if decide (s = EmptyString) then false else true
  | None => false
  end.

(** [o || dflt] on optional strings. *)
Definition orElse (o : option string) (dflt : string) : string :=
  if truthy o then default dflt o else dflt.

(** [o || undefined] on optional strings. *)
Definition orUndefined (o : option string) : option string :=
  if truthy o then o else None.

(** [s.substring(0, n)]. *)
Definition prefix (n : nat) (s : string) : string := String.substring 0 n s.

Definition showBool (b : bool) : string := if b then "true" else "false".

(** A name between double quotes, as the notification messages show it. *)
Definition quoted (s : string) : string :=
  let q := String (Ascii.ascii_of_nat 34) EmptyString in q +:+ s +:+ q.

(** Modelled from the spec: [combineScanSummaries] of the update-utils
    module is missing; the scanners' summaries are combined by summation per
    severity bucket. *)
Definition addSeverity (a b : VulnerabilitySeverity) : VulnerabilitySeverity :=
  mkSeverity (critical a + critical b) (high a + high b) (medium a + medium b)
    (low a + low b) (negligible a + negligible b) (unknown a + unknown b).

Definition combineScanSummaries (results : list ScanResult)
  : VulnerabilitySeverity :=
  foldr (λ r acc, addSeverity (summary r) acc) (mkSeverity 0 0 0 0 0 0) results.

(** ** [scanAndCheckBlock] *)

Definition scannerTag (p : ScanProgress) : string :=
  if truthy (progress_scanner p)
  then "[" +:+ default EmptyString (progress_scanner p) +:+ "]"
  else "[scan]".

(** The progress callback of the scan of the new image. *)
Definition onProgressNew (p : ScanProgress) : list string :=
  (if truthy (progress_message p)
   then [scannerTag p +:+ " " +:+ default EmptyString (progress_message p)] else [])
  ++ (if truthy (progress_output p)
      then [scannerTag p +:+ " " +:+ default EmptyString (progress_output p)] else []).

(** The progress callback of the scan of the current image. *)
Definition onProgressCurrent (p : ScanProgress) : list string :=
  if truthy (progress_message p)
  then [scannerTag p +:+ " " +:+ default EmptyString (progress_message p)] else [].

(** [await scanImage(imageId, envId, onProgress)]: the callback's log lines
    precede the settlement of the scan. *)
Definition callScanImage {R} (imageId : string)
    (onProgress : ScanProgress → list string) : M R (list ScanResult) :=
  λ s, let '(ps, r, w') := scanImage C imageId (world s) in
       let s' := mkSt w' (trace s ++ map EvLog (concat (map onProgress ps))
                                  ++ [EvScanImage imageId r]) in
       match r with
       | Ok a => (Normal a, s')
       | Err msg => (Throw msg, s')
       end.

Definition scanRecordOf (imageId : string) (result : ScanResult) : ScanRecord :=
  mkScanRecord imageId (imageName result) (scanner result) (scannedAt result)
    (scanDuration result) (summary result) (vulnerabilities result)
    (error result).

Definition save {R} (imageId : string) (result : ScanResult) : M R unit :=
  call (saveVulnerabilityScan C (scanRecordOf imageId result))
       (EvSaveVulnerabilityScan (scanRecordOf imageId result)).

(** Lines 133-155: save each result of the new image, logging a failure. *)
Definition saveScanResults {R} (imageId : string) (results : list ScanResult)
  : M R unit :=
  forOf results (λ result,
    tryCatch (save imageId result)
      (λ saveError, log ("Warning: Could not save scan results: " +:+ saveError))).

(** Lines 176-195: save each result of the current image, ignoring a
    failure. *)
Definition saveCurrentScanResults {R} (imageId : string)
    (results : list ScanResult) : M R unit :=
  forOf results (λ result,
    tryCatch (save imageId result) (λ _, ret tt)).

(** Lines 157-201. The source assigns [currentScanSummary] inside the [try];
    no statement after either assignment can throw, so the block is
    rendered as an expression for the variable's final value. *)
Definition lookupCurrentSummary {R} (ctx : ScanContext)
  : M R (option VulnerabilitySeverity) :=
  if bool_decide (vulnerabilityCriteria ctx = "more_than_current") then
    log "Looking up cached scan for current image..." ;;
    tryCatch
      (cachedScan <- call (getCombinedScanForImage C (currentImageId ctx))
                          (EvGetCombinedScanForImage (currentImageId ctx)) ;;
       match cachedScan with
       | Some cached =>
           log ("Cached scan: " +:+ numberToString U (critical cached)
                +:+ " critical, " +:+ numberToString U (high cached)
                +:+ " high") ;;
           ret (Some cached)
       | None =>
           log "No cached scan found, scanning current image..." ;;
           currentScanResults <-
             callScanImage (currentImageId ctx) onProgressCurrent ;;
           match currentScanResults with
           | [] => ret None
           | _ :: _ =>
               let cur := combineScanSummaries currentScanResults in
               log ("Current image: " +:+ numberToString U (critical cur)
                    +:+ " critical, " +:+ numberToString U (high cur)
                    +:+ " high") ;;
               saveCurrentScanResults (currentImageId ctx) currentScanResults ;;
               ret (Some cur)
           end
       end)
      (λ cacheError,
         log ("Warning: Could not get current scan: " +:+ cacheError) ;;
         ret None)
  else ret None.

(** Lines 203-212: apply the policy to the summaries. *)
Definition checkBlock {R} (criteria : VulnerabilityCriteria)
    (results : list ScanResult) (newSummary : VulnerabilitySeverity)
    (currentSummary : option VulnerabilitySeverity) : M R ScanOutcome :=
  let '(isBlocked, why) := shouldBlockUpdate U criteria newSummary currentSummary in
  if isBlocked
  then log ("UPDATE BLOCKED: " +:+ why) ;;
       ret (mkScanOutcome true (Some why) (Some results) (Some newSummary))
  else log "Scan passed vulnerability criteria" ;;
       ret (mkScanOutcome false None (Some results) (Some newSummary)).

Definition scanAndCheckBlock {R} (ctx : ScanContext) : M R ScanOutcome :=
  asFunction
    (log "Scanning new image for vulnerabilities..." ;;
     results <- callScanImage (newImageId ctx) onProgressNew ;;
     match results with
     | [] => returnWith (mkScanOutcome false None (Some results) None)
     | _ :: _ =>
         let newSummary := combineScanSummaries results in
         log ("Scan result: " +:+ numberToString U (critical newSummary)
              +:+ " critical, " +:+ numberToString U (high newSummary)
              +:+ " high, " +:+ numberToString U (medium newSummary)
              +:+ " medium, " +:+ numberToString U (low newSummary)
              +:+ " low") ;;
         saveScanResults (newImageId ctx) results ;;
         currentSummary <- lookupCurrentSummary ctx ;;
         outcome <- checkBlock (vulnerabilityCriteria ctx) results newSummary
                      currentSummary ;;
         returnWith outcome
     end).

(** ** Execution details *)

Definition buildScannerResults (results : list ScanResult) : list ScannerCounts :=
  map (λ r, mkScannerCounts (scanner r) (critical (summary r)) (high (summary r))
              (medium (summary r)) (low (summary r)) (negligible (summary r))
              (unknown (summary r))) results.

Definition buildBlockedDetails (containerName : string)
    (criteria : VulnerabilityCriteria) (why : string)
    (results : list ScanResult) (newSummary : VulnerabilitySeverity)
  : ExecutionDetails :=
  let scannerResults := buildScannerResults results in
  mkExecutionDetails "auto_update" None criteria (Some "vulnerabilities_found")
    (Some why) (mkDetailsSummary 1 0 1 0)
    [mkDetailsContainer containerName "blocked" (Some why) (Some scannerResults)]
    (Some (mkDetailsScanResult newSummary (map scanner results)
             (scannedAt <$> head results) scannerResults)).

Definition buildSuccessDetails (containerName : string)
    (digest : option string) (criteria : VulnerabilityCriteria)
    (results : option (list ScanResult))
    (newSummary : option VulnerabilitySeverity) : ExecutionDetails :=
  let scannerResults := buildScannerResults <$> results in
  mkExecutionDetails "auto_update" digest criteria None None
    (mkDetailsSummary 1 1 0 0)
    [mkDetailsContainer containerName "updated" None scannerResults]
    (match newSummary with
     | Some sm =>
         Some (mkDetailsScanResult sm (default [] (map scanner <$> results))
                 (results ≫= λ rs, scannedAt <$> head rs)
                 (default [] scannerResults))
     | None => None
     end).

(** The details of a blocked run. The source passes [reason!],
    [scanResults!] and [scanSummary!]; [scanAndCheckBlock] sets all three
    whenever it reports [blocked]. *)
Definition blockedDetailsOf (containerName : string)
    (criteria : VulnerabilityCriteria) (o : ScanOutcome) : ExecutionDetails :=
  buildBlockedDetails containerName criteria (default EmptyString (reason o))
    (default [] (scanResults o))
    (default (mkSeverity 0 0 0 0 0 0) (scanSummary o)).

(** ** Ledger writes and notifications of the run *)

(** A status write: [updateScheduleExecution(execution.id, { status, ... })]. *)
Definition writeStatus {R} (executionId : Z) (st : ExecStatus)
    (err : option string) (det : option Details) : M R unit :=
  call (updateScheduleExecution C executionId (mkUpdate false (Some st) err det))
       (EvUpdateScheduleExecution executionId (mkUpdate false (Some st) err det)).

Definition notify {R} (kind : NotificationKind) (n : Notification) : M R unit :=
  call (sendEventNotification C kind n) (EvSendEventNotification kind n).

Definition blockedNotification (containerName : string) (o : ScanOutcome)
  : Notification :=
  mkNotification "Auto-update blocked"
    ("Container " +:+ quoted containerName +:+ " update blocked: "
       +:+ default EmptyString (reason o))
    "warning".

Definition successNotification (containerName : string) : Notification :=
  mkNotification "Container auto-updated"
    ("Container " +:+ quoted containerName +:+ " was updated to a new image version")
    "success".

Definition failedNotification (containerName msg : string) : Notification :=
  mkNotification "Auto-update failed"
    ("Container " +:+ quoted containerName +:+ " auto-update failed: " +:+ msg)
    "error".

(** ** [recreateContainer] *)

Definition findContainer (containerName : string) (cs : list ContainerInfo)
  : option ContainerInfo :=
  List.find (λ c, bool_decide (name c = containerName)) cs.

Definition includes (x : string) (l : list string) : bool :=
  bool_decide (x ∈ l).

(** Lines 854-865: the aliases to reapply on a secondary network. *)
Definition secondaryAliasesOf (container : ContainerInfo)
    (composeProject composeService : option string)
    (netConf : EndpointSettings) : list string :=
  let shortContainerId := prefix 12 (id container) in
  let source :=
    match Aliases netConf with
    | Some ((_ :: _) as l) => l
    | _ => default [] (DNSNames netConf)
    end in
  let kept :=
    List.filter (λ a, negb (bool_decide (a = id container))
                      && negb (bool_decide (a = shortContainerId))) source in
  if truthy composeProject && truthy composeService then
    let service := default EmptyString composeService in
    let withService :=
      if includes service kept then kept else kept ++ [service] in
    let projectService :=
      default EmptyString composeProject +:+ "-" +:+ service in
    if includes projectService withService then withService
    else withService ++ [projectService]
  else kept.

Definition networkInfoOf (container : ContainerInfo)
    (composeProject composeService : option string)
    (netName : string) (netConf : EndpointSettings) : NetworkInfo :=
  mkNetworkInfo netName
    (secondaryAliasesOf container composeProject composeService netConf)
    (orUndefined (Endpoint_IPAMConfig netConf ≫= IPv4Address))
    (orUndefined (Endpoint_IPAMConfig netConf ≫= IPv6Address))
    (match GwPriority netConf with
     | Some p => if decide (p = 0) then None else Some p
     | None => None
     end).

Definition isPrimaryNetwork (primaryNetwork netName : string) : bool :=
  bool_decide (netName = primaryNetwork)
  || (bool_decide (primaryNetwork = "bridge")
      && (bool_decide (netName = "bridge") || bool_decide (netName = "default"))).

(** Lines 841-876: walk the attached networks, logging the primary one and
    collecting the others. *)
Fixpoint collectAdditionalNetworks {R} (logger : bool)
    (container : ContainerInfo) (containerOptions : ContainerOptions)
    (primaryNetwork : string) (composeProject composeService : option string)
    (entries : list (string * EndpointSettings))
    (additionalNetworks : list NetworkInfo) : M R (list NetworkInfo) :=
  match entries with
  | [] => ret additionalNetworks
  | (netName, netConf) :: rest =>
      if isPrimaryNetwork primaryNetwork netName then
        when (match networkAliases U containerOptions with
              | Some (_ :: _) => true | _ => false end)
          (optLog logger ("Primary network aliases: "
             +:+ String.concat ", " (default [] (networkAliases U containerOptions)))) ;;
        when (truthy (networkIpv4Address U containerOptions))
          (optLog logger ("Primary network static IPv4: "
             +:+ default EmptyString (networkIpv4Address U containerOptions))) ;;
        collectAdditionalNetworks logger container containerOptions
          primaryNetwork composeProject composeService rest additionalNetworks
      else
        collectAdditionalNetworks logger container containerOptions
          primaryNetwork composeProject composeService rest
          (additionalNetworks
             ++ [networkInfoOf container composeProject composeService
                   netName netConf])
  end.

Definition connectOptionsOf (netInfo : NetworkInfo) : ConnectOptions :=
  mkConnect
    (match net_aliases netInfo with [] => None | l => Some l end)
    (ipv4Address netInfo) (ipv6Address netInfo) (gwPriority netInfo).

(** The warning line of a failed reconnection (line 895). *)
Definition connectWarning (netName netError : string) : string :=
  "  Warning: Failed to connect to " +:+ quoted netName +:+ ": " +:+ netError.

(** Lines 885-897: reconnect the new container, one network at a time. *)
Definition reconnectNetworks {R} (logger : bool) (newContainerId : string)
    (additionalNetworks : list NetworkInfo) : M R unit :=
  forOf additionalNetworks (λ netInfo,
    tryCatch
      (call (connectContainerToNetwork C (net_name netInfo) newContainerId
               (connectOptionsOf netInfo))
            (EvConnectContainerToNetwork (net_name netInfo) newContainerId
               (connectOptionsOf netInfo)) ;;
       optLog logger ("  Connected to: " +:+ net_name netInfo))
      (λ netError, optLog logger (connectWarning (net_name netInfo) netError))).

(** Reading a property of [undefined]. *)
Definition typeError {R A} (property : string) : M R A :=
  throw ("Cannot read properties of undefined (reading '" +:+ property +:+ "')").

Definition composeLabel (config : ContainerConfig) (key : string) : option string :=
  Config_Labels config ≫= λ labels, labels !! key.

(** [logger] says whether the optional [log] argument was passed. *)
Definition recreateContainer {R} (containerName : string) (logger : bool)
  : M R bool :=
  asFunction
    (tryCatch
       (containers <- call (listContainers C) EvListContainers ;;
        match findContainer containerName containers with
        | None =>
            optLog logger ("Container not found: " +:+ containerName) ;;
            returnWith false
        | Some container =>
            inspectData <- call (inspectContainer C (id container))
                                (EvInspectContainer (id container)) ;;
            match State_Running inspectData with
            | None => typeError "Running"
            | Some wasRunning =>
                optLog logger ("Recreating container: " +:+ containerName
                               +:+ " (was running: " +:+ showBool wasRunning +:+ ")") ;;
                optLog logger "Preserving all container settings..." ;;
                when wasRunning
                  (optLog logger "Stopping container..." ;;
                   call (stopContainer C (id container))
                        (EvStopContainer (id container))) ;;
                optLog logger "Removing old container..." ;;
                call (removeContainer C (id container) true)
                     (EvRemoveContainer (id container) true) ;;
                let containerOptions := extractContainerOptions U inspectData in
                let networkSettings :=
                  default [] (NetworkSettings_Networks inspectData) in
                match HostConfig_NetworkMode inspectData with
                | None => typeError "NetworkMode"
                | Some networkMode =>
                    let primaryNetwork := orElse networkMode "bridge" in
                    match Config inspectData with
                    | None => typeError "Labels"
                    | Some config =>
                        let composeProject :=
                          composeLabel config "com.docker.compose.project" in
                        let composeService :=
                          composeLabel config "com.docker.compose.service" in
                        additionalNetworks <-
                          collectAdditionalNetworks logger container
                            containerOptions primaryNetwork composeProject
                            composeService networkSettings [] ;;
                        when (negb (bool_decide (additionalNetworks = [])))
                          (optLog logger ("Will reconnect to "
                             +:+ pretty (length additionalNetworks)
                             +:+ " additional network(s)")) ;;
                        optLog logger "Creating new container..." ;;
                        newContainerId <-
                          call (createContainer C containerOptions)
                               (EvCreateContainer containerOptions) ;;
                        reconnectNetworks logger newContainerId
                          additionalNetworks ;;
                        when wasRunning
                          (optLog logger "Starting new container..." ;;
                           call (start C newContainerId) (EvStart newContainerId)) ;;
                        optLog logger "Container recreated successfully" ;;
                        returnWith true
                    end
                end
            end
        end)
       (λ msg,
          optLog logger ("Failed to recreate container: " +:+ msg) ;;
          returnWith false)).

(** ** [updateStackContainer] *)

(** [logger] says whether the optional [log] argument was passed. *)
Definition updateStackContainer {R} (stackName serviceName : string)
    (logger : bool) (composeConfigPath : option string) : M R bool :=
  asFunction
    (tryCatch
       (optLog logger ("Looking up stack: " +:+ stackName) ;;
        composeResult <- call (getStackComposeFile C stackName composeConfigPath)
                              (EvGetStackComposeFile stackName composeConfigPath) ;;
        if negb (compose_success composeResult)
           || negb (truthy (compose_content composeResult))
        then
          optLog logger ("No compose file found for stack " +:+ quoted stackName) ;;
          optLog logger "TIP: Import the stack in Dockhand for compose-native updates" ;;
          returnWith false
        else
          optLog logger ("Running: docker compose up -d " +:+ serviceName) ;;
          result <- call (updateStackService C stackName serviceName composeConfigPath)
                         (EvUpdateStackService stackName serviceName
                            composeConfigPath) ;;
          if service_success result
          then
            optLog logger ("Service " +:+ serviceName
                           +:+ " updated via docker compose") ;;
            returnWith true
          else
            optLog logger ("docker compose up failed: "
                           +:+ orElse (service_error result) "Unknown error") ;;
            returnWith false)
       (λ msg,
          optLog logger ("Stack update error: " +:+ msg) ;;
          returnWith false)).

(** ** [runContainerUpdate] *)

(** [await Promise.all([h1(...), h2(...)])]: both calls are issued; the
    first rejection, in argument order, is thrown. *)
Definition promiseAll2 {R A B} (h1 : W → Res A * W) (ev1 : Res A → Event)
    (h2 : W → Res B * W) (ev2 : Res B → Event) : M R (A * B) :=
  λ s, let '(r1, w1) := h1 (world s) in
       let '(r2, w2) := h2 w1 in
       let s' := mkSt w2 (trace s ++ [ev1 r1; ev2 r2]) in
       match r1, r2 with
       | Ok a, Ok b => (Normal (a, b), s')
       | Err msg, _ => (Throw msg, s')
       | Ok _, Err msg => (Throw msg, s')
       end.

Definition retag {R} (imageId image : string) : M R unit :=
  let '(repo, tag) := parseImageNameAndTag U image in
  call (tagImage C imageId repo tag) (EvTagImage imageId repo tag).

Definition removeTemp {R} (imageIdOrTag : string) : M R unit :=
  call (removeTempImage C imageIdOrTag) (EvRemoveTempImage imageIdOrTag).

(** Lines 476-595: the compose-native flow, once the compose file is
    found. Every path through it returns from the run. *)
Definition composeFlow {A} (executionId : Z) (containerName image : string)
    (currentId : string) (composeProject composeService : string)
    (composeConfigFiles : option string) (digest : option string)
    (criteria : VulnerabilityCriteria) (shouldScan : bool) : M unit A :=
  log ("Using compose-native update for stack: " +:+ composeProject) ;;
  tryCatch
    (log ("Running: docker compose pull " +:+ composeService) ;;
     pullResult <- call (pullStackService C composeProject composeService
                           composeConfigFiles)
                        (EvPullStackService composeProject composeService
                           composeConfigFiles) ;;
     (if service_success pullResult then ret tt
      else throw (orElse (service_error pullResult) "docker compose pull failed")) ;;
     log "Compose pull completed" ;;
     newId <- call (getImageIdByTag C image) (EvGetImageIdByTag image) ;;
     (if truthy newId then ret tt
      else throw "Failed to get new image ID after compose pull") ;;
     let newImage := default EmptyString newId in
     log ("New image ID: " +:+ prefix 19 newImage) ;;
     scanOutcome <-
       (if shouldScan then
          tryCatch
            (outcome <- scanAndCheckBlock (mkScanContext newImage currentId criteria) ;;
             if blocked outcome then
               log "Restoring original tag to safe image..." ;;
               retag currentId image ;;
               writeStatus executionId skipped None
                 (Some (FullDetails (blockedDetailsOf containerName criteria outcome))) ;;
               notify auto_update_blocked (blockedNotification containerName outcome) ;;
               returnWith tt
             else ret outcome)
            (λ scanError,
               log ("Scan failed: " +:+ scanError) ;;
               log "Restoring original tag..." ;;
               retag currentId image ;;
               writeStatus executionId failed
                 (Some ("Vulnerability scan failed: " +:+ scanError)) None ;;
               returnWith tt)
        else ret (mkScanOutcome false None None None)) ;;
     log ("Running: docker compose up -d " +:+ composeService) ;;
     upResult <- call (updateStackService C composeProject composeService
                         composeConfigFiles)
                      (EvUpdateStackService composeProject composeService
                         composeConfigFiles) ;;
     (if service_success upResult then ret tt
      else throw (orElse (service_error upResult) "docker compose up failed")) ;;
     call (updateAutoUpdateLastUpdated C containerName)
          (EvUpdateAutoUpdateLastUpdated containerName) ;;
     log ("Successfully updated container: " +:+ containerName) ;;
     writeStatus executionId success None
       (Some (FullDetails (buildSuccessDetails containerName digest criteria
                             (scanResults scanOutcome) (scanSummary scanOutcome)))) ;;
     notify auto_update_success (successNotification containerName) ;;
     returnWith tt)
    (λ composeError,
       log ("Compose update failed: " +:+ composeError) ;;
       writeStatus executionId failed
         (Some ("Stack update failed: " +:+ composeError)) None ;;
       notify auto_update_failed (failedNotification containerName composeError) ;;
       returnWith tt).

(** Lines 616-709: pull under the protection of a temporary tag, scan, and
    promote the approved image. *)
Definition safePull (executionId : Z) (containerName image : string)
    (currentId : string) (criteria : VulnerabilityCriteria)
  : M unit ScanOutcome :=
  let tempTag := getTempImageTag U image in
  log ("Using temp tag for safe pull: " +:+ tempTag) ;;
  tryCatch
    (log ("Pulling new image: " +:+ image) ;;
     call (pullImage C image) (EvPullImage image) ;;
     newId <- call (getImageIdByTag C image) (EvGetImageIdByTag image) ;;
     (if truthy newId then ret tt
      else throw "Failed to get new image ID after pull") ;;
     let newImage := default EmptyString newId in
     log ("New image pulled: " +:+ prefix 19 newImage) ;;
     log "Restoring original tag to safe image..." ;;
     retag currentId image ;;
     retag newImage tempTag ;;
     log ("New image tagged as: " +:+ tempTag) ;;
     scanOutcome <-
       tryCatch
         (outcome <- scanAndCheckBlock (mkScanContext newImage currentId criteria) ;;
          if blocked outcome then
            log ("Removing blocked image: " +:+ tempTag) ;;
            removeTemp newImage ;;
            writeStatus executionId skipped None
              (Some (FullDetails (blockedDetailsOf containerName criteria outcome))) ;;
            notify auto_update_blocked (blockedNotification containerName outcome) ;;
            returnWith tt
          else ret outcome)
         (λ scanError,
            log ("Scan failed: " +:+ scanError) ;;
            log "Removing temp image..." ;;
            removeTemp newImage ;;
            writeStatus executionId failed
              (Some ("Vulnerability scan failed: " +:+ scanError)) None ;;
            returnWith tt) ;;
     log ("Re-tagging approved image to: " +:+ image) ;;
     retag newImage image ;;
     tryCatch (removeTemp tempTag) (λ _, ret tt) ;;
     ret scanOutcome)
    (λ pullError,
       log ("Pull failed: " +:+ pullError) ;;
       writeStatus executionId failed
         (Some ("Failed to pull image: " +:+ pullError)) None ;;
       returnWith tt).

(** Lines 711-725: pull without a scan. *)
Definition simplePull (executionId : Z) (image : string) : M unit ScanOutcome :=
  log "Pulling update (no vulnerability scan)..." ;;
  tryCatch
    (call (pullImage C image) (EvPullImage image) ;;
     log "Image pulled successfully")
    (λ pullError,
       log ("Pull failed: " +:+ pullError) ;;
       writeStatus executionId failed
         (Some ("Failed to pull image: " +:+ pullError)) None ;;
       returnWith tt) ;;
  ret (mkScanOutcome false None None None).

(** Lines 728-765: recreate the container and close the run. *)
Definition recreateAndFinish (executionId : Z) (containerName : string)
    (isStackContainer : bool) (digest : option string)
    (criteria : VulnerabilityCriteria) (scanOutcome : ScanOutcome)
  : M unit unit :=
  (if isStackContainer then
     log "External stack - recreating container directly" ;;
     log "WARNING: Some compose settings may not be preserved"
   else log "Recreating standalone container...") ;;
  ok <- recreateContainer containerName true ;;
  if ok : bool then
    call (updateAutoUpdateLastUpdated C containerName)
         (EvUpdateAutoUpdateLastUpdated containerName) ;;
    log ("Successfully updated container: " +:+ containerName) ;;
    writeStatus executionId success None
      (Some (FullDetails (buildSuccessDetails containerName digest criteria
                            (scanResults scanOutcome) (scanSummary scanOutcome)))) ;;
    notify auto_update_success (successNotification containerName)
  else throw "Failed to recreate container".

(** Lines 395-765: from the container's snapshot to the end of the [try]
    block. *)
Definition updateFromSnapshot (settingId executionId : Z)
    (containerName image : string) (inspectData : InspectData) : M unit unit :=
  let currentId := Image inspectData in
  log ("Container is using image: " +:+ image) ;;
  log ("Current image ID: " +:+ prefix 19 currentId) ;;
  let containerLabels := default ∅ (Config inspectData ≫= Config_Labels) in
  let composeProject := containerLabels !! "com.docker.compose.project" in
  let composeService := containerLabels !! "com.docker.compose.service" in
  let composeConfigFiles :=
    containerLabels !! "com.docker.compose.project.config_files" in
  let isStackContainer := truthy composeProject && truthy composeService in
  let project := default EmptyString composeProject in
  let service := default EmptyString composeService in
  (if isStackContainer then
     log ("Container is part of compose stack: " +:+ project
          +:+ " (service: " +:+ service +:+ ", configFiles: "
          +:+ orElse composeConfigFiles "none" +:+ ")")
   else log "Container is standalone (not part of a compose stack)") ;;
  settings <-
     promiseAll2 (getScannerSettings C) EvGetScannerSettings
       (getAutoUpdateSettingById C settingId)
       (EvGetAutoUpdateSettingById settingId) ;;
  let scannerSetting := fst settings in
  let updateSetting := snd settings in
  let criteria := orElse (updateSetting ≫= λ setting, setting) "never" in
  let shouldScan := negb (bool_decide (scannerSetting = "none")) in
  log ("Checking registry for updates: " +:+ image) ;;
  registryCheck <- call (checkImageUpdateAvailable C image currentId)
                        (EvCheckImageUpdateAvailable image currentId) ;;
  if isLocalImage registryCheck then
    log "Local image detected - skipping (auto-update requires registry)" ;;
    writeStatus executionId skipped None
      (Some (ReasonOnly "Local image - no registry available")) ;;
    returnWith tt
  else if truthy (check_error registryCheck) then
    log ("Registry check error: " +:+ default EmptyString (check_error registryCheck)) ;;
    writeStatus executionId skipped None
      (Some (ReasonOnly ("Registry check failed: "
                         +:+ default EmptyString (check_error registryCheck)))) ;;
    returnWith tt
  else if negb (hasUpdate registryCheck) then
    log ("Already up-to-date: " +:+ containerName
         +:+ " is running the latest version") ;;
    writeStatus executionId skipped None (Some (ReasonOnly "Already up-to-date")) ;;
    returnWith tt
  else
    log ("Update available! Registry digest: "
         +:+ orElse (prefix 19 <$> registryDigest registryCheck) "unknown") ;;
    let digest := registryDigest registryCheck in
    (if isStackContainer then
       composeResult <- call (getStackComposeFile C project composeConfigFiles)
                             (EvGetStackComposeFile project composeConfigFiles) ;;
       log ("Compose lookup result: success="
            +:+ showBool (compose_success composeResult) +:+ ", composePath="
            +:+ orElse (composePath composeResult) "none") ;;
       (if compose_success composeResult then
          composeFlow executionId containerName image currentId project service
            composeConfigFiles digest criteria shouldScan
        else ret tt) ;;
       log ("No compose file found for stack " +:+ quoted project
            +:+ " - using standalone update") ;;
       log "TIP: Import this stack into Dockhand for compose-native updates"
     else ret tt) ;;
    scanOutcome <-
      (if shouldScan && negb (isDigestBasedImage U image)
       then safePull executionId containerName image currentId criteria
       else simplePull executionId image) ;;
    recreateAndFinish executionId containerName isStackContainer digest
      criteria scanOutcome.

(** Lines 328-765: the body of the [try] block. *)
Definition tryUpdate (settingId executionId : Z) (containerName : string)
  : M unit unit :=
  log ("Checking container: " +:+ containerName) ;;
  call (updateAutoUpdateLastChecked C containerName)
       (EvUpdateAutoUpdateLastChecked containerName) ;;
  containers <- call (listContainers C) EvListContainers ;;
  match findContainer containerName containers with
  | None =>
      log ("Container not found: " +:+ containerName) ;;
      writeStatus executionId failed (Some "Container not found") None ;;
      returnWith tt
  | Some container =>
      inspectData <- call (inspectContainer C (id container))
                          (EvInspectContainer (id container)) ;;
      let imageNameFromConfig := Config inspectData ≫= Config_Image in
      if negb (truthy imageNameFromConfig) then
        log "Could not determine image name from container config" ;;
        writeStatus executionId failed (Some "Could not determine image name") None ;;
        returnWith tt
      else
        let image := default EmptyString imageNameFromConfig in
        match isSystemContainer U image with
        | Some systemContainerType =>
            let why :=
              match systemContainerType with
              | dockhand => "Cannot auto-update Dockhand itself"
              | hawser => "Cannot auto-update Hawser agent"
              end in
            log ("Skipping "
                 +:+ match systemContainerType with
                     | dockhand => "dockhand" | hawser => "hawser" end
                 +:+ " container - " +:+ why) ;;
            writeStatus executionId skipped None (Some (ReasonOnly why)) ;;
            returnWith tt
        | None =>
            if isDigestBasedImage U image then
              log ("Skipping " +:+ containerName
                   +:+ " - image pinned to specific digest") ;;
              writeStatus executionId skipped None
                (Some (ReasonOnly "Image pinned to specific digest")) ;;
              returnWith tt
            else
              updateFromSnapshot settingId executionId containerName image
                inspectData
        end
  end.

(** Lines 767-781: the [catch] clause of the run. *)
Definition onError (executionId : Z) (containerName msg : string) : M unit unit :=
  log ("Error: " +:+ msg) ;;
  writeStatus executionId failed (Some msg) None ;;
  notify auto_update_failed (failedNotification containerName msg).

Definition runContainerUpdate {R} (settingId : Z) (containerName : string)
    (triggeredBy : ScheduleTrigger) : M R unit :=
  asFunction
    (executionId <-
       call (createScheduleExecution C settingId containerName triggeredBy running)
            (EvCreateScheduleExecution settingId containerName triggeredBy running) ;;
     call (updateScheduleExecution C executionId (mkUpdate true None None None))
          (EvUpdateScheduleExecution executionId (mkUpdate true None None None)) ;;
     tryCatch (tryUpdate settingId executionId containerName)
              (onError executionId containerName)).

End Task.

Arguments Event : clear implicits.
Arguments St : clear implicits.
Arguments M : clear implicits.
Arguments Collaborators : clear implicits.
Arguments Utils : clear implicits.

(** ** Observations on traces *)

Section Observers.
Context {ContainerOptions : Type}.
Local Abbreviation Event := (Event ContainerOptions).

Definition isLog (e : Event) : bool :=
  match e with EvLog _ => true | _ => false end.

Definition isConnect (e : Event) : bool :=
  match e with EvConnectContainerToNetwork _ _ _ _ => true | _ => false end.

(** Whether the call behind an event resolved. *)
Definition settled (e : Event) : bool :=
  match e with
  | EvLog _ => true
  | EvCreateScheduleExecution _ _ _ _ r => isOk r
  | EvUpdateScheduleExecution _ _ r => isOk r
  | EvUpdateAutoUpdateLastChecked _ r => isOk r
  | EvUpdateAutoUpdateLastUpdated _ r => isOk r
  | EvGetAutoUpdateSettingById _ r => isOk r
  | EvGetScannerSettings r => isOk r
  | EvListContainers r => isOk r
  | EvInspectContainer _ r => isOk r
  | EvCheckImageUpdateAvailable _ _ r => isOk r
  | EvGetStackComposeFile _ _ r => isOk r
  | EvPullStackService _ _ _ r => isOk r
  | EvUpdateStackService _ _ _ r => isOk r
  | EvPullImage _ r => isOk r
  | EvGetImageIdByTag _ r => isOk r
  | EvTagImage _ _ _ r => isOk r
  | EvRemoveTempImage _ r => isOk r
  | EvScanImage _ r => isOk r
  | EvSaveVulnerabilityScan _ r => isOk r
  | EvGetCombinedScanForImage _ r => isOk r
  | EvSendEventNotification _ _ r => isOk r
  | EvStopContainer _ r => isOk r
  | EvRemoveContainer _ _ r => isOk r
  | EvCreateContainer _ r => isOk r
  | EvConnectContainerToNetwork _ _ _ r => isOk r
  | EvStart _ r => isOk r
  end.

(** A rejected call other than a network reconnection. *)
Definition isFatal (e : Event) : bool := negb (settled e) && negb (isConnect e).

(** The status a ledger write that went through gives the record, when it
    is a terminal one. *)
Definition terminalStatus (e : Event) : option ExecStatus :=
  match e with
  | EvUpdateScheduleExecution _ u (Ok _) =>
      match status u with
      | Some running | None => None
      | Some st => Some st
      end
  | _ => None
  end.

Definition terminalWrites (tr : list Event) : list ExecStatus :=
  omap terminalStatus tr.

(** Calls that pull an image, move a tag or create a container, by hand or
    through the compose subsystem. *)
Definition isPullTagOrCreate (e : Event) : bool :=
  match e with
  | EvPullImage _ _ | EvPullStackService _ _ _ _ | EvTagImage _ _ _ _
  | EvCreateContainer _ _ | EvUpdateStackService _ _ _ _ => true
  | _ => false
  end.

Definition isRegistryQuery (e : Event) : bool :=
  match e with EvCheckImageUpdateAvailable _ _ _ => true | _ => false end.

(** The events of a vulnerability scan: log lines and calls to the scanner
    and the scan history. *)
Definition isScanEvent (e : Event) : bool :=
  match e with
  | EvLog _ | EvScanImage _ _ | EvSaveVulnerabilityScan _ _
  | EvGetCombinedScanForImage _ _ => true
  | _ => false
  end.

(** The events of a container recreation. *)
Definition isRecreateEvent (e : Event) : bool :=
  match e with
  | EvLog _ | EvListContainers _ | EvInspectContainer _ _
  | EvStopContainer _ _ | EvRemoveContainer _ _ _ | EvCreateContainer _ _
  | EvConnectContainerToNetwork _ _ _ _ | EvStart _ _ => true
  | _ => false
  end.

(** The skip written when the registry has nothing newer (line 448), when
    the image is pinned (line 380) and when it is a system image
    (line 368). *)
Definition skippedUpdate (why : string) : ExecutionUpdate :=
  mkUpdate false (Some skipped) None (Some (ReasonOnly why)).

(** A failed write that carries a message (lines 337, 354 and 772). *)
Definition failedUpdate (msg : string) : ExecutionUpdate :=
  mkUpdate false (Some failed) (Some msg) None.

(** What the first listing of the containers returned. *)
Fixpoint listing (tr : list Event) : option (list ContainerInfo) :=
  match tr with
  | [] => None
  | EvListContainers r :: _ =>
      match r with Ok cs => Some cs | Err _ => None end
  | _ :: rest => listing rest
  end.

(** The networks the run tried to connect a container to, and the scan
    records it tried to save, in the order of the calls. *)
Definition connectTarget (e : Event) : option string :=
  match e with
  | EvConnectContainerToNetwork network _ _ _ => Some network
  | _ => None
  end.

Definition savedRecord (e : Event) : option ScanRecord :=
  match e with
  | EvSaveVulnerabilityScan record _ => Some record
  | _ => None
  end.

Definition isScanCall (e : Event) : bool :=
  match e with EvScanImage _ _ => true | _ => false end.

Definition isCacheLookup (e : Event) : bool :=
  match e with EvGetCombinedScanForImage _ _ => true | _ => false end.

Definition isServiceUpdate (e : Event) : bool :=
  match e with EvUpdateStackService _ _ _ _ => true | _ => false end.

(** The snapshot of the run: what its first inspection returned. *)
Fixpoint snapshot (tr : list Event) : option InspectData :=
  match tr with
  | [] => None
  | EvInspectContainer _ r :: _ =>
      match r with Ok d => Some d | Err _ => None end
  | _ :: rest => snapshot rest
  end.

(** What the registry comparison of the run reported: the settlement of its
    first [checkImageUpdateAvailable] call. *)
Fixpoint registryAnswer (tr : list Event) : option RegistryCheck :=
  match tr with
  | [] => None
  | EvCheckImageUpdateAvailable _ _ r :: _ =>
      match r with Ok answer => Some answer | Err _ => None end
  | _ :: rest => registryAnswer rest
  end.

(** The ledger write of a blocked update (lines 656-667) and of a
    successful one (lines 745-756). *)
Definition isBlockedWrite (e : Event) : bool :=
  match e with
  | EvUpdateScheduleExecution _ u _ =>
      match status u, details u with
      | Some skipped, Some (FullDetails d) =>
          bool_decide (det_reason d = Some "vulnerabilities_found")
      | _, _ => false
      end
  | _ => false
  end.

Definition isSuccessWrite (e : Event) : bool :=
  match e with
  | EvUpdateScheduleExecution _ u _ =>
      match status u with Some success => true | _ => false end
  | _ => false
  end.

(** A pull issued by the task itself, which only the standalone flow does,
    and a tag operation. *)
Definition isManualPull (e : Event) : bool :=
  match e with EvPullImage _ _ => true | _ => false end.

Definition isTag (e : Event) : bool :=
  match e with EvTagImage _ _ _ _ => true | _ => false end.

(** The identity the run resolved for the pulled image: the answer to its
    first [getImageIdByTag] call. *)
Fixpoint pulledIdentity (tr : list Event) : option string :=
  match tr with
  | [] => None
  | EvGetImageIdByTag _ r :: _ =>
      match r with Ok (Some imageId) => Some imageId | _ => None end
  | _ :: rest => pulledIdentity rest
  end.

Definition isSave (e : Event) : bool :=
  match e with EvSaveVulnerabilityScan _ _ => true | _ => false end.

Definition saveWarning (msg : string) : string :=
  "Warning: Could not save scan results: " +:+ msg.

(** Every rejected save of a scan record is followed at once by the warning
    that carries its message. *)
Fixpoint savesLogged (tr : list Event) : bool :=
  match tr with
  | [] => true
  | EvSaveVulnerabilityScan _ (Err msg) :: rest =>
      match rest with
      | EvLog line :: _ => bool_decide (line = saveWarning msg)
      | _ => false
      end && savesLogged rest
  | _ :: rest => savesLogged rest
  end.

(** Every rejected save of a record of the image [imageId] is followed at
    once by the warning that carries its message. *)
Fixpoint savesLoggedFor (imageId : string) (tr : list Event) : bool :=
  match tr with
  | [] => true
  | EvSaveVulnerabilityScan record (Err msg) :: rest =>
      (if bool_decide (rec_imageId record = imageId)
       then match rest with
            | EvLog line :: _ => bool_decide (line = saveWarning msg)
            | _ => false
            end
       else true) && savesLoggedFor imageId rest
  | _ :: rest => savesLoggedFor imageId rest
  end.

(** The calls [updateStackContainer] makes. *)
Definition isStackUpdateEvent (e : Event) : bool :=
  match e with
  | EvLog _ | EvGetStackComposeFile _ _ _ | EvUpdateStackService _ _ _ _ => true
  | _ => false
  end.

(** How the removal of the image or reference [x] settled, when the trace
    shows one. *)
Fixpoint removalOf (x : string) (tr : list Event) : option (Res unit) :=
  match tr with
  | [] => None
  | EvRemoveTempImage y r :: rest =>
      if bool_decide (y = x) then Some r else removalOf x rest
  | _ :: rest => removalOf x rest
  end.

Definition isNotification (e : Event) : bool :=
  match e with EvSendEventNotification _ _ _ => true | _ => false end.

(** [e1] occurs in the trace, and [e2] occurs later. *)
Definition before (e1 e2 : Event) (tr : list Event) : Prop :=
  ∃ l1 l2 l3, tr = l1 ++ e1 :: l2 ++ e2 :: l3.

End Observers.

Section Predicates.
Context {ContainerOptions W : Type}.
Local Abbreviation St := (St ContainerOptions W).
Local Abbreviation M := (M ContainerOptions W).
Local Abbreviation Event := (Event ContainerOptions).

(** A run starts with an empty trace. *)
Definition start_state (w : W) : St := mkSt w [].

(** Every state change of [m] is within the relation [T]. *)
Definition stepwise {R A} (T : St → St → Prop) (m : M R A) : Prop :=
  ∀ s c s', m s = (c, s') → T s s'.

(** The trace grew by events that all satisfy [P]. *)
Definition emitted (P : Event → Prop) (s s' : St) : Prop :=
  ∃ evs, trace s' = trace s ++ evs ∧ Forall P evs.

(** A collaborator call, or a log line, keeps the run within [T]. *)
Definition callWithin {A} (T : St → St → Prop) (h : W → Res A * W)
    (ev : Res A → Event) : Prop :=
  ∀ s r w', h (world s) = (r, w') → T s (mkSt w' (trace s ++ [ev r])).

Definition logWithin (T : St → St → Prop) : Prop :=
  ∀ s msg, T s (mkSt (world s) (trace s ++ [EvLog msg])).

Definition scanWithin (T : St → St → Prop)
    (C : Collaborators ContainerOptions W) : Prop :=
  ∀ imageId lines s ps r w',
    scanImage C imageId (world s) = (ps, r, w') →
    T s (mkSt w' (trace s ++ map EvLog lines ++ [EvScanImage imageId r])).

(** The world is left as it was, as far as [view] shows it. *)
Definition keeps {V} (view : W → V) (s s' : St) : Prop :=
  view (world s') = view (world s).

Definition callKeeps {A V} (view : W → V) (h : W → Res A * W) : Prop :=
  ∀ w, view (snd (h w)) = view w.

(** Modelled from the spec: what the runtime's local image store does, as
    far as the task relies on it. [resolve] is the identity a
    repository:tag pair points at. Tagging binds the pair and no other; a
    temporary reference names another pair than the reference it is made
    from; removing an image by an identity the store reported leaves every
    pair bound to another identity; removing a temporary reference leaves
    every other pair, and leaves the pair it names unbound when the removal
    went through; a rejected removal changes nothing; the other
    collaborators the standalone flow calls after the pull do not move
    tags. *)
Record TagStore (C : Collaborators ContainerOptions W)
    (U : Utils ContainerOptions)
    (resolve : W → string * string → option string) : Prop := {
  tag_binds : ∀ imageId repo tag w w',
    tagImage C imageId repo tag w = (Ok tt, w') →
    resolve w' (repo, tag) = Some imageId;
  tag_frame : ∀ imageId repo tag w r w' pair,
    tagImage C imageId repo tag w = (r, w') →
    pair ≠ (repo, tag) → resolve w' pair = resolve w pair;
  temp_pair : ∀ image,
    parseImageNameAndTag U (getTempImageTag U image)
    ≠ parseImageNameAndTag U image;
  remove_reported : ∀ image w0 w0' x,
    getImageIdByTag C image w0 = (Ok (Some x), w0') →
    ∀ w r w' pair imageId,
      removeTempImage C x w = (r, w') →
      resolve w pair = Some imageId → imageId ≠ x →
      resolve w' pair = Some imageId;
  remove_temp_frame : ∀ image w r w' pair,
    removeTempImage C (getTempImageTag U image) w = (r, w') →
    pair ≠ parseImageNameAndTag U (getTempImageTag U image) →
    resolve w' pair = resolve w pair;
  remove_temp_unbinds : ∀ image w w',
    removeTempImage C (getTempImageTag U image) w = (Ok tt, w') →
    resolve w' (parseImageNameAndTag U (getTempImageTag U image)) = None;
  remove_rejected : ∀ x w msg w',
    removeTempImage C x w = (Err msg, w') → resolve w' = resolve w;
  scan_frame : ∀ imageId w, resolve (snd (scanImage C imageId w)) = resolve w;
  save_frame : ∀ record, callKeeps resolve (saveVulnerabilityScan C record);
  history_frame : ∀ imageId, callKeeps resolve (getCombinedScanForImage C imageId);
  ledger_frame : ∀ executionId u,
    callKeeps resolve (updateScheduleExecution C executionId u);
  notification_frame : ∀ kind n, callKeeps resolve (sendEventNotification C kind n);
  updated_frame : ∀ containerName,
    callKeeps resolve (updateAutoUpdateLastUpdated C containerName);
  list_frame : callKeeps resolve (listContainers C);
  inspect_frame : ∀ cid, callKeeps resolve (inspectContainer C cid);
  stop_frame : ∀ cid, callKeeps resolve (stopContainer C cid);
  removeContainer_frame : ∀ cid force,
    callKeeps resolve (removeContainer C cid force);
  create_frame : ∀ options, callKeeps resolve (createContainer C options);
  connect_frame : ∀ network cid o,
    callKeeps resolve (connectContainerToNetwork C network cid o);
  start_frame : ∀ cid, callKeeps resolve (start C cid)
}.

(** Two environments answer scans and cache lookups alike wherever [view]
    shows the same, and their saves of an image's records leave [view] as
    it was. *)
Definition sameScans {V} (view : W → V)
    (C C' : Collaborators ContainerOptions W) : Prop :=
  ∀ imageId w w', view w = view w' →
    fst (scanImage C imageId w) = fst (scanImage C' imageId w')
    ∧ view (snd (scanImage C imageId w)) = view (snd (scanImage C' imageId w')).

Definition sameCache {V} (view : W → V)
    (C C' : Collaborators ContainerOptions W) (imageId : string) : Prop :=
  ∀ w w', view w = view w' →
    fst (getCombinedScanForImage C imageId w)
    = fst (getCombinedScanForImage C' imageId w')
    ∧ view (snd (getCombinedScanForImage C imageId w))
      = view (snd (getCombinedScanForImage C' imageId w')).

Definition savesKeep {V} (view : W → V)
    (C : Collaborators ContainerOptions W) (imageId : string) : Prop :=
  ∀ result, callKeeps view (saveVulnerabilityScan C (scanRecordOf imageId result)).

(** The ledger's calls and the notification sink never reject. *)
Definition reliableLedger (C : Collaborators ContainerOptions W) : Prop :=
  (∀ settingId entity trigger st w,
      ∃ executionId w',
        createScheduleExecution C settingId entity trigger st w
        = (Ok executionId, w'))
  ∧ (∀ executionId u w,
      ∃ w', updateScheduleExecution C executionId u w = (Ok tt, w')).

Definition reliableNotifications (C : Collaborators ContainerOptions W) : Prop :=
  ∀ kind n w, ∃ w', sendEventNotification C kind n w = (Ok tt, w').

End Predicates.

(** ** A reference environment

    A small, executable environment for the collaborators: a local image
    store, one container, a scanner with fixed findings, a scan history, and
    switches that make single collaborators reject. It is used to run the
    task on concrete inputs. *)

Module Reference.

Inductive Failure :=
  | NotificationsFail | TagRemovalFails | SavesFail | ConnectFails
  | CreateFails | ListFails.

Global Instance Failure_eq_dec : EqDecision Failure.
Proof. solve_decision. Defined.

(** The images of the store: the one the container runs and the one the
    registry holds. *)
Inductive Identity := Running | Fetched.

Global Instance Identity_eq_dec : EqDecision Identity.
Proof. solve_decision. Defined.

Definition showIdentity (i : Identity) : string :=
  match i with Running => "sha:aaa" | Fetched => "sha:bbb" end.

Definition readIdentity (x : string) : option Identity :=
  if bool_decide (x = "sha:aaa") then Some Running
  else if bool_decide (x = "sha:bbb") then Some Fetched
  else None.

Record World := mkWorld {
  tags : gmap (string * string) Identity;
  registryImage : Identity;
  registry : RegistryCheck;
  containerList : list ContainerInfo;
  inspection : InspectData;
  scannerSetting : string;
  criteriaSetting : option VulnerabilityCriteria;
  findings : list ScanResult;
  scanHistory : list ScanRecord;
  failures : list Failure
}.

Definition fails (f : Failure) (w : World) : bool := bool_decide (f ∈ failures w).

(** Modelled from the spec: [parseImageNameAndTag] is missing; a reference
    is split at its last colon, and has the tag [latest] without one. *)
Fixpoint splitLastColon (s : string) : string * option string :=
  match s with
  | EmptyString => (EmptyString, None)
  | String c rest =>
      match splitLastColon rest with
      | (repo, Some tag) => (String c repo, Some tag)
      | (repo, None) =>
          if Ascii.eqb c (Ascii.ascii_of_nat 58) then (EmptyString, Some rest)
          else (String c repo, None)
      end
  end.

Definition parseImageNameAndTag (image : string) : string * string :=
  let '(repo, tag) := splitLastColon image in (repo, default "latest" tag).

(** Modelled from the spec: [getTempImageTag] is missing; the temporary tag
    is derived from the reference by a fixed suffix on its tag. *)
Definition getTempImageTag (image : string) : string :=
  let '(repo, tag) := parseImageNameAndTag image in
  repo +:+ ":" +:+ tag +:+ "-dockhand-pending".

Fixpoint isPrefixOf (p s : string) : bool :=
  match p, s with
  | EmptyString, _ => true
  | String a p', String b s' => Ascii.eqb a b && isPrefixOf p' s'
  | String _ _, EmptyString => false
  end.

Fixpoint contains (needle s : string) : bool :=
  isPrefixOf needle s
  || match s with
     | EmptyString => false
     | String _ s' => contains needle s'
     end.

(** Modelled from the spec: [isDigestBasedImage] is missing; a reference is
    pinned when it names its content by digest. *)
Definition isDigestBasedImage (image : string) : bool := contains "@sha256:" image.

(** Modelled from the spec: [isSystemContainer] is missing; it recognises
    the images of the management software and of its agent. *)
Definition isSystemContainer (image : string) : option SystemContainerType :=
  if contains "dockhand" image then Some dockhand
  else if contains "hawser" image then Some hawser
  else None.

Definition totalFindings (s : VulnerabilitySeverity) : Z :=
  critical s + high s + medium s + low s + negligible s + unknown s.

(** Modelled from the spec: [shouldBlockUpdate] is missing, and the spec
    leaves its thresholds open. The reference environment needs one policy
    to run the task: this one never blocks under [never] and under a
    criteria it does not know; it blocks on any finding, on findings at or
    above a severity threshold, or when the new image has more findings
    than the running one. Only the runs in this environment use it. *)
Definition shouldBlockUpdate (criteria : VulnerabilityCriteria)
    (newSummary : VulnerabilitySeverity)
    (currentSummary : option VulnerabilitySeverity) : bool * string :=
  if bool_decide (criteria = "any") then
    (bool_decide (0 < totalFindings newSummary), "Vulnerabilities found")
  else if bool_decide (criteria = "critical_high") then
    (bool_decide (0 < critical newSummary + high newSummary),
     "Critical or high severity vulnerabilities found")
  else if bool_decide (criteria = "critical") then
    (bool_decide (0 < critical newSummary), "Critical vulnerabilities found")
  else if bool_decide (criteria = "more_than_current") then
    match currentSummary with
    | Some cur =>
        (bool_decide (totalFindings cur < totalFindings newSummary),
         "New image has more vulnerabilities than the current image")
    | None => (false, EmptyString)
    end
  else (false, EmptyString).

Definition utils : Utils InspectData :=
  mkUtils shouldBlockUpdate pretty parseImageNameAndTag getTempImageTag
    isDigestBasedImage isSystemContainer (λ inspectData, inspectData)
    (λ _, None) (λ _, None).

(** What the local image store resolves a repository:tag pair to. *)
Definition resolve (w : World) (pair : string * string) : option string :=
  showIdentity <$> tags w !! pair.

Definition withTags (w : World) (t : gmap (string * string) Identity) : World :=
  mkWorld t (registryImage w) (registry w) (containerList w) (inspection w)
    (scannerSetting w) (criteriaSetting w) (findings w) (scanHistory w)
    (failures w).

Definition withHistory (w : World) (h : list ScanRecord) : World :=
  mkWorld (tags w) (registryImage w) (registry w) (containerList w)
    (inspection w) (scannerSetting w) (criteriaSetting w) (findings w) h
    (failures w).

Definition withRegistryImage (w : World) (i : Identity) : World :=
  mkWorld (tags w) i (registry w) (containerList w) (inspection w)
    (scannerSetting w) (criteriaSetting w) (findings w) (scanHistory w)
    (failures w).

Definition withContainers (w : World) (l : list ContainerInfo) : World :=
  mkWorld (tags w) (registryImage w) (registry w) l (inspection w)
    (scannerSetting w) (criteriaSetting w) (findings w) (scanHistory w)
    (failures w).

Definition ok {A} (a : A) (w : World) : Res A * World := (Ok a, w).

Definition rejectWhen {A} (f : Failure) (msg : string) (a : A) (w : World)
  : Res A * World :=
  if fails f w then (Err msg, w) else (Ok a, w).

(** The combined summary of the stored scans of an image. *)
Definition combinedFor (imageId : string) (h : list ScanRecord)
  : option VulnerabilitySeverity :=
  match List.filter (λ r, bool_decide (rec_imageId r = imageId)) h with
  | [] => None
  | records => Some (foldr (λ r acc, addSeverity (rec_counts r) acc)
                       (mkSeverity 0 0 0 0 0 0) records)
  end.

Definition collaborators : Collaborators InspectData World :=
  mkCollaborators
    (* createScheduleExecution *) (λ _ _ _ _, ok 1)
    (* updateScheduleExecution *) (λ _ _, ok tt)
    (* updateAutoUpdateLastChecked *) (λ _, ok tt)
    (* updateAutoUpdateLastUpdated *) (λ _, ok tt)
    (* getAutoUpdateSettingById *) (λ _ w, (Ok (Some (criteriaSetting w)), w))
    (* getScannerSettings *) (λ w, (Ok (scannerSetting w), w))
    (* listContainers *)
    (λ w, rejectWhen ListFails "runtime unavailable" (containerList w) w)
    (* inspectContainer *) (λ _ w, (Ok (inspection w), w))
    (* checkImageUpdateAvailable *) (λ _ _ w, (Ok (registry w), w))
    (* getStackComposeFile *) (λ _ _, ok (mkComposeFile false None None))
    (* pullStackService *) (λ _ _ _, ok (mkServiceResult true None))
    (* updateStackService *) (λ _ _ _, ok (mkServiceResult true None))
    (* pullImage: the pull moves the tag to the fetched image *)
    (λ image w,
       (Ok tt, withTags w (<[parseImageNameAndTag image := registryImage w]> (tags w))))
    (* getImageIdByTag *)
    (λ image w, (Ok (showIdentity <$> tags w !! parseImageNameAndTag image), w))
    (* tagImage *)
    (λ imageId repo tag w,
       match readIdentity imageId with
       | Some i => (Ok tt, withTags w (<[(repo, tag) := i]> (tags w)))
       | None => (Err "No such image", w)
       end)
    (* removeTempImage: an identity takes every tag of the image with it, a
       reference only itself *)
    (λ imageIdOrTag w,
       match readIdentity imageIdOrTag with
       | Some i => (Ok tt, withTags w (filter (λ kv, kv.2 ≠ i) (tags w)))
       | None =>
           if fails TagRemovalFails w then (Err "image is in use", w)
           else (Ok tt,
                 withTags w (delete (parseImageNameAndTag imageIdOrTag) (tags w)))
       end)
    (* scanImage *) (λ _ w, ([], Ok (findings w), w))
    (* saveVulnerabilityScan *)
    (λ record w,
       if fails SavesFail w then (Err "database is locked", w)
       else (Ok tt, withHistory w (scanHistory w ++ [record])))
    (* getCombinedScanForImage *)
    (λ imageId w, (Ok (combinedFor imageId (scanHistory w)), w))
    (* sendEventNotification *)
    (λ _ _ w, rejectWhen NotificationsFail "notification channel down" tt w)
    (* stopContainer *) (λ _, ok tt)
    (* removeContainer: the container leaves the listing *)
    (λ cid _ w,
       (Ok tt,
        withContainers w
          (List.filter (λ c, negb (bool_decide (id c = cid))) (containerList w))))
    (* createContainer: the new container takes the name of the old one *)
    (λ _ w,
       if fails CreateFails w then (Err "port is already allocated", w)
       else (Ok "new-container",
             withContainers w
               (containerList w ++ [mkContainerInfo "new-container" "web-1"])))
    (* connectContainerToNetwork *)
    (λ _ _ _ w, rejectWhen ConnectFails "network not found" tt w)
    (* start *) (λ _, ok tt).

(** One container, [web-1], running [app:latest] at identity [sha:aaa]; the
    registry has [sha:bbb]. *)
Definition webInspection (image : string) : InspectData :=
  mkInspect (Some (mkContainerConfig (Some image) None)) "sha:aaa" (Some true)
    (Some (Some "bridge"))
    (Some [("bridge", mkEndpoint None None None None);
           ("backend", mkEndpoint (Some ["web"]) None None None)]).

Definition scanReport (criticalCount : Z) : ScanResult :=
  mkScanResult "app:latest" "grype" "2025-01-01T00:00:00Z" 12
    (mkSeverity criticalCount 0 1 0 0 0) [] None.

Definition world (image scannerName : string)
    (criteria : option VulnerabilityCriteria) (hasNewer : bool)
    (report : list ScanResult) (failing : list Failure) : World :=
  mkWorld {[ parseImageNameAndTag image := Running ]} Fetched
    (mkRegistryCheck hasNewer (Some "sha256:bbb") false None)
    [mkContainerInfo "c0ffee" "web-1"] (webInspection image)
    scannerName criteria report [] failing.

(** The reference environment with a notification sink that never
    rejects. *)
Definition steady : Collaborators InspectData World :=
  mkCollaborators
    (createScheduleExecution collaborators)
    (updateScheduleExecution collaborators)
    (updateAutoUpdateLastChecked collaborators)
    (updateAutoUpdateLastUpdated collaborators)
    (getAutoUpdateSettingById collaborators)
    (getScannerSettings collaborators)
    (listContainers collaborators)
    (inspectContainer collaborators)
    (checkImageUpdateAvailable collaborators)
    (getStackComposeFile collaborators)
    (pullStackService collaborators)
    (updateStackService collaborators)
    (pullImage collaborators)
    (getImageIdByTag collaborators)
    (tagImage collaborators)
    (removeTempImage collaborators)
    (scanImage collaborators)
    (saveVulnerabilityScan collaborators)
    (getCombinedScanForImage collaborators)
    (λ _ _, ok tt)
    (stopContainer collaborators)
    (removeContainer collaborators)
    (createContainer collaborators)
    (connectContainerToNetwork collaborators)
    (start collaborators).

(** What the scanner and the cache lookup for [imageId] can see of a
    world. *)
Definition historyView (imageId : string) (w : World)
  : list ScanResult * option VulnerabilitySeverity :=
  (findings w, combinedFor imageId (scanHistory w)).

Definition run (w : World) :=
  runContainerUpdate (R:=unit) collaborators utils 7 "web-1" scheduled
    (start_state w).

Definition runSteady (w : World) :=
  runContainerUpdate (R:=unit) steady utils 7 "web-1" scheduled (start_state w).

Definition recreate (w : World) :=
  recreateContainer (R:=unit) collaborators utils "web-1" true (start_state w).

Definition scanOf (ctx : ScanContext) (w : World) :=
  scanAndCheckBlock (R:=unit) collaborators utils ctx (start_state w).

Definition scan (criteria : VulnerabilityCriteria) (w : World) :=
  scanOf (mkScanContext "sha:bbb" "sha:aaa" criteria) w.

End Reference.

(** ** Inversion of the monad's operations *)

Section Inversion.
Context {ContainerOptions W : Type}.
Local Abbreviation St := (St ContainerOptions W).
Local Abbreviation M := (M ContainerOptions W).
Local Abbreviation Event := (Event ContainerOptions).
Lemma ret_inv {R A} (a : A) (s : St) (c : Completion R A) s' :
  ret a s = (c, s') → c = Normal a ∧ s' = s.
Proof. unfold ret. intros [= <- <-]. done. Qed.

Lemma throw_inv {R A} msg (s : St) (c : Completion R A) s' :
  throw msg s = (c, s') → c = Throw msg ∧ s' = s.
Proof. unfold throw. intros [= <- <-]. done. Qed.

Lemma returnWith_inv {R A} (r : R) (s : St) (c : Completion R A) s' :
  returnWith r s = (c, s') → c = Return r ∧ s' = s.
Proof. unfold returnWith. intros [= <- <-]. done. Qed.

Lemma bind_inv {R A B} (m : M R A) (k : A → M R B) s c s' :
  bind m k s = (c, s') →
  (∃ a s1, m s = (Normal a, s1) ∧ k a s1 = (c, s'))
  ∨ (∃ r, m s = (Return r, s') ∧ c = Return r)
  ∨ (∃ msg, m s = (Throw msg, s') ∧ c = Throw msg).
Proof.
  unfold bind. destruct (m s) as [[a|r|msg] s1]; intros H.
  - left. eauto.
  - right. left. injection H as <- <-. eauto.
  - right. right. injection H as <- <-. eauto.
Qed.

Lemma tryCatch_inv {R A} (m : M R A) (h : string → M R A) s c s' :
  tryCatch m h s = (c, s') →
  (∃ a, m s = (Normal a, s') ∧ c = Normal a)
  ∨ (∃ r, m s = (Return r, s') ∧ c = Return r)
  ∨ (∃ msg s1, m s = (Throw msg, s1) ∧ h msg s1 = (c, s')).
Proof.
  unfold tryCatch. destruct (m s) as [[a|r|msg] s1]; intros H.
  - left. injection H as <- <-. eauto.
  - right. left. injection H as <- <-. eauto.
  - right. right. eauto.
Qed.

Lemma asFunction_inv {R R'} (body : M R R) (s : St) (c : Completion R' R) s' :
  asFunction body s = (c, s') →
  (∃ r, (body s = (Normal r, s') ∨ body s = (Return r, s')) ∧ c = Normal r)
  ∨ (∃ msg, body s = (Throw msg, s') ∧ c = Throw msg).
Proof.
  unfold asFunction. destruct (body s) as [[a|r|msg] s1]; intros [= <- <-]; eauto.
Qed.

Lemma emit_inv {R} (e : Event) (s : St) (c : Completion R unit) s' :
  emit e s = (c, s') → c = Normal tt ∧ s' = mkSt (world s) (trace s ++ [e]).
Proof. unfold emit. intros [= <- <-]. done. Qed.

Lemma log_inv {R} msg (s : St) (c : Completion R unit) s' :
  log msg s = (c, s') → c = Normal tt ∧ s' = mkSt (world s) (trace s ++ [EvLog msg]).
Proof. apply emit_inv. Qed.

Lemma log_either_inv {R} (b : bool) x y (s : St) (c : Completion R unit) s' :
  (if b then log x else log y) s = (c, s') →
  c = Normal tt
  ∧ s' = mkSt (world s) (trace s ++ [EvLog (if b then x else y)]).
Proof. destruct b; apply log_inv. Qed.

Lemma call_inv {R A} (h : W → Res A * W) (ev : Res A → Event) (s : St)
    (c : Completion R A) s' :
  call h ev s = (c, s') →
  ∃ r w', h (world s) = (r, w') ∧ s' = mkSt w' (trace s ++ [ev r])
          ∧ c = match r with Ok a => Normal a | Err msg => Throw msg end.
Proof.
  unfold call. destruct (h (world s)) as [r w'] eqn:E.
  destruct r; intros [= <- <-]; eauto.
Qed.

Lemma callScanImage_inv (C : Collaborators ContainerOptions W) {R} imageId
    onProgress (s : St) (c : Completion R (list ScanResult)) s' :
  callScanImage C imageId onProgress s = (c, s') →
  ∃ ps r w', scanImage C imageId (world s) = (ps, r, w')
     ∧ s' = mkSt w' (trace s ++ map EvLog (concat (map onProgress ps))
                              ++ [EvScanImage imageId r])
     ∧ c = match r with Ok a => Normal a | Err msg => Throw msg end.
Proof.
  unfold callScanImage. destruct (scanImage C imageId (world s)) as [[ps r] w'] eqn:E.
  destruct r; intros [= <- <-]; eauto 10.
Qed.

Lemma promiseAll2_inv {R A B} (h1 : W → Res A * W) ev1 (h2 : W → Res B * W) ev2
    (s : St) (c : Completion R (A * B)) s' :
  promiseAll2 h1 ev1 h2 ev2 s = (c, s') →
  ∃ r1 w1 r2 w2, h1 (world s) = (r1, w1) ∧ h2 w1 = (r2, w2)
     ∧ s' = mkSt w2 (trace s ++ [ev1 r1; ev2 r2])
     ∧ c = match r1, r2 with
           | Ok a, Ok b => Normal (a, b)
           | Err msg, _ => Throw msg
           | Ok _, Err msg => Throw msg
           end.
Proof.
  unfold promiseAll2. destruct (h1 (world s)) as [r1 w1] eqn:E1.
  destruct (h2 w1) as [r2 w2] eqn:E2.
  destruct r1, r2; intros [= <- <-]; eauto 10.
Qed.

End Inversion.

(** Symbolic execution of one run equation: split it along the program. *)
Ltac run_settle :=
  repeat match goal with
         | H : _ ∧ _ |- _ => destruct H
         | H : ∃ _, _ |- _ => destruct H
         | H : Normal _ = match ?r with Ok _ => _ | Err _ => _ end |- _ => destruct r
         | H : Return _ = match ?r with Ok _ => _ | Err _ => _ end |- _ => destruct r
         | H : Throw _ = match ?r with Ok _ => _ | Err _ => _ end |- _ => destruct r
         end;
  simplify_eq; cbn [trace world fst snd] in *;
  repeat match goal with
         | |- context [match ?r with Ok _ => _ | Err _ => _ end] =>
             is_var r; destruct r
         | H : context [match ?r with Ok _ => _ | Err _ => _ end] |- _ =>
             is_var r; destruct r
         end.

Ltac run_step :=
  match goal with
  | H : ret _ _ = (_, _) |- _ => apply ret_inv in H
  | H : throw _ _ = (_, _) |- _ => apply throw_inv in H
  | H : returnWith _ _ = (_, _) |- _ => apply returnWith_inv in H
  | H : log _ _ = (_, _) |- _ => apply log_inv in H
  | H : (if _ then log _ else log _) _ = (_, _) |- _ => apply log_either_inv in H
  | H : emit _ _ = (_, _) |- _ => apply emit_inv in H
  | H : call _ _ _ = (_, _) |- _ => apply call_inv in H
  | H : promiseAll2 _ _ _ _ _ = (_, _) |- _ =>
      apply promiseAll2_inv in H;
      let r1 := fresh "r" in let r2 := fresh "r" in
      destruct H as (r1 & ? & r2 & ? & ? & ? & ? & ?); destruct r1, r2
  | H : callScanImage _ _ _ _ = (_, _) |- _ => apply callScanImage_inv in H
  | H : bind _ _ _ = (_, _) |- _ =>
      apply bind_inv in H; destruct H as [H | [H | H]]
  | H : tryCatch _ _ _ = (_, _) |- _ =>
      apply tryCatch_inv in H; destruct H as [H | [H | H]]
  | H : asFunction _ _ = (_, _) |- _ =>
      apply asFunction_inv in H; destruct H as [[? [[H | H] ?]] | H]
  | H : optLog _ _ _ = (_, _) |- _ => unfold optLog in H
  | H : when _ _ _ = (_, _) |- _ => unfold when in H
  | H : typeError _ _ = (_, _) |- _ => unfold typeError in H
  | H : retag _ _ _ _ _ = (_, _) |- _ => unfold retag in H
  | H : removeTemp _ _ _ = (_, _) |- _ => unfold removeTemp in H
  | H : writeStatus _ _ _ _ _ _ = (_, _) |- _ => unfold writeStatus in H
  | H : notify _ _ _ _ = (_, _) |- _ => unfold notify in H
  | H : save _ _ _ _ = (_, _) |- _ => unfold save in H
  | H : (if ?b then _ else _) _ = (_, _) |- _ => destruct b eqn:?
  | H : (match ?x with _ => _ end) _ = (_, _) |- _ => destruct x eqn:?
  | H : (let (_, _) := ?x in _) _ = (_, _) |- _ => destruct x eqn:?
  end; run_settle.

Ltac run_all := repeat run_step.

(** Goals about the events a run emitted. *)
Ltac open_emitted :=
  repeat match goal with
         | H : emitted _ _ _ |- _ => destruct H as (? & ? & ?)
         end;
  cbn [trace world] in *.

Ltac solve_forall :=
  repeat first
    [ apply Forall_nil
    | apply Forall_cons; split
    | apply Forall_app; split
    | assumption
    | match goal with
      | H : Forall _ ?l |- Forall _ ?l =>
          apply (Forall_impl _ _ _ H); let e := fresh "e" in
          intros e; destruct e; cbn; try done; try tauto; try naive_solver
      end ];
  cbn; try done; try tauto.

Ltac rewrite_traces :=
  repeat match goal with
         | H : trace ?s = _ |- context [trace ?s] => rewrite H
         end.

Ltac rewrite_traces_in Hin :=
  repeat match goal with
         | H : trace ?s = _ |- _ =>
             lazymatch type of Hin with context [trace s] => rewrite H in Hin end
         end.

Ltac solve_emitted :=
  open_emitted; unfold emitted; cbn [trace world];
  rewrite_traces;
  eexists; split;
  [ first [rewrite <- ?app_assoc; reflexivity | symmetry; apply app_nil_r]
  | solve_forall ].

(** Membership in a trace made of explicit events and summarised parts. *)
Ltac in_split H :=
  repeat (rewrite in_app_iff in H || cbn [In] in H);
  repeat match type of H with
         | _ ∨ _ => destruct H as [H | H]
         | False => destruct H
         end.

Ltac in_cases :=
  repeat match goal with
         | H : In _ (_ ++ _) |- _ => in_split H
         | H : In _ (_ :: _) |- _ => in_split H
         | H : In _ [] |- _ => destruct H
         end.

(** Use a summary [Forall P l] at a known member of [l]. *)
Ltac in_forall :=
  repeat match goal with
         | H : Forall _ ?l, Hin : In ?e ?l |- _ =>
             let Hp := fresh "Hp" in
             pose proof (proj1 (List.Forall_forall _ l) H e Hin) as Hp;
             cbn beta in Hp; clear Hin
         end.

Ltac in_find :=
  solve [ eassumption | reflexivity | left; in_find | right; in_find ].

Ltac in_solve :=
  repeat first [rewrite in_app_iff | progress (cbn [In])]; in_find.

Ltac split_ors :=
  repeat match goal with H : _ ∨ _ |- _ => destruct H end.

(** Decide a statement about an arbitrary event known by its kind. *)
Ltac event_cases e :=
  destruct e; cbn in *; split_ors; try discriminate; try reflexivity;
  try match goal with r : Res _ |- _ => destruct r; cbn; reflexivity end.

(** Refute "no event is fatal" on a trace that shows a rejected call. *)
Ltac fatal_forall :=
  match goal with
  | Hnf : ∀ e, In e ?l → isFatal e = false |- _ =>
      apply List.Forall_forall in Hnf;
      repeat first [ apply Forall_app in Hnf; destruct Hnf as [? Hnf]
                   | apply Forall_cons in Hnf; destruct Hnf as [? Hnf] ]
  end.

(** Split an explicit trace at its container creation, and at a stop that
    precedes a removal. *)
Ltac split_at_create l :=
  lazymatch l with
  | EvCreateContainer _ _ :: ?post =>
      let T := type of post in
      lazymatch T with list ?E => constr:((@nil E, post)) end
  | ?e :: ?rest =>
      let p := split_at_create rest in
      lazymatch p with (?pre, ?post) => constr:((e :: pre, post)) end
  | ?l1 ++ ?rest =>
      let p := split_at_create rest in
      lazymatch p with (?pre, ?post) => constr:((l1 ++ pre, post)) end
  end.

Ltac split_at_stop l :=
  lazymatch l with
  | EvStopContainer _ _ :: ?post =>
      let T := type of post in
      lazymatch T with list ?E => constr:((@nil E, post)) end
  | ?e :: ?rest =>
      let p := split_at_stop rest in
      lazymatch p with (?pre, ?post) => constr:((e :: pre, post)) end
  end.

Ltac split_at_remove l :=
  lazymatch l with
  | EvRemoveContainer _ _ _ :: ?post =>
      let T := type of post in
      lazymatch T with list ?E => constr:((@nil E, post)) end
  | ?e :: ?rest =>
      let p := split_at_remove rest in
      lazymatch p with (?pre, ?post) => constr:((e :: pre, post)) end
  end.

Ltac list_eq := cbn [app]; rewrite <- ?app_assoc; cbn [app]; reflexivity.

(** ** Properties kept by every step of a run *)

Section Stepwise.
Context {ContainerOptions W : Type}.
Local Abbreviation St := (St ContainerOptions W).
Local Abbreviation M := (M ContainerOptions W).
Local Abbreviation Event := (Event ContainerOptions).

Variable T : St → St → Prop.
Hypothesis T_refl : ∀ s, T s s.
Hypothesis T_trans : ∀ s1 s2 s3, T s1 s2 → T s2 s3 → T s1 s3.

Lemma stepwise_ret {R A} (a : A) : stepwise T (ret (R:=R) a).
Proof. intros s c s' H. apply ret_inv in H as [_ ->]. apply T_refl. Qed.

Lemma stepwise_throw {R A} msg : stepwise T (throw (R:=R) (A:=A) msg).
Proof. intros s c s' H. apply throw_inv in H as [_ ->]. apply T_refl. Qed.

Lemma stepwise_returnWith {R A} (r : R) : stepwise T (returnWith (A:=A) r).
Proof. intros s c s' H. apply returnWith_inv in H as [_ ->]. apply T_refl. Qed.

Lemma stepwise_bind {R A B} (m : M R A) (k : A → M R B) :
  stepwise T m → (∀ a, stepwise T (k a)) → stepwise T (bind m k).
Proof.
  intros Hm Hk s c s' H.
  apply bind_inv in H as [(a & s1 & H1 & H2) | [(r & H1 & _) | (msg & H1 & _)]].
  - eapply T_trans; [eapply Hm | eapply Hk]; eauto.
  - eapply Hm; eauto.
  - eapply Hm; eauto.
Qed.

Lemma stepwise_tryCatch {R A} (m : M R A) (h : string → M R A) :
  stepwise T m → (∀ msg, stepwise T (h msg)) → stepwise T (tryCatch m h).
Proof.
  intros Hm Hh s c s' H.
  apply tryCatch_inv in H as [(a & H1 & _) | [(r & H1 & _) | (msg & s1 & H1 & H2)]].
  - eapply Hm; eauto.
  - eapply Hm; eauto.
  - eapply T_trans; [eapply Hm | eapply Hh]; eauto.
Qed.

Lemma stepwise_asFunction {R R'} (body : M R R) :
  stepwise T body → stepwise T (asFunction (R':=R') body).
Proof.
  intros Hb s c s' H.
  apply asFunction_inv in H as [(r & [H | H] & _) | (msg & H & _)];
    eapply Hb; eauto.
Qed.

Lemma stepwise_forOf {R A} (l : list A) (body : A → M R unit) :
  (∀ x, stepwise T (body x)) → stepwise T (forOf l body).
Proof.
  intros Hb. induction l as [|x l IH]; cbn [forOf].
  - apply stepwise_ret.
  - apply stepwise_bind; auto.
Qed.

Lemma stepwise_emit {R} (e : Event) :
  (∀ s, T s (mkSt (world s) (trace s ++ [e]))) → stepwise T (emit (R:=R) e).
Proof. intros He s c s' H. apply emit_inv in H as [_ ->]. apply He. Qed.

Lemma stepwise_call {R A} (h : W → Res A * W) (ev : Res A → Event) :
  (∀ s r w', h (world s) = (r, w') → T s (mkSt w' (trace s ++ [ev r]))) →
  stepwise T (call (R:=R) h ev).
Proof.
  intros Hh s c s' H. apply call_inv in H as (r & w' & H1 & -> & _). eauto.
Qed.

Lemma stepwise_callScanImage (C : Collaborators ContainerOptions W) {R}
    imageId onProgress :
  scanWithin T C → stepwise T (callScanImage (R:=R) C imageId onProgress).
Proof.
  intros Hh s c s' H.
  apply callScanImage_inv in H as (ps & r & w' & H1 & -> & _).
  eapply Hh; eauto.
Qed.

Lemma stepwise_promiseAll2 {R A B} (h1 : W → Res A * W) ev1
    (h2 : W → Res B * W) ev2 :
  (∀ s r1 r2 w2, T s (mkSt w2 (trace s ++ [ev1 r1; ev2 r2]))) →
  stepwise T (promiseAll2 (R:=R) h1 ev1 h2 ev2).
Proof.
  intros Hh s c s' H.
  apply promiseAll2_inv in H as (r1 & w1 & r2 & w2 & _ & _ & -> & _). apply Hh.
Qed.

Lemma stepwise_log {R} msg : logWithin T → stepwise T (log (R:=R) msg).
Proof. intros Hl. apply stepwise_emit. intros s. apply Hl. Qed.

Lemma stepwise_call' {R A} (h : W → Res A * W) (ev : Res A → Event) :
  callWithin T h ev → stepwise T (call (R:=R) h ev).
Proof. apply stepwise_call. Qed.

Lemma stepwise_weaken {R A} (T0 : St → St → Prop) (m : M R A) :
  (∀ s s', T0 s s' → T s s') → stepwise T0 m → stepwise T m.
Proof. intros HT Hm s c s' H. eapply HT, Hm; eauto. Qed.

End Stepwise.

Section Emitted.
Context {ContainerOptions W : Type}.
Local Abbreviation St := (St ContainerOptions W).
Local Abbreviation Event := (Event ContainerOptions).

Lemma emitted_refl (P : Event → Prop) (s : St) : emitted P s s.
Proof. exists []. rewrite app_nil_r. auto. Qed.

Lemma emitted_trans (P : Event → Prop) (s1 s2 s3 : St) :
  emitted P s1 s2 → emitted P s2 s3 → emitted P s1 s3.
Proof.
  intros (e1 & H1 & F1) (e2 & H2 & F2). exists (e1 ++ e2).
  rewrite H2, H1, app_assoc. split; [done|]. apply Forall_app; auto.
Qed.

Lemma emitted_step (P : Event → Prop) (s : St) w e :
  P e → emitted P s (mkSt w (trace s ++ [e])).
Proof. intros He. exists [e]. auto. Qed.

Lemma emitted_impl (P Q : Event → Prop) (s s' : St) :
  (∀ e, P e → Q e) → emitted P s s' → emitted Q s s'.
Proof.
  intros HPQ (evs & H & F). exists evs. split; [done|].
  eapply Forall_impl; eauto.
Qed.

Lemma emitted_steps (P : Event → Prop) (s : St) w evs :
  Forall P evs → emitted P s (mkSt w (trace s ++ evs)).
Proof. intros He. exists evs. auto. Qed.

Lemma stepwise_emitted_impl {R A} (P Q : Event → Prop)
    (m : M ContainerOptions W R A) :
  (∀ e, P e → Q e) → stepwise (emitted P) m → stepwise (emitted Q) m.
Proof.
  intros HPQ. apply stepwise_weaken. intros s s'. apply emitted_impl, HPQ.
Qed.

Lemma emitted_logWithin (P : Event → Prop) :
  (∀ msg, P (EvLog msg)) → logWithin (W:=W) (emitted P).
Proof. intros HP s msg. apply emitted_step, HP. Qed.

Lemma emitted_callWithin {A} (P : Event → Prop) (h : W → Res A * W) ev :
  (∀ r, P (ev r)) → callWithin (emitted P) h ev.
Proof. intros HP s r w' _. apply emitted_step, HP. Qed.

Lemma emitted_scanWithin (P : Event → Prop) (C : Collaborators ContainerOptions W) :
  (∀ msg, P (EvLog msg)) → (∀ imageId r, P (EvScanImage imageId r)) →
  scanWithin (emitted P) C.
Proof.
  intros Hl Hs imageId lines s ps r w' _. apply emitted_steps.
  apply Forall_app. split.
  - apply Forall_map, Forall_true. intros msg. apply Hl.
  - repeat constructor. apply Hs.
Qed.

Lemma terminalWrites_nil : terminalWrites (@nil Event) = [].
Proof. reflexivity. Qed.

Lemma terminalWrites_cons (e : Event) l :
  terminalWrites (e :: l)
  = match terminalStatus e with Some st => [st] | None => [] end
    ++ terminalWrites l.
Proof. unfold terminalWrites. cbn. destruct (terminalStatus e); reflexivity. Qed.

Lemma terminalWrites_app (l1 l2 : list Event) :
  terminalWrites (l1 ++ l2) = terminalWrites l1 ++ terminalWrites l2.
Proof. apply omap_app. Qed.

Lemma terminalWrites_none (l : list Event) :
  Forall (λ e, terminalStatus e = None) l → terminalWrites l = [].
Proof.
  induction 1 as [|e l He _ IH]; [reflexivity|].
  rewrite terminalWrites_cons, He, IH. reflexivity.
Qed.

Lemma terminalWrites_scan (l : list Event) :
  Forall (λ e, isScanEvent e = true) l → terminalWrites l = [].
Proof.
  intros H. apply terminalWrites_none. eapply Forall_impl; [exact H|].
  intros e; destruct e; cbn; done.
Qed.

Lemma terminalWrites_recreate (l : list Event) :
  Forall (λ e, isRecreateEvent e = true) l → terminalWrites l = [].
Proof.
  intros H. apply terminalWrites_none. eapply Forall_impl; [exact H|].
  intros e; destruct e; cbn; done.
Qed.

End Emitted.

(** Walk a program and reduce "every step is within [T]" to its calls. *)
Ltac stepwise_walk_with stage refl trans :=
  repeat first
    [ stage
    | apply (stepwise_ret _ refl)
    | apply (stepwise_throw _ refl)
    | apply (stepwise_returnWith _ refl)
    | apply (stepwise_bind _ trans)
    | apply (stepwise_tryCatch _ trans)
    | apply (stepwise_asFunction _)
    | apply (stepwise_forOf _ refl trans)
    | apply stepwise_log; assumption
    | apply stepwise_callScanImage; assumption
    | apply stepwise_call'
    | apply stepwise_promiseAll2
    | progress unfold optLog, when, typeError, save, retag, removeTemp,
        writeStatus, notify
    | progress intros
    | match goal with
      | |- stepwise _ (if ?b then _ else _) => destruct b
      | |- stepwise _ (match ?x with _ => _ end) => destruct x
      | |- stepwise _ (let (_, _) := ?x in _) => destruct x
      end ].

Ltac stepwise_walk refl trans := stepwise_walk_with fail refl trans.

(** Counting the terminal writes of an explicit trace. *)
Ltac tw_facts :=
  repeat match goal with
         | H : Forall (λ e, isScanEvent e = true) _ |- _ =>
             apply terminalWrites_scan in H
         | H : Forall (λ e, isRecreateEvent e = true) _ |- _ =>
             apply terminalWrites_recreate in H
         end.

Ltac tw_simpl :=
  tw_facts; cbn [app trace world];
  repeat first [ rewrite terminalWrites_app
               | rewrite terminalWrites_cons
               | rewrite terminalWrites_nil ];
  repeat match goal with
         | H : terminalWrites ?x = [] |- _ => rewrite H
         end;
  cbn [terminalStatus status app length].

(** The side conditions of a stage summary, for "only emits events in [P]". *)
Ltac emitted_side :=
  first [ apply emitted_refl
        | apply emitted_trans
        | apply emitted_logWithin; intros; cbn; done
        | apply emitted_scanWithin; intros; cbn; done
        | intros; apply emitted_callWithin; intros; cbn; done ].

(** ** Container recreation *)

Section Recreate.
Context {ContainerOptions W : Type}.
Context (C : Collaborators ContainerOptions W) (U : Utils ContainerOptions).
Local Abbreviation St := (St ContainerOptions W).
Local Abbreviation M := (M ContainerOptions W).
Local Abbreviation Event := (Event ContainerOptions).

Lemma collectAdditionalNetworks_run {R} logger container options primary
    project service entries acc (s : St) (c : Completion R _) s' :
  collectAdditionalNetworks U logger container options primary project service
    entries acc s = (c, s') →
  (∃ nets, c = Normal nets) ∧ world s' = world s
  ∧ emitted (λ e, isLog e = true) s s'.
Proof.
  revert acc s. induction entries as [|[netName netConf] rest IH]; intros acc s H.
  - cbn in H. run_all. repeat split; eauto. solve_emitted.
  - cbn [collectAdditionalNetworks] in H.
    destruct (isPrimaryNetwork primary netName); [|by apply IH in H].
    run_all.
    all: match goal with H : collectAdditionalNetworks _ _ _ _ _ _ _ _ _ _ = _ |- _ =>
           apply IH in H; destruct H as (Hn & Hw & He) end.
    all: cbn in Hw; repeat split; try done; solve_emitted.
Qed.

Lemma reconnectNetworks_run {R} logger cid nets (s : St) (c : Completion R unit) s' :
  reconnectNetworks C logger cid nets s = (c, s') →
  c = Normal tt
  ∧ ∃ evs, trace s' = trace s ++ evs
      ∧ Forall (λ e, isLog e = true ∨ isConnect e = true) evs
      ∧ (logger = true → ∀ net cid' o msg,
           In (EvConnectContainerToNetwork net cid' o (Err msg)) evs →
           In (EvLog (connectWarning net msg)) evs).
Proof.
  revert s. induction nets as [|netInfo rest IH]; intros s H.
  - cbn in H. run_all. split; [done|]. exists []. rewrite app_nil_r.
    repeat split; [constructor | intros _ ? ? ? ? []].
  - unfold reconnectNetworks in H. cbn [forOf] in H.
    fold (reconnectNetworks (R:=R) C logger cid rest) in H.
    run_all.
    all: match goal with H : reconnectNetworks _ _ _ _ _ = _ |- _ =>
           apply IH in H; destruct H as (-> & evs & Ht & Hf & Hw) end.
    all: split; [done|]; cbn in Ht; rewrite Ht, <- ?app_assoc.
    all: eexists; split; [reflexivity|]; split; [solve_forall; auto|].
    all: intros Hl net cid' o msg' Hin; cbn in Hin |- *.
    all: repeat match goal with
                | H : _ ∨ _ |- _ => destruct H
                | H : In _ (_ :: _) |- _ => cbn in H
                end; simplify_eq; auto 10.
    all: right; right; eapply Hw; eauto.
Qed.

Ltac recreate_loops :=
  match goal with
  | H : collectAdditionalNetworks _ _ _ _ _ _ _ _ _ _ = _ |- _ =>
      apply collectAdditionalNetworks_run in H; destruct H as ((? & ?) & ? & ?)
  | H : reconnectNetworks _ _ _ _ _ = _ |- _ =>
      apply reconnectNetworks_run in H; destruct H as (? & ? & ? & ? & ?)
  end; run_settle.

(** Every way [recreateContainer] can run: it settles with a boolean, and
    the events it emitted tell which one. *)
Lemma recreateContainer_run {R} name logger (s : St) (c : Completion R bool) s' :
  recreateContainer C U name logger s = (c, s') →
  ∃ b evs, c = Normal b ∧ trace s' = trace s ++ evs
    ∧ (b = true ↔ (∃ opts cid, In (EvCreateContainer opts (Ok cid)) evs)
                   ∧ ∀ e, In e evs → isFatal e = false)
    ∧ ((∀ cs, In (EvListContainers (Ok cs)) evs → findContainer name cs = None)
       → b = false)
    ∧ (logger = true → ∀ net cid o msg,
         In (EvConnectContainerToNetwork net cid o (Err msg)) evs →
         In (EvLog (connectWarning net msg)) evs).
Proof.
  intros H. unfold recreateContainer in H.
  repeat (run_step || recreate_loops).
  all: open_emitted; rewrite_traces; rewrite <- ?app_assoc.
  all: eexists; eexists; split; [reflexivity|]; split; [reflexivity|].
  all: cbn [app].
  all: split; [split; [intros ?|intros [(opts & cid0 & Hin) Hnf]]|split].
  (* the result is true: a container was created and nothing fatal happened *)
  all: try discriminate; try reflexivity.
  all: try (split; [eexists _, _; in_solve|];
            intros e Hin; in_cases; subst; in_forall; try reflexivity;
            match goal with Hp : _ |- isFatal ?e = false => event_cases e end; fail).
  (* the result is false although a container was created: a call rejected *)
  all: try (exfalso; fatal_forall; in_cases; in_forall; simplify_eq;
            cbn in *; split_ors; congruence).
  (* the container was found *)
  all: try (intros Hnone; exfalso;
            match goal with
            | Hf : findContainer _ ?cs = Some _ |- _ =>
                rewrite (Hnone cs) in Hf; [discriminate | in_solve]
            end; fail).
  (* reconnection failures are logged *)
  all: try (intros Hl net cid1 o1 msg1 Hin'; in_cases; simplify_eq).
  all: try match goal with
           | Hw : true = true → _, Hi : In _ ?x |- _ =>
               specialize (Hw eq_refl _ _ _ _ Hi); in_solve
           end.
  all: try (in_forall; cbn in *; split_ors; discriminate).
Qed.

(** Where [recreateContainer] creates a container, it has already removed
    the old one, and a rejected creation ends the call. *)
Lemma recreateContainer_order {R} name logger (s : St) (c : Completion R bool) s' :
  recreateContainer C U name logger s = (c, s') →
  ∃ b evs, c = Normal b ∧ trace s' = trace s ++ evs
    ∧ ∀ opts r, In (EvCreateContainer opts r) evs →
        ∃ pre post cs old d wasRunning,
          evs = pre ++ EvCreateContainer opts r :: post
          ∧ In (EvListContainers (Ok cs)) pre
          ∧ findContainer name cs = Some old
          ∧ In (EvInspectContainer (id old) (Ok d)) pre
          ∧ State_Running d = Some wasRunning
          ∧ In (EvRemoveContainer (id old) true (Ok tt)) pre
          ∧ (wasRunning = true →
             before (EvStopContainer (id old) (Ok tt))
                    (EvRemoveContainer (id old) true (Ok tt)) pre)
          ∧ (∀ msg, r = Err msg →
             b = false ∧ Forall (λ e, isLog e = true) post).
Proof.
  intros H. unfold recreateContainer in H.
  repeat (run_step || recreate_loops).
  all: open_emitted; rewrite_traces; rewrite <- ?app_assoc.
  all: eexists; eexists; split; [reflexivity|]; split; [reflexivity|].
  all: cbn [app]; intros opts r Hin.
  all: repeat match goal with u : unit |- _ => destruct u end.
  all: match type of Hin with
       | In _ ?l =>
           first [ let p := split_at_create l in
                   lazymatch p with
                   | (?pre, ?post) =>
                       in_cases; in_forall; simplify_eq; cbn in *; split_ors;
                       try discriminate;
                       exists pre, post
                   end
                 | in_cases; in_forall; simplify_eq; cbn in *; split_ors;
                   discriminate ]
       end.
  all: eexists _, _, _, _.
  all: split; [list_eq|].
  all: split; [in_solve|].
  all: split; [eassumption|].
  all: split; [in_solve|].
  all: split; [eassumption|].
  all: split; [in_solve|].
  all: split; [intros Hrun; try discriminate|intros msg' Hr; simplify_eq].
  all: try (split; [reflexivity|solve_forall]; fail).
  all: match goal with
       | |- before _ _ ?l =>
           let p := split_at_stop l in
           lazymatch p with
           | (?l1, ?rest) =>
               let q := split_at_remove rest in
               lazymatch q with
               | (?l2, ?l3) => exists l1, l2, l3; list_eq
               end
           end
       end.
Qed.
End Recreate.

(** ** Container recreation, call by call *)

(** Two answers of the same call in the same world are the same answer. *)
Ltac same_call :=
  repeat first
    [ match goal with
      | H1 : ?t = (_, _), H2 : ?t = (_, _) |- _ =>
          rewrite H1 in H2; injection H2 as H2; simplify_eq
      | H : if true then _ else _ |- _ => cbn iota in H
      | H : if false then _ else _ |- _ => cbn iota in H
      end
    | progress simplify_eq ].

Section Forward.
Context {ContainerOptions W : Type}.
Context (C : Collaborators ContainerOptions W) (U : Utils ContainerOptions).
Local Abbreviation St := (St ContainerOptions W).
Local Abbreviation M := (M ContainerOptions W).
Local Abbreviation Event := (Event ContainerOptions).

Local Abbreviation secondary primary entries :=
  (List.filter (λ entry : string * EndpointSettings,
                  negb (isPrimaryNetwork primary entry.1)) entries).

Lemma collectAdditionalNetworks_value {R} logger container options primary
    project service entries acc (s : St) :
  ∃ s', collectAdditionalNetworks (R:=R) U logger container options primary
          project service entries acc s
        = (Normal (acc ++ map (λ entry, networkInfoOf container project service
                                          entry.1 entry.2)
                          (secondary primary entries)), s')
    ∧ world s' = world s.
Proof.
  revert acc s. induction entries as [|[netName netConf] rest IH]; intros acc s.
  - cbn. rewrite app_nil_r. eauto.
  - cbn [collectAdditionalNetworks List.filter fst snd].
    destruct (isPrimaryNetwork primary netName); cbn [negb].
    + unfold bind, when, optLog, log, emit, ret.
      repeat match goal with
             | |- context [if ?b then _ else _] => destruct b
             | |- context [match networkAliases U options with _ => _ end] =>
                 destruct (networkAliases U options) as [[|]|]
             end; cbn;
        match goal with
        | |- ∃ s', collectAdditionalNetworks _ _ _ _ _ _ _ _ _ ?s0 = _ ∧ _ =>
            destruct (IH acc s0) as (s' & -> & Hw); eauto
        end.
    + destruct (IH (acc ++ [networkInfoOf container project service netName
                              netConf]) s) as (s' & -> & Hw).
      cbn [map fst snd]. rewrite <- app_assoc. eauto.
Qed.

Lemma reconnectNetworks_connects {R} logger cid nets (s : St) :
  ∃ evs s', reconnectNetworks (R:=R) C logger cid nets s = (Normal tt, s')
    ∧ trace s' = trace s ++ evs
    ∧ omap connectTarget evs = map net_name nets.
Proof.
  revert s. induction nets as [|netInfo rest IH]; intros s.
  - exists [], s. cbn. by rewrite app_nil_r.
  - destruct (reconnectNetworks (R:=R) C logger cid (netInfo :: rest) s)
      as [c s'] eqn:H.
    unfold reconnectNetworks in H. cbn [forOf] in H.
    fold (reconnectNetworks (R:=R) C logger cid rest) in H.
    run_all.
    all: match goal with
         | H : reconnectNetworks _ _ _ _ ?s0 = _ |- _ =>
             destruct (IH s0) as (evs & s1 & E & Hevs & Hall);
             rewrite E in H; simplify_eq
         end.
    all: cbn [trace] in Hevs; rewrite <- ?app_assoc in Hevs.
    all: eexists _, _; split; [reflexivity|]; split; [exact Hevs|].
    all: cbn; by rewrite ?Hall.
Qed.

Lemma collectAdditionalNetworks_walk {R} logger container options primary
    project service entries acc (s : St) (c : Completion R _) s' :
  collectAdditionalNetworks U logger container options primary project service
    entries acc s = (c, s') →
  c = Normal (acc ++ map (λ entry, networkInfoOf container project service
                                     entry.1 entry.2)
                       (secondary primary entries))
  ∧ world s' = world s
  ∧ emitted (λ e, isLog e = true) s s'.
Proof.
  intros H.
  destruct (collectAdditionalNetworks_value (R:=R) logger container options
              primary project service entries acc s) as (s1 & E & _).
  pose proof (collectAdditionalNetworks_run _ _ _ _ _ _ _ _ _ _ _ _ H)
    as (_ & Hw & He).
  rewrite E in H. by simplify_eq.
Qed.

Lemma reconnectNetworks_walk {R} logger cid nets (s : St)
    (c : Completion R unit) s' :
  reconnectNetworks C logger cid nets s = (c, s') →
  c = Normal tt
  ∧ ∃ evs, trace s' = trace s ++ evs
      ∧ Forall (λ e, isLog e = true ∨ isConnect e = true) evs
      ∧ omap connectTarget evs = map net_name nets.
Proof.
  intros H.
  destruct (reconnectNetworks_connects (R:=R) logger cid nets s)
    as (evs & s1 & E & Hevs & Hall).
  pose proof (reconnectNetworks_run _ _ _ _ _ _ _ H)
    as (Hc & evs' & Hevs' & Hf & _).
  rewrite E in H. simplify_eq. split; [done|]. exists evs'.
  split; [done|]. split; [done|].
  rewrite Hevs in Hevs'. by apply app_inv_head in Hevs' as ->.
Qed.

Lemma omap_connectTarget_none (l : list Event) :
  Forall (λ e, isPullTagOrCreate e = false ∧ connectTarget e = None) l →
  omap connectTarget l = [].
Proof. induction 1 as [|e l [_ He] _ IH]; cbn; [done|]. by rewrite He. Qed.

Ltac recreate_walk :=
  match goal with
  | H : collectAdditionalNetworks _ _ _ _ _ _ _ _ _ _ = _ |- _ =>
      apply collectAdditionalNetworks_walk in H; destruct H as (? & ? & ?)
  | H : reconnectNetworks _ _ _ _ _ = _ |- _ =>
      apply reconnectNetworks_walk in H; destruct H as (? & ? & ? & ? & ?)
  end; run_settle.

(** What [recreateContainer] does, told from the answers of the calls it
    makes: without the container it stops at the listing; with it, the old
    container is stopped when it was running and removed by force, and only
    then the new one is created. A rejected creation ends the call with
    false, in the world that creation left; an accepted one is followed by
    one connection attempt for each network other than the primary one, and
    the result is true when the new container starts. *)
Lemma recreateContainer_forward {R} name logger (s : St)
    (c : Completion R bool) s' :
  recreateContainer C U name logger s = (c, s') →
  ∃ b evs, c = Normal b ∧ trace s' = trace s ++ evs
    ∧ (∀ cs w1,
         listContainers C (world s) = (Ok cs, w1) →
         findContainer name cs = None →
         b = false ∧ world s' = w1
         ∧ Forall (λ e, isLog e = true ∨ e = EvListContainers (Ok cs)) evs)
    ∧ (∀ cs w1 old d w2 wasRunning w3 w4 mode config r w5,
         listContainers C (world s) = (Ok cs, w1) →
         findContainer name cs = Some old →
         inspectContainer C (id old) w1 = (Ok d, w2) →
         State_Running d = Some wasRunning →
         (if wasRunning then stopContainer C (id old) w2 = (Ok tt, w3)
          else w3 = w2) →
         removeContainer C (id old) true w3 = (Ok tt, w4) →
         HostConfig_NetworkMode d = Some mode →
         Config d = Some config →
         createContainer C (extractContainerOptions U d) w4 = (r, w5) →
         ∃ pre post,
           evs = pre ++ EvCreateContainer (extractContainerOptions U d) r :: post
           ∧ Forall (λ e, isPullTagOrCreate e = false ∧ connectTarget e = None)
               pre
           ∧ In (EvRemoveContainer (id old) true (Ok tt)) pre
           ∧ (wasRunning = true →
              before (EvStopContainer (id old) (Ok tt))
                     (EvRemoveContainer (id old) true (Ok tt)) pre)
           ∧ match r with
             | Err msg =>
                 b = false ∧ world s' = w5 ∧ Forall (λ e, isLog e = true) post
             | Ok cid =>
                 omap connectTarget post
                 = map fst (secondary (orElse mode "bridge")
                              (default [] (NetworkSettings_Networks d)))
                 ∧ ((∀ w, ∃ w', start C cid w = (Ok tt, w')) → b = true)
             end).
Proof.
  intros H. unfold recreateContainer in H.
  repeat (run_step || recreate_walk).
  all: open_emitted; rewrite_traces; rewrite <- ?app_assoc.
  all: eexists; eexists; split; [reflexivity|]; split; [reflexivity|].
  all: cbn [app].
  all: split;
    [ intros cs w1 Hl Hf
    | intros cs w1 old d w2 wasRunning w3 w4 mode config r w5
        Hl Hf Hi Hr Hs Hrm Hm Hc Hcr ].
  all: same_call.
  all: try (split; [reflexivity|]; split; [reflexivity|]; solve_forall; auto; fail).
  all: match goal with
       | |- ∃ pre post, ?l = _ ∧ _ =>
           let p := split_at_create l in
           lazymatch p with (?pre, ?post) => exists pre, post end
       end.
  all: split; [list_eq|].
  all: split; [solve_forall|].
  all: split; [in_solve|].
  all: split; [intros Hrun; try discriminate|].
  all: try match goal with
           | |- before _ _ ?l =>
               let p := split_at_stop l in
               lazymatch p with
               | (?l1, ?rest) =>
                   let q := split_at_remove rest in
                   lazymatch q with
                   | (?l2, ?l3) => exists l1, l2, l3; list_eq
                   end
               end
           end.
  all: try (split; [reflexivity|]; split; [reflexivity|]; solve_forall; fail).
  all: split;
    [ rewrite ?omap_app;
      match goal with Hall : omap connectTarget _ = _ |- _ => rewrite Hall end;
      rewrite map_map; cbn; rewrite ?app_nil_r; reflexivity
    | intros Hstart; try reflexivity ].
  all: match goal with
       | Hs : start C ?cid ?w = (Err _, _) |- _ =>
           destruct (Hstart w) as [w' E]; rewrite E in Hs; discriminate Hs
       end.
Qed.

End Forward.

(** ** The calls each stage of a run makes *)

Section Stages.
Context {ContainerOptions W : Type}.
Context (C : Collaborators ContainerOptions W) (U : Utils ContainerOptions).
Local Abbreviation St := (St ContainerOptions W).
Local Abbreviation M := (M ContainerOptions W).
Local Abbreviation Event := (Event ContainerOptions).

Variable T : St → St → Prop.
Hypothesis T_refl : ∀ s, T s s.
Hypothesis T_trans : ∀ s1 s2 s3, T s1 s2 → T s2 s3 → T s1 s3.
Hypothesis T_log : logWithin T.

(** A scan only logs and calls the scanner and the scan history. *)
Lemma scanAndCheckBlock_stepwise {R} ctx :
  scanWithin T C →
  (∀ record, callWithin T (saveVulnerabilityScan C record)
               (EvSaveVulnerabilityScan record)) →
  (∀ imageId, callWithin T (getCombinedScanForImage C imageId)
                (EvGetCombinedScanForImage imageId)) →
  stepwise T (scanAndCheckBlock (R:=R) C U ctx).
Proof.
  intros Hscan Hsave Hget.
  unfold scanAndCheckBlock, saveScanResults, lookupCurrentSummary,
    saveCurrentScanResults, checkBlock.
  stepwise_walk T_refl T_trans; auto.
Qed.

Lemma collectAdditionalNetworks_stepwise {R} logger container options primary
    project service entries acc :
  stepwise T (collectAdditionalNetworks (W:=W) (R:=R) U logger container
                options primary project service entries acc).
Proof.
  revert acc. induction entries as [|[netName netConf] rest IH]; intros acc;
    cbn [collectAdditionalNetworks].
  - stepwise_walk T_refl T_trans.
  - destruct (isPrimaryNetwork primary netName); [|apply IH].
    stepwise_walk T_refl T_trans; apply IH.
Qed.

(** A recreation only logs and calls the runtime's container operations. *)
Lemma recreateContainer_stepwise {R} containerName logger :
  callWithin T (listContainers C) EvListContainers →
  (∀ cid, callWithin T (inspectContainer C cid) (EvInspectContainer cid)) →
  (∀ cid, callWithin T (stopContainer C cid) (EvStopContainer cid)) →
  (∀ cid force, callWithin T (removeContainer C cid force)
                  (EvRemoveContainer cid force)) →
  (∀ options, callWithin T (createContainer C options)
                (EvCreateContainer options)) →
  (∀ network cid o, callWithin T (connectContainerToNetwork C network cid o)
                      (EvConnectContainerToNetwork network cid o)) →
  (∀ cid, callWithin T (start C cid) (EvStart cid)) →
  stepwise T (recreateContainer (R:=R) C U containerName logger).
Proof.
  intros Hlist Hinspect Hstop Hremove Hcreate Hconnect Hstart.
  unfold recreateContainer, reconnectNetworks.
  stepwise_walk T_refl T_trans; auto using collectAdditionalNetworks_stepwise.
Qed.

End Stages.

Section StageEvents.
Context {ContainerOptions W : Type}.
Context (C : Collaborators ContainerOptions W) (U : Utils ContainerOptions).
Local Abbreviation St := (St ContainerOptions W).
Local Abbreviation Event := (Event ContainerOptions).

Lemma scanAndCheckBlock_emits {R} ctx :
  stepwise (emitted (λ e : Event, isScanEvent e = true))
    (scanAndCheckBlock (R:=R) C U ctx).
Proof.
  apply scanAndCheckBlock_stepwise; emitted_side.
Qed.

Lemma scanAndCheckBlock_completes {R} ctx (s : St) (c : Completion R _) s' :
  scanAndCheckBlock C U ctx s = (c, s') →
  (∃ outcome, c = Normal outcome) ∨ (∃ msg, c = Throw msg).
Proof.
  unfold scanAndCheckBlock. intros H.
  apply asFunction_inv in H as [(r & _ & ->) | (msg & _ & ->)]; eauto.
Qed.

Lemma recreateContainer_emits {R} containerName logger :
  stepwise (emitted (λ e : Event, isRecreateEvent e = true))
    (recreateContainer (R:=R) C U containerName logger).
Proof.
  apply recreateContainer_stepwise; emitted_side.
Qed.

Lemma recreateContainer_completes {R} containerName logger (s : St)
    (c : Completion R bool) s' :
  recreateContainer C U containerName logger s = (c, s') → ∃ b, c = Normal b.
Proof.
  intros H. apply recreateContainer_run in H as (b & _ & -> & _). eauto.
Qed.

End StageEvents.

(** Use the summaries of a scan and of a recreation during symbolic
    execution. *)
Ltac stage_step :=
  match goal with
  | H : scanAndCheckBlock _ _ _ _ = (_, _) |- _ =>
      let He := fresh "Hscan" in
      pose proof (scanAndCheckBlock_emits _ _ _ _ _ _ H) as He;
      apply scanAndCheckBlock_completes in H; destruct H as [[? ?] | [? ?]]
  | H : recreateContainer _ _ _ _ _ = (_, _) |- _ =>
      let He := fresh "Hrecreate" in
      pose proof (recreateContainer_emits _ _ _ _ _ _ _ H) as He;
      apply recreateContainer_completes in H; destruct H as [? ?]
  end; run_settle.

(** "This stage only emits events in [P]", for a stage of the run that may
    scan and recreate. *)
Ltac stage_emits_sub :=
  first
    [ apply (stepwise_emitted_impl (λ e, isScanEvent e = true));
      [ | apply scanAndCheckBlock_emits ];
      let e := fresh "e" in intros e; destruct e; cbn; done
    | apply (stepwise_emitted_impl (λ e, isRecreateEvent e = true));
      [ | apply recreateContainer_emits ];
      let e := fresh "e" in intros e; destruct e; cbn; done ].

Ltac stage_emits_with stage :=
  lazymatch goal with
  | |- @stepwise ?CO ?W _ _ (emitted ?P) _ =>
      let Hlog := fresh "Hlog" in
      assert (logWithin (W:=W) (emitted P)) as Hlog
        by (apply emitted_logWithin; intros; cbn; done);
      stepwise_walk_with ltac:(first [stage | stage_emits_sub])
        (@emitted_refl CO W P) (@emitted_trans CO W P);
      try (apply emitted_callWithin; intros; cbn; done);
      try (intros; apply emitted_steps; repeat constructor; cbn; done)
  end.

Ltac stage_emits := stage_emits_with fail.

(** ** Terminal writes of a run whose ledger and notifications work *)

(** Discard the paths on which a reliable collaborator rejected. *)
Ltac unreliable Hl Hn :=
  match goal with
  | H : updateScheduleExecution _ ?i ?u ?w = (Err _, _) |- _ =>
      let E := fresh in
      destruct (proj2 Hl i u w) as [? E]; rewrite E in H; discriminate
  | H : createScheduleExecution _ ?a ?b ?c ?d ?w = (Err _, _) |- _ =>
      let E := fresh in
      destruct (proj1 Hl a b c d w) as (? & ? & E); rewrite E in H; discriminate
  | H : sendEventNotification _ ?k ?n ?w = (Err _, _) |- _ =>
      let E := fresh in
      destruct (Hn k n w) as [? E]; rewrite E in H; discriminate
  end.

Ltac trace_goal :=
  open_emitted; rewrite_traces;
  eexists; split; [list_eq|].

Section Ledger.
Context {ContainerOptions W : Type}.
Context (C : Collaborators ContainerOptions W) (U : Utils ContainerOptions).
Local Abbreviation St := (St ContainerOptions W).
Local Abbreviation M := (M ContainerOptions W).
Local Abbreviation Event := (Event ContainerOptions).

Hypothesis Hledger : reliableLedger C.
Hypothesis Hnotify : reliableNotifications C.

Lemma safePull_writes executionId containerName image currentId criteria
    (s : St) c s' :
  safePull C U executionId containerName image currentId criteria s = (c, s') →
  ∃ evs, trace s' = trace s ++ evs
    ∧ match c with
      | Normal _ => terminalWrites evs = []
      | Return _ => length (terminalWrites evs) = 1%nat
      | Throw _ => False
      end.
Proof.
  intros H. unfold safePull in H.
  repeat (first [run_step | stage_step]; try unreliable Hledger Hnotify).
  all: trace_goal; tw_simpl; done.
Qed.

Lemma simplePull_writes executionId image (s : St) c s' :
  simplePull C executionId image s = (c, s') →
  ∃ evs, trace s' = trace s ++ evs
    ∧ match c with
      | Normal _ => terminalWrites evs = []
      | Return _ => length (terminalWrites evs) = 1%nat
      | Throw _ => False
      end.
Proof.
  intros H. unfold simplePull in H.
  repeat (first [run_step | stage_step]; try unreliable Hledger Hnotify).
  all: trace_goal; tw_simpl; done.
Qed.

Lemma composeFlow_writes {A} executionId containerName image currentId project
    service configFiles digest criteria shouldScan (s : St)
    (c : Completion unit A) s' :
  composeFlow C U executionId containerName image currentId project service
    configFiles digest criteria shouldScan s = (c, s') →
  ∃ evs, trace s' = trace s ++ evs
    ∧ c = Return tt ∧ length (terminalWrites evs) = 1%nat.
Proof.
  intros H. unfold composeFlow in H.
  repeat (first [run_step | stage_step]; try unreliable Hledger Hnotify).
  all: trace_goal; tw_simpl; done.
Qed.

Lemma recreateAndFinish_writes executionId containerName isStack digest
    criteria scanOutcome (s : St) c s' :
  recreateAndFinish C U executionId containerName isStack digest criteria
    scanOutcome s = (c, s') →
  ∃ evs, trace s' = trace s ++ evs
    ∧ match c with
      | Normal _ => length (terminalWrites evs) = 1%nat
      | Return _ => False
      | Throw _ => terminalWrites evs = []
      end.
Proof.
  intros H. unfold recreateAndFinish in H.
  repeat (first [run_step | stage_step]; try unreliable Hledger Hnotify).
  all: trace_goal; tw_simpl; done.
Qed.

Ltac ledger_stage :=
  match goal with
  | H : safePull _ _ _ _ _ _ _ _ = (_, _) |- _ =>
      apply safePull_writes in H; destruct H as (? & ? & ?)
  | H : simplePull _ _ _ _ = (_, _) |- _ =>
      apply simplePull_writes in H; destruct H as (? & ? & ?)
  | H : composeFlow _ _ _ _ _ _ _ _ _ _ _ _ _ = (_, _) |- _ =>
      apply composeFlow_writes in H; destruct H as (? & ? & ? & ?)
  | H : recreateAndFinish _ _ _ _ _ _ _ _ _ = (_, _) |- _ =>
      apply recreateAndFinish_writes in H; destruct H as (? & ? & ?)
  end;
  repeat match goal with
         | H : match ?c with Normal _ => _ | Return _ => _ | Throw _ => _ end
           |- _ => is_var c; destruct c
         end;
  run_settle; try done.

Lemma updateFromSnapshot_writes settingId executionId containerName image
    inspectData (s : St) c s' :
  updateFromSnapshot C U settingId executionId containerName image inspectData s
  = (c, s') →
  ∃ evs, trace s' = trace s ++ evs
    ∧ match c with
      | Throw _ => terminalWrites evs = []
      | _ => length (terminalWrites evs) = 1%nat
      end.
Proof.
  intros H. unfold updateFromSnapshot in H.
  repeat (first [run_step | ledger_stage]; try unreliable Hledger Hnotify).
  all: trace_goal; tw_simpl; done.
Qed.


Lemma tryUpdate_writes settingId executionId containerName (s : St) c s' :
  tryUpdate C U settingId executionId containerName s = (c, s') →
  ∃ evs, trace s' = trace s ++ evs
    ∧ match c with
      | Throw _ => terminalWrites evs = []
      | _ => length (terminalWrites evs) = 1%nat
      end.
Proof.
  intros H. unfold tryUpdate in H.
  repeat (first
            [ run_step
            | match goal with
              | H : updateFromSnapshot _ _ _ _ _ _ _ _ = (_, _) |- _ =>
                  apply updateFromSnapshot_writes in H; destruct H as (? & ? & ?)
              end ];
          try unreliable Hledger Hnotify).
  all: repeat match goal with
              | H : match ?c with Normal _ => _ | Return _ => _ | Throw _ => _ end
                |- _ => is_var c; destruct c
              end.
  all: trace_goal; tw_simpl; done.
Qed.

(** Every run returns, with one terminal write in its trace, and what its
    [try] block threw is recorded by the [catch] clause. *)
Lemma runContainerUpdate_reliable {R} settingId containerName triggeredBy (w : W) :
  ∃ executionId w0 c1 s1 s',
    let s0 := mkSt w0
      [EvCreateScheduleExecution settingId containerName triggeredBy running
         (Ok executionId);
       EvUpdateScheduleExecution executionId (mkUpdate true None None None)
         (Ok tt)] in
    tryUpdate C U settingId executionId containerName s0 = (c1, s1)
    ∧ runContainerUpdate (R:=R) C U settingId containerName triggeredBy
        (start_state w) = (Normal tt, s')
    ∧ length (terminalWrites (trace s')) = 1%nat
    ∧ match c1 with
      | Throw msg =>
          trace s' = trace s1 ++
            [EvLog ("Error: " +:+ msg);
             EvUpdateScheduleExecution executionId
               (mkUpdate false (Some failed) (Some msg) None) (Ok tt);
             EvSendEventNotification auto_update_failed
               (failedNotification containerName msg) (Ok tt)]
      | _ => s' = s1
      end.
Proof.
  destruct (proj1 Hledger settingId containerName triggeredBy running w)
    as (executionId & w1 & E1).
  destruct (proj2 Hledger executionId (mkUpdate true None None None) w1)
    as (w0 & E2).
  exists executionId, w0.
  destruct (tryUpdate C U settingId executionId containerName
              (mkSt w0
                 [EvCreateScheduleExecution settingId containerName triggeredBy
                    running (Ok executionId);
                  EvUpdateScheduleExecution executionId
                    (mkUpdate true None None None) (Ok tt)]))
    as [c1 s1] eqn:Htry.
  exists c1, s1. cbn zeta.
  pose proof (tryUpdate_writes _ _ _ _ _ _ Htry) as (evs & Ht & Hw).
  cbn [trace] in Ht.
  unfold runContainerUpdate, asFunction, bind, call, start_state.
  cbn [world trace]. rewrite E1. cbn [world trace app]. rewrite E2.
  cbn [world trace app]. unfold tryCatch. rewrite Htry.
  destruct c1 as [[]|[]|msg].
  - exists s1. repeat split. rewrite Ht. tw_simpl. done.
  - exists s1. repeat split. rewrite Ht. tw_simpl. done.
  - unfold onError, bind, log, emit, writeStatus, notify, call. cbn [world trace].
    destruct (proj2 Hledger executionId
                (mkUpdate false (Some failed) (Some msg) None) (world s1))
      as (w2 & ->).
    cbn [world trace].
    destruct (Hnotify auto_update_failed (failedNotification containerName msg) w2)
      as (w3 & ->).
    cbn [world trace]. eexists. repeat split.
    + rewrite Ht. tw_simpl. done.
    + cbn [trace]. rewrite <- !app_assoc. done.
Qed.

End Ledger.

(** ** Runs that skip *)

Section Skip.
Context {ContainerOptions W : Type}.
Context (C : Collaborators ContainerOptions W) (U : Utils ContainerOptions).
Local Abbreviation St := (St ContainerOptions W).
Local Abbreviation M := (M ContainerOptions W).
Local Abbreviation Event := (Event ContainerOptions).

Local Abbreviation noQuery := (λ e : Event, isRegistryQuery e = false).

Lemma composeFlow_no_query {A} executionId containerName image currentId
    project service configFiles digest criteria shouldScan :
  stepwise (emitted noQuery)
    (composeFlow (A:=A) C U executionId containerName image currentId project
       service configFiles digest criteria shouldScan).
Proof. unfold composeFlow. stage_emits. Qed.

Lemma safePull_no_query executionId containerName image currentId criteria :
  stepwise (emitted noQuery)
    (safePull C U executionId containerName image currentId criteria).
Proof. unfold safePull. stage_emits. Qed.

Lemma simplePull_no_query executionId image :
  stepwise (emitted noQuery) (simplePull C executionId image).
Proof. unfold simplePull. stage_emits. Qed.

Lemma recreateAndFinish_no_query executionId containerName isStack digest
    criteria scanOutcome :
  stepwise (emitted noQuery)
    (recreateAndFinish C U executionId containerName isStack digest criteria
       scanOutcome).
Proof. unfold recreateAndFinish. stage_emits. Qed.


Lemma updateFromSnapshot_grows settingId executionId containerName image
    inspectData :
  stepwise (emitted (λ _ : Event, True))
    (updateFromSnapshot C U settingId executionId containerName image
       inspectData).
Proof. unfold updateFromSnapshot, composeFlow, safePull, simplePull,
         recreateAndFinish. stage_emits. Qed.

Ltac skip_stage :=
  match goal with
  | H : composeFlow _ _ _ _ _ _ _ _ _ _ _ _ _ = (_, _) |- _ =>
      apply composeFlow_no_query in H
  | H : safePull _ _ _ _ _ _ _ _ = (_, _) |- _ =>
      apply safePull_no_query in H
  | H : simplePull _ _ _ _ = (_, _) |- _ =>
      apply simplePull_no_query in H
  | H : recreateAndFinish _ _ _ _ _ _ _ _ _ = (_, _) |- _ =>
      apply recreateAndFinish_no_query in H
  end.

Ltac run_whole :=
  repeat (first [ run_step | skip_stage
                | match goal with
                  | H : tryUpdate _ _ _ _ _ _ = _ |- _ => unfold tryUpdate in H
                  | H : updateFromSnapshot _ _ _ _ _ _ _ _ = _ |- _ =>
                      unfold updateFromSnapshot in H
                  | H : onError _ _ _ _ _ = _ |- _ => unfold onError in H
                  end ]).

Local Abbreviation noPull := (λ e : Event, isPullTagOrCreate e = false).

Lemma registryAnswer_app (l1 l2 : list Event) answer :
  registryAnswer l1 = Some answer → registryAnswer (l1 ++ l2) = Some answer.
Proof.
  induction l1 as [|e l1 IH]; [done|]. destruct e; cbn; auto.
Qed.

Lemma registryAnswer_tail (l1 l2 : list Event) answer :
  Forall noQuery l2 → registryAnswer (l1 ++ l2) = Some answer →
  registryAnswer l1 = Some answer.
Proof.
  intros Hq. induction l1 as [|e l1 IH].
  - cbn. induction Hq as [|e l2 He _ IH]; [done|].
    destruct e; cbn in *; auto. discriminate.
  - destruct e; cbn; auto.
Qed.

(** Symbolic execution up to the registry comparison. *)
Ltac run_to_check :=
  repeat first
    [ match goal with
      | H : (if isLocalImage _ then _ else _) _ = (_, _) |- _ => revert H
      end
    | run_step ].

(** The standalone flow from the snapshot on, when the registry has nothing
    newer. *)
Lemma updateFromSnapshot_up_to_date settingId executionId containerName image
    inspectData (s : St) c s' :
  updateFromSnapshot C U settingId executionId containerName image inspectData s
  = (c, s') →
  ∃ evs, trace s' = trace s ++ evs
    ∧ ∀ registryCheck,
        registryAnswer evs = Some registryCheck →
        hasUpdate registryCheck = false →
        isLocalImage registryCheck = false →
        truthy (check_error registryCheck) = false →
        Forall noPull evs
        ∧ (∃ r, In (EvUpdateScheduleExecution executionId
                      (skippedUpdate "Already up-to-date") r) evs
                ∧ match r with
                  | Ok _ => c = Return tt ∧ terminalWrites evs = [skipped]
                  | Err msg =>
                      c = Throw msg
                      ∧ ∃ w1 w2,
                          updateScheduleExecution C executionId
                            (skippedUpdate "Already up-to-date") w1
                          = (Err msg, w2)
                  end).
Proof.
  intros H. unfold updateFromSnapshot in H.
  run_to_check.
  all: try (cbn [trace]; rewrite <- ?app_assoc; eexists; split; [reflexivity|];
            intros registryCheck Hin; cbn [app registryAnswer] in Hin;
            discriminate Hin).
  all: intros Hrest.
  all: match type of Hrest with
       | ?m ?s1 = (_, _) =>
           assert (Hgrow : stepwise (emitted (λ _ : Event, True)) m)
             by (unfold composeFlow, safePull, simplePull, recreateAndFinish;
                 stage_emits);
           pose proof (Hgrow _ _ _ Hrest) as (evs & Hevs & _); clear Hgrow
       end.
  all: cbn [trace] in Hevs; rewrite Hevs, <- ?app_assoc.
  all: eexists; split; [reflexivity|].
  all: intros registryCheck Hin Hup Hlocal Herr.
  all: cbn [app registryAnswer] in Hin; simplify_eq.
  all: rewrite Hlocal, Herr, Hup in Hrest; cbn [negb] in Hrest.
  all: run_all.
  all: cbn [trace] in Hevs; rewrite <- ?app_assoc in Hevs; cbn [app] in Hevs.
  all: repeat match goal with
              | E : ?l ++ _ = ?l ++ _ |- _ => apply app_inv_head in E
              end; simplify_eq.
  all: (split; [cbn [app]; solve_forall|]); eexists; (split; [in_solve|]).
  all: split; [reflexivity|].
  all: first [tw_simpl; reflexivity | eauto].
Qed.

(** Deciding where a run stops when the registry has nothing newer. *)
Lemma runContainerUpdate_up_to_date {R} settingId containerName triggeredBy
    (w : W) (c : Completion R unit) s' registryCheck :
  runContainerUpdate C U settingId containerName triggeredBy (start_state w)
  = (c, s') →
  registryAnswer (trace s') = Some registryCheck →
  hasUpdate registryCheck = false →
  isLocalImage registryCheck = false →
  truthy (check_error registryCheck) = false →
  Forall (λ e, isPullTagOrCreate e = false) (trace s')
  ∧ (∃ executionId r,
        In (EvUpdateScheduleExecution executionId
              (skippedUpdate "Already up-to-date") r) (trace s'))
  ∧ (reliableLedger C → c = Normal tt ∧ terminalWrites (trace s') = [skipped]).
Proof.
  intros H Hin Hup Hlocal Herr.
  unfold runContainerUpdate, start_state in H.
  repeat (first [ run_step
                | match goal with
                  | H : tryUpdate _ _ _ _ _ _ = _ |- _ => unfold tryUpdate in H
                  | H : updateFromSnapshot _ _ _ _ _ _ _ _ = _ |- _ =>
                      apply updateFromSnapshot_up_to_date in H;
                      destruct H as (evs & Hevs & Hstage)
                  | H : onError _ _ _ _ _ = _ |- _ => unfold onError in H
                  end ]).
  all: cbn [trace] in *; rewrite_traces_in Hin; rewrite <- ?app_assoc in Hin;
    cbn [app registryAnswer] in Hin; try discriminate Hin.
  all: try (apply registryAnswer_tail in Hin; [|repeat constructor]).
  all: destruct (Hstage _ Hin Hup Hlocal Herr) as (Hquiet & r & Hwrite & Hr);
    clear Hstage.
  all: destruct r; destruct Hr as [Hc Hr]; simplify_eq.
  all: rewrite_traces; rewrite <- ?app_assoc; cbn [app].
  all: split; [solve_forall|split].
  all: try (eexists _, _; in_solve).
  all: try (destruct Hr as (w1 & w2 & Hr)).
  all: intros Hl;
    try match goal with
        | H : updateScheduleExecution _ ?i ?u ?w = (Err _, _) |- _ =>
            let E := fresh in
            destruct (proj2 Hl i u w) as [? E]; rewrite E in H; discriminate
        end.
  all: split; [reflexivity|].
  all: repeat first [ rewrite terminalWrites_cons | rewrite terminalWrites_app ];
    rewrite Hr; reflexivity.
Qed.


(** Deciding where a run stops when the image is pinned by digest. *)
Lemma runContainerUpdate_pinned {R} settingId containerName triggeredBy
    (w : W) (c : Completion R unit) s' inspectData image :
  runContainerUpdate C U settingId containerName triggeredBy (start_state w)
  = (c, s') →
  snapshot (trace s') = Some inspectData →
  Config inspectData ≫= Config_Image = Some image →
  image ≠ EmptyString →
  isDigestBasedImage U image = true →
  Forall (λ e, isRegistryQuery e = false) (trace s')
  ∧ (∃ executionId why r,
        In (EvUpdateScheduleExecution executionId (skippedUpdate why) r)
           (trace s'))
  ∧ (reliableLedger C → c = Normal tt ∧ terminalWrites (trace s') = [skipped]).
Proof.
  intros H Hsnap Himage Hne Hpinned.
  unfold runContainerUpdate, start_state in H.
  repeat (first [ run_step
                | match goal with
                  | H : tryUpdate _ _ _ _ _ _ = _ |- _ => unfold tryUpdate in H
                  | H : updateFromSnapshot _ _ _ _ _ _ _ _ = _ |- _ =>
                      apply updateFromSnapshot_grows in H
                  | H : onError _ _ _ _ _ = _ |- _ => unfold onError in H
                  end ]).
  all: open_emitted; rewrite_traces_in Hsnap; rewrite_traces;
    cbn [app snapshot] in Hsnap; simplify_eq.
  all: destruct (Config inspectData ≫= Config_Image) as [img|] eqn:Eimg;
    simplify_eq; cbn [default from_option] in *; unfold Datatypes.id in *.
  all: try congruence.
  all: try (exfalso; unfold truthy in *; case_decide; cbn in *; congruence).
  all: split; [cbn [app]; solve_forall|split].
  all: try (eexists _, _, _; unfold skippedUpdate; in_solve).
  all: intros Hl;
    try match goal with
        | H : updateScheduleExecution _ ?i ?u ?w = (Err _, _) |- _ =>
            let E := fresh in
            destruct (proj2 Hl i u w) as [? E]; rewrite E in H; discriminate
        end.
  all: split; [reflexivity|tw_simpl; reflexivity].
Qed.

End Skip.

(** ** The image store across a standalone update *)

Section Keeps.
Context {ContainerOptions W V : Type}.
Local Abbreviation St := (St ContainerOptions W).
Local Abbreviation Event := (Event ContainerOptions).
Variable view : W → V.

Lemma keeps_refl (s : St) : keeps view s s.
Proof. reflexivity. Qed.

Lemma keeps_trans (s1 s2 s3 : St) :
  keeps view s1 s2 → keeps view s2 s3 → keeps view s1 s3.
Proof. unfold keeps. congruence. Qed.

Lemma keeps_logWithin : logWithin (ContainerOptions:=ContainerOptions) (keeps view).
Proof. intros s msg. reflexivity. Qed.

Lemma keeps_callWithin {A} (h : W → Res A * W) (ev : Res A → Event) :
  callKeeps view h → callWithin (keeps view) h ev.
Proof. intros Hk s r w' Hh. unfold keeps. cbn. rewrite <- (Hk (world s)), Hh. done. Qed.

Lemma existsb_none {A} (f : A → bool) (l : list A) :
  Forall (λ x, f x = false) l → existsb f l = false.
Proof. induction 1 as [|x l Hx _ IH]; cbn; [done|]. by rewrite Hx, IH. Qed.

Lemma existsb_Forall_false {A} (f : A → bool) (P : A → Prop) (l : list A) :
  (∀ x, P x → f x = false) → Forall P l → existsb f l = false.
Proof.
  intros HP HF. apply existsb_none. eapply Forall_impl; [exact HF|]. exact HP.
Qed.

Lemma pulledIdentity_app (l1 l2 : list Event) imageId :
  pulledIdentity l1 = Some imageId → pulledIdentity (l1 ++ l2) = Some imageId.
Proof.
  induction l1 as [|e l1 IH]; [done|]. destruct e; cbn; auto.
Qed.

Lemma removalOf_app x (l1 l2 : list Event) r :
  removalOf x l1 = Some r → removalOf x (l1 ++ l2) = Some r.
Proof.
  induction l1 as [|e l1 IH]; [done|]. destruct e; cbn; auto.
  case_bool_decide; auto.
Qed.

Lemma removalOf_here x r (l : list Event) :
  removalOf x (EvRemoveTempImage x r :: l) = Some r.
Proof. cbn. by rewrite bool_decide_eq_true_2. Qed.

Lemma removalOf_quiet x (l1 l2 : list Event) :
  Forall (λ e, ∀ y, removalOf y [e] = None) l1 →
  removalOf x (l1 ++ l2) = removalOf x l2.
Proof.
  induction 1 as [|e l1 He _ IH]; [done|].
  destruct e; cbn; auto.
  specialize (He x). cbn in He. case_bool_decide; [discriminate|done].
Qed.

Local Abbreviation scanned := (λ e : Event, isScanEvent e = true).
Local Abbreviation recreated := (λ e : Event, isRecreateEvent e = true).

Lemma scan_no_removal l :
  Forall scanned l → Forall (λ e : Event, ∀ y, removalOf y [e] = None) l.
Proof.
  intros HF. eapply Forall_impl; [exact HF|]. intros e; destruct e; cbn; done.
Qed.

Lemma scan_not_blocked l : Forall scanned l → existsb isBlockedWrite l = false.
Proof. apply existsb_Forall_false. intros e; destruct e; cbn; done. Qed.

Lemma scan_not_success l : Forall scanned l → existsb isSuccessWrite l = false.
Proof. apply existsb_Forall_false. intros e; destruct e; cbn; done. Qed.

Lemma scan_not_pull l : Forall scanned l → existsb isManualPull l = false.
Proof. apply existsb_Forall_false. intros e; destruct e; cbn; done. Qed.

Lemma scan_not_tag l : Forall scanned l → existsb isTag l = false.
Proof. apply existsb_Forall_false. intros e; destruct e; cbn; done. Qed.

Lemma quiet_not_blocked (Q : Event → Prop) l :
  Forall (λ e, isBlockedWrite e = false ∧ Q e) l →
  existsb isBlockedWrite l = false.
Proof. apply existsb_Forall_false. intros e [He _]. exact He. Qed.

Lemma quiet_not_tag (Q : Event → Prop) l :
  Forall (λ e, isBlockedWrite e = false ∧ isTag e = false ∧ Q e) l →
  existsb isTag l = false.
Proof. apply existsb_Forall_false. intros e (_ & He & _). exact He. Qed.

Lemma quiet_not_tag' l :
  Forall (λ e : Event, isBlockedWrite e = false ∧ isTag e = false) l →
  existsb isTag l = false.
Proof. apply existsb_Forall_false. intros e (_ & He). exact He. Qed.

Lemma quiet_no_removal l :
  Forall (λ e : Event, isBlockedWrite e = false ∧ isTag e = false
                       ∧ ∀ y, removalOf y [e] = None) l →
  Forall (λ e : Event, ∀ y, removalOf y [e] = None) l.
Proof.
  intros HF. eapply Forall_impl; [exact HF|]. intros e (_ & _ & He). exact He.
Qed.

Lemma compose_not_pull l :
  Forall (λ e : Event, isManualPull e = false) l → existsb isManualPull l = false.
Proof. apply existsb_none. Qed.

End Keeps.

(** Evaluate a search in an explicit trace with summarised parts. *)
Ltac ex_part_in H x HF :=
  first [ rewrite (scan_not_blocked x HF) in H
        | rewrite (scan_not_success x HF) in H
        | rewrite (scan_not_pull x HF) in H
        | rewrite (scan_not_tag x HF) in H
        | rewrite (quiet_not_blocked _ x HF) in H
        | rewrite (quiet_not_tag _ x HF) in H
        | rewrite (quiet_not_tag' x HF) in H
        | rewrite (compose_not_pull x HF) in H ].

Ltac ex_simpl_in H :=
  repeat first
    [ rewrite existsb_app in H
    | progress cbn [existsb app] in H
    | match goal with
      | HF : Forall _ ?x |- _ => ex_part_in H x HF
      end ];
  cbn in H.

Ltac ex_part x HF :=
  first [ rewrite (scan_not_blocked x HF)
        | rewrite (scan_not_success x HF)
        | rewrite (scan_not_pull x HF)
        | rewrite (scan_not_tag x HF)
        | rewrite (quiet_not_blocked _ x HF)
        | rewrite (quiet_not_tag _ x HF)
        | rewrite (quiet_not_tag' x HF)
        | rewrite (compose_not_pull x HF) ].

Ltac ex_simpl :=
  repeat first
    [ rewrite existsb_app
    | progress cbn [existsb app]
    | match goal with
      | HF : Forall _ ?x |- _ => ex_part x HF
      end ];
  cbn.

(** Turn what is known of the calls into facts about [resolve]. *)
Ltac frame_facts :=
  lazymatch goal with
  | Hstore : TagStore ?C ?U ?resolve |- _ =>
  repeat match goal with
         | Hk : keeps resolve _ _ |- _ => unfold keeps in Hk; cbn [world] in Hk
         | H : updateScheduleExecution C ?i ?u ?w = (_, ?w') |- _ =>
             lazymatch goal with
             | _ : resolve w' = resolve w |- _ => fail
             | _ => let E := fresh "Hframe" in
                    pose proof (ledger_frame _ _ _ Hstore i u w) as E;
                    rewrite H in E; cbn [snd] in E
             end
         | H : sendEventNotification C ?k ?n ?w = (_, ?w') |- _ =>
             lazymatch goal with
             | _ : resolve w' = resolve w |- _ => fail
             | _ => let E := fresh "Hframe" in
                    pose proof (notification_frame _ _ _ Hstore k n w) as E;
                    rewrite H in E; cbn [snd] in E
             end
         end
  end.

Ltac pair_side Hpair :=
  first [ assumption | congruence
        | let E := fresh in intros E; apply Hpair; congruence
        | let E := fresh in intros E; symmetry in E; contradiction ].

(** How a search for the removal of [x] goes through a trace made of
    explicit events and summarised parts. *)
Ltac removal_simpl :=
  repeat first
    [ rewrite removalOf_here
    | match goal with
      | |- context [bool_decide (?a = ?a)] =>
          rewrite (bool_decide_eq_true_2 (a = a) eq_refl)
      end
    | progress cbn [app removalOf]
    | match goal with
      | HF : Forall _ ?x |- context [removalOf _ (?x ++ _)] =>
          first [ rewrite (removalOf_quiet _ x _ (scan_no_removal x HF))
                | rewrite (removalOf_quiet _ x _ (quiet_no_removal x HF))
                | rewrite (removalOf_quiet _ x _ HF) ]
      end ].

Ltac resolve_solve Hpair :=
  lazymatch goal with
  | Hstore : TagStore ?C ?U ?resolve |- ?resolve ?w' ?p = ?v =>
      first
        [ assumption
        | match goal with
          | H : tagImage C ?i ?r ?t ?w = (Ok tt, w') |- _ =>
              lazymatch p with (r, t) => exact (tag_binds _ _ _ Hstore i r t w w' H) end
          | H : tagImage C ?i ?r ?t ?w = (?res, w') |- _ =>
              rewrite (tag_frame _ _ _ Hstore i r t w res w' p H)
                by pair_side Hpair;
              resolve_solve Hpair
          | H : removeTempImage C (getTempImageTag U ?image) ?w = (Ok tt, w') |- _ =>
              lazymatch v with
              | None =>
                  first [ exact (remove_temp_unbinds _ _ _ Hstore image w w' H)
                        | rewrite <- (remove_temp_unbinds _ _ _ Hstore image w w' H);
                          f_equal; congruence ]
              end
          | H : removeTempImage C (getTempImageTag U ?image) ?w = (Err ?msg, w') |- _ =>
              rewrite (remove_rejected _ _ _ Hstore _ w msg w' H);
              resolve_solve Hpair
          | H : removeTempImage C (getTempImageTag U ?image) ?w = (?res, w') |- _ =>
              rewrite (remove_temp_frame _ _ _ Hstore image w res w' p H)
                by pair_side Hpair;
              resolve_solve Hpair
          | H : removeTempImage C ?x ?w = (?res, w'),
            Hid : getImageIdByTag C ?image ?w0 = (Ok (Some ?x), ?w0') |- _ =>
              lazymatch v with
              | Some ?imageId =>
                  apply (remove_reported _ _ _ Hstore image w0 w0' x Hid
                           w res w' p imageId H);
                  [ resolve_solve Hpair | pair_side Hpair ]
              end
          | E : resolve w' = resolve ?w |- _ =>
              rewrite E; resolve_solve Hpair
          end ]
  end.

Section Tags.
Context {ContainerOptions W : Type}.
Context (C : Collaborators ContainerOptions W) (U : Utils ContainerOptions).
Context (resolve : W → string * string → option string).
Context (Hstore : TagStore C U resolve).
Local Abbreviation St := (St ContainerOptions W).
Local Abbreviation M := (M ContainerOptions W).
Local Abbreviation Event := (Event ContainerOptions).

Lemma keeps_scanWithin : scanWithin (keeps resolve) C.
Proof.
  intros imageId lines s ps r w' Hh. unfold keeps. cbn.
  rewrite <- (scan_frame _ _ _ Hstore imageId (world s)), Hh. done.
Qed.

Ltac keeps_side :=
  first [ apply keeps_refl | apply keeps_trans | apply keeps_logWithin
        | apply keeps_scanWithin
        | intros; apply keeps_callWithin; apply Hstore ].

Lemma scanAndCheckBlock_keeps {R} ctx :
  stepwise (keeps resolve) (scanAndCheckBlock (R:=R) C U ctx).
Proof. apply scanAndCheckBlock_stepwise; keeps_side. Qed.

Lemma recreateContainer_keeps {R} containerName logger :
  stepwise (keeps resolve) (recreateContainer (R:=R) C U containerName logger).
Proof. apply recreateContainer_stepwise; keeps_side. Qed.

Lemma recreateAndFinish_keeps executionId containerName isStack digest criteria
    scanOutcome :
  stepwise (keeps resolve)
    (recreateAndFinish C U executionId containerName isStack digest criteria
       scanOutcome).
Proof.
  unfold recreateAndFinish.
  pose proof (keeps_logWithin (ContainerOptions:=ContainerOptions) resolve).
  stepwise_walk_with ltac:(apply recreateContainer_keeps)
    (keeps_refl (ContainerOptions:=ContainerOptions) resolve)
    (keeps_trans (ContainerOptions:=ContainerOptions) resolve);
  keeps_side.
Qed.

Lemma onError_keeps executionId containerName msg :
  stepwise (keeps resolve) (onError C executionId containerName msg).
Proof.
  unfold onError.
  pose proof (keeps_logWithin (ContainerOptions:=ContainerOptions) resolve).
  stepwise_walk
    (keeps_refl (ContainerOptions:=ContainerOptions) resolve)
    (keeps_trans (ContainerOptions:=ContainerOptions) resolve);
  keeps_side.
Qed.


Ltac tags_stage :=
  match goal with
  | H : scanAndCheckBlock _ _ _ _ = (_, _) |- _ =>
      let He := fresh "Hscan" in
      let Hk := fresh "Hkeep" in
      pose proof (scanAndCheckBlock_emits _ _ _ _ _ _ H) as He;
      pose proof (scanAndCheckBlock_keeps _ _ _ _ H) as Hk;
      apply scanAndCheckBlock_completes in H; destruct H as [[? ?] | [? ?]]
  end; run_settle.

Lemma safePull_tags executionId containerName image currentId criteria
    (s : St) c s' :
  safePull C U executionId containerName image currentId criteria s = (c, s') →
  ∃ evs, trace s' = trace s ++ evs
    ∧ existsb isSuccessWrite evs = false
    ∧ (existsb isBlockedWrite evs = true →
       (∀ newId, pulledIdentity evs = Some newId → newId ≠ currentId) →
       resolve (world s') (parseImageNameAndTag U image) = Some currentId
       ∧ ∀ o, c ≠ Normal o)
    ∧ (∀ o, c = Normal o →
       existsb isBlockedWrite evs = false
       ∧ ∃ newId r, pulledIdentity evs = Some newId
          ∧ removalOf (getTempImageTag U image) evs = Some r
          ∧ resolve (world s') (parseImageNameAndTag U image) = Some newId
          ∧ resolve (world s')
              (parseImageNameAndTag U (getTempImageTag U image))
            = match r with Ok _ => None | Err _ => Some newId end).
Proof.
  intros H. unfold safePull in H.
  pose proof (temp_pair _ _ _ Hstore image) as Hpair.
  repeat (first [run_step | tags_stage]).
  all: repeat match goal with u : unit |- _ => destruct u end.
  all: try match goal with
           | Ht : truthy ?o = true |- _ =>
               destruct o as [newId|]; [|discriminate Ht]; cbn [default from_option] in *;
               unfold Datatypes.id in *
           end.
  all: open_emitted; rewrite_traces; eexists; (split; [list_eq|]).
  all: split; [ex_simpl; reflexivity|].
  all: split; [intros Hb Hnew|intros o Ho; try discriminate].
  (* no blocked write on this path *)
  all: try (exfalso; ex_simpl_in Hb; discriminate).
  (* the blocked paths *)
  all: try (cbn [app pulledIdentity] in Hnew; specialize (Hnew _ eq_refl);
            frame_facts; split; [resolve_solve Hpair|discriminate]).
  (* the approved path *)
  all: split; [ex_simpl; reflexivity|].
  all: cbn [app pulledIdentity]; eexists; eexists; split; [reflexivity|].
  all: split; [removal_simpl; reflexivity|].
  all: frame_facts; split; resolve_solve Hpair.
Qed.

Lemma simplePull_quiet executionId image :
  stepwise (emitted (λ e : Event, isBlockedWrite e = false ∧ isTag e = false))
    (simplePull C executionId image).
Proof. unfold simplePull. stage_emits. Qed.

Lemma recreateAndFinish_quiet executionId containerName isStack digest criteria
    scanOutcome :
  stepwise (emitted (λ e : Event, isBlockedWrite e = false ∧ isTag e = false
                                  ∧ ∀ y, removalOf y [e] = None))
    (recreateAndFinish C U executionId containerName isStack digest criteria
       scanOutcome).
Proof. unfold recreateAndFinish. stage_emits. Qed.

Lemma composeFlow_no_pull {A} executionId containerName image currentId
    project service configFiles digest criteria shouldScan :
  stepwise (emitted (λ e : Event, isManualPull e = false))
    (composeFlow (A:=A) C U executionId containerName image currentId project
       service configFiles digest criteria shouldScan).
Proof. unfold composeFlow. stage_emits. Qed.

Lemma composeFlow_ends {A} executionId containerName image currentId
    project service configFiles digest criteria shouldScan (s : St)
    (c : Completion unit A) s' :
  composeFlow C U executionId containerName image currentId project service
    configFiles digest criteria shouldScan s = (c, s') →
  ∀ a, c ≠ Normal a.
Proof.
  intros H. unfold composeFlow in H.
  repeat (first [run_step | stage_step]).
  all: done.
Qed.

End Tags.

(** ** Where the original tag points after a standalone update *)

Section Promote.
Context {ContainerOptions W : Type}.
Context (C : Collaborators ContainerOptions W) (U : Utils ContainerOptions).
Context (resolve : W → string * string → option string).
Context (Hstore : TagStore C U resolve).
Local Abbreviation St := (St ContainerOptions W).
Local Abbreviation M := (M ContainerOptions W).
Local Abbreviation Event := (Event ContainerOptions).

Ltac promote_stage :=
  match goal with
  | H : composeFlow _ _ _ _ _ _ _ _ _ _ _ _ _ = (_, _) |- _ =>
      let Hn := fresh "Hends" in
      pose proof (composeFlow_ends _ _ _ _ _ _ _ _ _ _ _ _ _ _ _ H) as Hn;
      apply composeFlow_no_pull in H
  | H : safePull _ _ _ _ _ _ _ _ = (_, _) |- _ =>
      apply (safePull_tags C U resolve Hstore) in H;
      destruct H as (? & ? & ? & Hblk & Happ)
  | H : simplePull _ _ _ _ = (_, _) |- _ =>
      apply simplePull_quiet in H
  | H : recreateAndFinish _ _ _ _ _ _ _ _ _ = (_, _) |- _ =>
      let Hk := fresh "Hkeep" in
      pose proof (recreateAndFinish_keeps C U resolve Hstore _ _ _ _ _ _ _ _ _ H) as Hk;
      apply recreateAndFinish_quiet in H
  end.

Ltac rewrite_frames :=
  frame_facts;
  repeat match goal with
         | E : resolve ?w' = resolve ?w |- context [resolve ?w'] => rewrite E
         end.

(** The standalone flow from the snapshot on: where the tags point when it
    blocked, and when it succeeded. *)
Lemma updateFromSnapshot_tags settingId executionId containerName image
    inspectData (s : St) c s' :
  updateFromSnapshot C U settingId executionId containerName image inspectData s
  = (c, s') →
  ∃ evs, trace s' = trace s ++ evs
    ∧ (existsb isManualPull evs = true →
       (existsb isBlockedWrite evs = true →
        (∀ newId, pulledIdentity evs = Some newId → newId ≠ Image inspectData) →
        resolve (world s') (parseImageNameAndTag U image)
        = Some (Image inspectData))
       ∧ (existsb isSuccessWrite evs = true →
          existsb isTag evs = true →
          ∃ newId r, pulledIdentity evs = Some newId
            ∧ removalOf (getTempImageTag U image) evs = Some r
            ∧ resolve (world s') (parseImageNameAndTag U image) = Some newId
            ∧ resolve (world s')
                (parseImageNameAndTag U (getTempImageTag U image))
              = match r with Ok _ => None | Err _ => Some newId end)).
Proof.
  intros H. unfold updateFromSnapshot in H.
  repeat (first [ run_step | promote_stage ]).
  all: open_emitted; rewrite_traces; eexists; (split; [list_eq|]).
  all: intros Hpull.
  all: try (exfalso; ex_simpl_in Hpull; discriminate).
  all: try (exfalso; eapply Hends; reflexivity).
  all: split; [intros Hb Hnew | intros Hsucc Htag].
  (* a blocked run *)
  all: try (ex_simpl_in Hb; rewrite ?orb_false_r in Hb;
            first
              [ discriminate Hb
              | match type of Hb with
                | existsb _ ?x = true =>
                    assert (∀ newId, pulledIdentity x = Some newId →
                              newId ≠ Image inspectData) as Hnew'
                      by (intros n Hn; apply Hnew;
                          cbn [app trace pulledIdentity];
                          first [exact Hn | apply pulledIdentity_app; exact Hn])
                end;
                destruct (Hblk Hb Hnew') as [Hres Hnn];
                first [ exfalso; eapply Hnn; reflexivity
                      | rewrite_frames; exact Hres ] ]).
  (* a successful run *)
  all: try (ex_simpl_in Htag; ex_simpl_in Hsucc;
            repeat match goal with
                   | Hf : existsb ?f ?x = false |- _ =>
                       rewrite Hf in Hsucc; cbn in Hsucc
                   end;
            first
              [ discriminate Htag | discriminate Hsucc
              | destruct (Happ _ eq_refl) as (Hnb & newId & r & Hp & Hrm & Ho & Hr);
                exists newId, r; split;
                [ cbn [app trace pulledIdentity];
                  first [exact Hp | apply pulledIdentity_app; exact Hp]
                | split;
                  [ cbn [app trace removalOf];
                    first [exact Hrm | apply removalOf_app; exact Hrm]
                  | rewrite_frames; auto ] ] ]).
Qed.

(** The same for a whole run: where the original tag points after a run
    that pulled by hand, when it blocked and when it succeeded. *)
Lemma runContainerUpdate_tags {R} settingId containerName triggeredBy (w : W)
    (c : Completion R unit) s' inspectData image :
  runContainerUpdate C U settingId containerName triggeredBy (start_state w)
  = (c, s') →
  snapshot (trace s') = Some inspectData →
  Config inspectData ≫= Config_Image = Some image →
  existsb isManualPull (trace s') = true →
  (existsb isBlockedWrite (trace s') = true →
   (∀ newId, pulledIdentity (trace s') = Some newId → newId ≠ Image inspectData) →
   resolve (world s') (parseImageNameAndTag U image) = Some (Image inspectData))
  ∧ (existsb isSuccessWrite (trace s') = true →
     existsb isTag (trace s') = true →
     ∃ newId r, pulledIdentity (trace s') = Some newId
       ∧ removalOf (getTempImageTag U image) (trace s') = Some r
       ∧ resolve (world s') (parseImageNameAndTag U image) = Some newId
       ∧ resolve (world s')
           (parseImageNameAndTag U (getTempImageTag U image))
         = match r with Ok _ => None | Err _ => Some newId end).
Proof.
  intros H Hsnap Himage Hpull.
  unfold runContainerUpdate, start_state in H.
  repeat (first [ run_step
                | match goal with
                  | H : tryUpdate _ _ _ _ _ _ = _ |- _ => unfold tryUpdate in H
                  | H : updateFromSnapshot _ _ _ _ _ _ _ _ = _ |- _ =>
                      apply updateFromSnapshot_tags in H;
                      destruct H as (evs & Hevs & Hstage)
                  | H : onError _ _ _ _ _ = _ |- _ => unfold onError in H
                  end ]).
  all: cbn [trace] in *; rewrite_traces_in Hpull; rewrite_traces_in Hsnap;
    cbn [app snapshot] in Hsnap; simplify_eq.
  all: ex_simpl_in Hpull; rewrite ?orb_false_r in Hpull; try discriminate Hpull.
  all: destruct (Config inspectData ≫= Config_Image) as [img|] eqn:Eimg;
    simplify_eq; cbn [default from_option] in *; unfold Datatypes.id in *.
  all: destruct (Hstage Hpull) as [Hblk Hok]; clear Hstage.
  all: split; [intros Hb Hnew | intros Hsucc Htag].
  all: cbn [trace world] in *.
  all: try (rewrite_traces_in Hb; ex_simpl_in Hb; rewrite ?orb_false_r in Hb).
  all: try (rewrite_traces_in Hsucc; ex_simpl_in Hsucc;
            rewrite ?orb_false_r in Hsucc;
            rewrite_traces_in Htag; ex_simpl_in Htag;
            rewrite ?orb_false_r in Htag).
  all: try discriminate.
  all: try (rewrite_frames; apply Hblk; [exact Hb|];
            intros newId Hid; apply Hnew; rewrite_traces;
            rewrite <- ?app_assoc; cbn [app pulledIdentity];
            try apply pulledIdentity_app; exact Hid).
  all: try (destruct (Hok Hsucc Htag) as (newId & r & Hid & Hrm & Horig & Htemp);
            exists newId, r; split;
            [ rewrite_traces; rewrite <- ?app_assoc; cbn [app pulledIdentity];
              try apply pulledIdentity_app; exact Hid
            | split;
              [ rewrite_traces; rewrite <- ?app_assoc; cbn [app removalOf];
                try apply removalOf_app; exact Hrm
              | rewrite_frames; auto ] ]).
Qed.

End Promote.

(** ** The gate and the scan history *)

Section Gate.
Context {ContainerOptions W V : Type}.
Local Abbreviation St := (St ContainerOptions W).
Local Abbreviation Event := (Event ContainerOptions).
Variable view : W → V.

Local Abbreviation otherImage p :=
  (λ e : Event, ∀ record msg,
     e = EvSaveVulnerabilityScan record (Err msg) → rec_imageId record ≠ p).

Lemma savesLoggedFor_other p (l rest : list Event) :
  Forall (otherImage p) l →
  savesLoggedFor p (l ++ rest) = savesLoggedFor p rest.
Proof.
  induction 1 as [|e l He _ IH]; [done|].
  destruct e; cbn; auto.
  match goal with r : Res unit |- _ => destruct r end; cbn; auto.
  rewrite bool_decide_eq_false_2 by (eapply He; done). cbn. auto.
Qed.

Lemma savesLoggedFor_logs p (lines : list string) (rest : list Event) :
  savesLoggedFor p (map EvLog lines ++ rest) = savesLoggedFor p rest.
Proof.
  apply savesLoggedFor_other, Forall_map, Forall_true. intros line ? ? [=].
Qed.

(** Lines 133-155: the loop over the new image's results settles normally
    whatever the saves do, and logs every rejected save. *)
Lemma saveScanResults_run (C : Collaborators ContainerOptions W) {R} imageId
    results (s : St) (c : Completion R unit) s' :
  saveScanResults C imageId results s = (c, s') →
  c = Normal tt
  ∧ ∃ evs, trace s' = trace s ++ evs
      ∧ (∀ p rest, savesLoggedFor p (evs ++ rest) = savesLoggedFor p rest)
      ∧ (results ≠ [] → existsb isSave evs = true)
      ∧ (savesKeep view C imageId → view (world s') = view (world s)).
Proof.
  revert s. induction results as [|result results IH]; intros s H.
  - cbn in H. run_all. split; [done|]. exists []. rewrite app_nil_r. done.
  - unfold saveScanResults in H. cbn [forOf] in H.
    fold (saveScanResults (R:=R) C imageId results) in H.
    run_all.
    all: match goal with
         | H : saveScanResults _ _ _ _ = _ |- _ =>
             apply IH in H as (-> & evs & Hevs & Hlogged & _ & Hkeep)
         end.
    all: split; [done|]; cbn [trace world] in *; rewrite Hevs, <- ?app_assoc.
    all: eexists; split; [reflexivity|].
    all: split; [|split; [done|]].
    all: try (intros p rest; cbn [app savesLoggedFor]; apply Hlogged).
    all: try (intros p rest; cbn [app savesLoggedFor]; rewrite ?Hlogged;
              unfold saveWarning;
              rewrite (bool_decide_eq_true_2 (_ +:+ msg = _ +:+ msg)) by done;
              destruct (bool_decide _); reflexivity).
    all: intros Hsave; rewrite (Hkeep Hsave);
      match goal with
      | H : saveVulnerabilityScan _ ?r ?w = (_, ?w') |- view ?w' = _ =>
          pose proof (Hsave result w) as E; rewrite H in E; exact E
      end.
Qed.

(** Lines 176-195: the loop over the current image's results settles
    normally whatever the saves do, and only saves. *)
Lemma saveCurrentScanResults_run (C : Collaborators ContainerOptions W) {R}
    imageId results (s : St) (c : Completion R unit) s' :
  saveCurrentScanResults C imageId results s = (c, s') →
  c = Normal tt
  ∧ ∃ evs, trace s' = trace s ++ evs
      ∧ Forall (λ e, ∃ result r,
                  e = EvSaveVulnerabilityScan (scanRecordOf imageId result) r) evs.
Proof.
  revert s. induction results as [|result results IH]; intros s H.
  - cbn in H. run_all. split; [done|]. exists []. rewrite app_nil_r. done.
  - unfold saveCurrentScanResults in H. cbn [forOf] in H.
    fold (saveCurrentScanResults (R:=R) C imageId results) in H.
    run_all.
    all: match goal with
         | H : saveCurrentScanResults _ _ _ _ = _ |- _ =>
             apply IH in H as (-> & evs & Hevs & Hall)
         end.
    all: split; [done|]; cbn [trace world] in *; rewrite Hevs, <- ?app_assoc.
    all: eexists; split; [reflexivity|].
    all: cbn [app]; constructor; eauto.
Qed.

Lemma existsb_isSave_logs (lines : list string) :
  existsb isSave (map (EvLog (ContainerOptions:=ContainerOptions)) lines) = false.
Proof. induction lines; cbn; auto. Qed.

End Gate.

Ltac gate_loops v :=
  match goal with
  | H : saveScanResults _ _ _ _ = (_, _) |- _ =>
      apply (saveScanResults_run v) in H
  | H : saveCurrentScanResults _ _ _ _ = (_, _) |- _ =>
      apply saveCurrentScanResults_run in H
  end; run_settle.

Section Advisory.
Context {ContainerOptions W V : Type}.
Local Abbreviation St := (St ContainerOptions W).
Local Abbreviation Event := (Event ContainerOptions).
Variable view : W → V.

(** One scan of a new image: the rejected saves of the new image's records
    are logged, and when the scan throws no save was attempted. *)
Lemma scanAndCheckBlock_saves (C : Collaborators ContainerOptions W)
    (U : Utils ContainerOptions) {R} ctx
    (s : St) (c : Completion R ScanOutcome) s' :
  scanAndCheckBlock C U ctx s = (c, s') →
  ∃ evs, trace s' = trace s ++ evs
    ∧ (vulnerabilityCriteria ctx ≠ "more_than_current"
       ∨ newImageId ctx ≠ currentImageId ctx →
       savesLoggedFor (newImageId ctx) evs = true)
    ∧ (∀ msg, c = Throw msg → existsb isSave evs = false).
Proof.
  intros H. unfold scanAndCheckBlock, lookupCurrentSummary, checkBlock in H.
  repeat (first [run_step | gate_loops view]).
  all: cbn [trace world] in *; rewrite_traces; rewrite <- ?app_assoc.
  all: repeat match goal with
         | Hb : bool_decide _ = true |- _ => apply bool_decide_eq_true_1 in Hb
         end.
  all: eexists; split; [reflexivity|].
  all: split; [intros Hids|intros msg' [=]].
  all: try (cbn [app existsb isSave orb]; rewrite existsb_app, existsb_isSave_logs;
            reflexivity).
  all: repeat first
         [ progress cbn [app savesLoggedFor]
         | rewrite savesLoggedFor_logs
         | match goal with
           | Hl : ∀ p rest, savesLoggedFor p (?x ++ rest) = _
             |- context [savesLoggedFor _ (?x ++ _)] => rewrite Hl
           | Hc : Forall _ ?x |- context [savesLoggedFor _ (?x ++ _)] =>
               rewrite (savesLoggedFor_other _ x);
               [ | eapply Forall_impl; [exact Hc|];
                   intros e (result & r & ->) record msg0 [= ? ?]; subst; cbn;
                   destruct Hids; congruence ]
           end ].
  all: try reflexivity.
Qed.

Variables C C' : Collaborators ContainerOptions W.
Variable U : Utils ContainerOptions.
Hypothesis Hscans : sameScans view C C'.

Lemma sameScans_step imageId w w' ps r w1 ps' r' w1' :
  view w = view w' →
  scanImage C imageId w = (ps, r, w1) →
  scanImage C' imageId w' = (ps', r', w1') →
  ps = ps' ∧ r = r' ∧ view w1 = view w1'.
Proof.
  intros Hv H H'. destruct (Hscans imageId w w' Hv) as [E1 E2].
  rewrite H, H' in E1, E2. cbn in E1, E2. by simplify_eq.
Qed.

Lemma sameCache_step imageId w w' r w1 r' w1' :
  sameCache view C C' imageId →
  view w = view w' →
  getCombinedScanForImage C imageId w = (r, w1) →
  getCombinedScanForImage C' imageId w' = (r', w1') →
  r = r' ∧ view w1 = view w1'.
Proof.
  intros Hc Hv H H'. destruct (Hc w w' Hv) as [E1 E2].
  rewrite H, H' in E1, E2. cbn in E1, E2. by simplify_eq.
Qed.

Ltac same_answers :=
  repeat match goal with
         | Hcache : sameCache _ _ _ _,
           H1 : getCombinedScanForImage C _ ?w = _,
           H2 : getCombinedScanForImage C' _ ?w' = _ |- _ =>
             let Hv := fresh "Hv" in
             assert (view w = view w') as Hv by congruence;
             destruct (sameCache_step _ _ _ _ _ _ _ Hcache Hv H1 H2) as [? ?];
             clear H1 H2; simplify_eq
         | H1 : scanImage C _ ?w = _, H2 : scanImage C' _ ?w' = _ |- _ =>
             let Hv := fresh "Hv" in
             assert (view w = view w') as Hv by congruence;
             destruct (sameScans_step _ _ _ _ _ _ _ _ _ Hv H1 H2) as (? & ? & ?);
             clear H1 H2; simplify_eq
         end.

(** The cache lookup for the current image settles alike in both
    environments. *)
Lemma lookupCurrentSummary_same {R} ctx (s s' : St)
    (c c' : Completion R (option VulnerabilitySeverity)) t t' :
  sameCache view C C' (currentImageId ctx) →
  view (world s) = view (world s') →
  lookupCurrentSummary C U ctx s = (c, t) →
  lookupCurrentSummary C' U ctx s' = (c', t') →
  c = c'.
Proof.
  intros Hcache Hv H H'. unfold lookupCurrentSummary in H, H'.
  repeat (first [run_step | gate_loops view]).
  all: same_answers.
  all: reflexivity.
Qed.

(** A scan settles alike in two environments whose scanner and cache answer
    alike, whatever their saves of the new image's records do. *)
Lemma scanAndCheckBlock_same {R} ctx (s s' : St)
    (c c' : Completion R ScanOutcome) t t' :
  sameCache view C C' (currentImageId ctx) →
  savesKeep view C (newImageId ctx) →
  savesKeep view C' (newImageId ctx) →
  view (world s) = view (world s') →
  scanAndCheckBlock C U ctx s = (c, t) →
  scanAndCheckBlock C' U ctx s' = (c', t') →
  c = c'.
Proof.
  intros Hcache Hsave Hsave' Hv H H'.
  unfold scanAndCheckBlock, checkBlock in H, H'.
  repeat (first [run_step | gate_loops view]).
  all: repeat match goal with
         | Hk : savesKeep view ?C0 ?i → _, Hs : savesKeep view ?C0 ?i |- _ =>
             specialize (Hk Hs)
         end.
  all: same_answers.
  all: try reflexivity.
  all: try match goal with
         | H1 : lookupCurrentSummary C _ _ ?s1 = _,
           H2 : lookupCurrentSummary C' _ _ ?s2 = _ |- _ =>
             let Hv' := fresh "Hv" in
             assert (view (world s1) = view (world s2)) as Hv'
               by (cbn [world]; congruence);
             pose proof (lookupCurrentSummary_same _ _ _ _ _ _ _ Hcache Hv' H1 H2);
             simplify_eq
         end.
  all: congruence.
Qed.

End Advisory.

(** ** The reference environment meets the assumptions *)

Section ReferenceFacts.
Import Reference.

Lemma rejectWhen_world {A} f msg (a : A) w : snd (rejectWhen f msg a w) = w.
Proof. unfold rejectWhen. by destruct (fails f w). Qed.

Lemma showIdentity_read x i : readIdentity x = Some i → showIdentity i = x.
Proof.
  unfold readIdentity. repeat case_bool_decide; intros [= <-]; by subst.
Qed.

Lemma readIdentity_show i : readIdentity (showIdentity i) = Some i.
Proof. by destruct i. Qed.

(** A string without a colon is its own repository part. *)
Lemma splitLastColon_whole s r : splitLastColon s = (r, None) → r = s.
Proof.
  revert r. induction s as [|c s IH]; intros r; cbn; [by intros [= <-]|].
  destruct (splitLastColon s) as [repo [tag|]]; [done|].
  destruct (Ascii.eqb c _); [done|]. intros [= <-]. by rewrite (IH repo).
Qed.

Lemma splitLastColon_tag s r t :
  splitLastColon s = (r, Some t) → splitLastColon t = (t, None).
Proof.
  revert r. induction s as [|c s IH]; intros r; cbn; [done|].
  destruct (splitLastColon s) as [repo [tag|]] eqn:E.
  - intros [= _ <-]. by apply (IH repo).
  - destruct (Ascii.eqb c _); [|done]. intros [= _ <-].
    by rewrite <- (splitLastColon_whole _ _ E) at 2.
Qed.

Lemma splitLastColon_app t u :
  splitLastColon t = (t, None) → splitLastColon u = (u, None) →
  splitLastColon (t +:+ u) = (t +:+ u, None).
Proof.
  induction t as [|c t IH]; cbn; [done|].
  destruct (splitLastColon t) as [repo [tag|]] eqn:E; [done|].
  destruct (Ascii.eqb c _) eqn:Ec; [done|]. intros [= ->] Hu.
  change (String c t +:+ u) with (String c (t +:+ u)).
  cbn [splitLastColon]. rewrite (IH eq_refl Hu). by rewrite Ec.
Qed.

Lemma splitLastColon_join r t :
  splitLastColon t = (t, None) →
  splitLastColon (r +:+ ":" +:+ t) = (r, Some t).
Proof.
  intros Ht. induction r as [|c r IH].
  - change (splitLastColon (String (Ascii.ascii_of_nat 58) t) = (EmptyString, Some t)).
    cbn [splitLastColon]. by rewrite Ht.
  - change (String c r +:+ ":" +:+ t) with (String c (r +:+ ":" +:+ t)).
    cbn [splitLastColon]. by rewrite IH.
Qed.

Lemma parseImageNameAndTag_tag image repo tag :
  parseImageNameAndTag image = (repo, tag) → splitLastColon tag = (tag, None).
Proof.
  unfold parseImageNameAndTag.
  destruct (splitLastColon image) as [r [t|]] eqn:E; intros [= <- <-]; cbn.
  - by apply (splitLastColon_tag _ _ _ E).
  - reflexivity.
Qed.

Lemma string_length_app (t u : string) :
  String.length (t +:+ u) = (String.length t + String.length u)%nat.
Proof. induction t as [|c t IH]; simpl; [done|]. by rewrite IH. Qed.

Lemma append_longer (t u : string) : (0 < String.length u)%nat → t +:+ u ≠ t.
Proof.
  intros Hu E. apply (f_equal String.length) in E.
  rewrite string_length_app in E. lia.
Qed.

(** The temporary reference made from [image] splits into the repository of
    [image] and its tag with the suffix. *)
Lemma getTempImageTag_split image :
  splitLastColon (getTempImageTag image)
  = ((parseImageNameAndTag image).1,
     Some ((parseImageNameAndTag image).2 +:+ "-dockhand-pending")).
Proof.
  unfold getTempImageTag.
  destruct (parseImageNameAndTag image) as [repo tag] eqn:E. cbn [fst snd].
  apply splitLastColon_join, splitLastColon_app; [|reflexivity].
  by apply (parseImageNameAndTag_tag _ _ _ E).
Qed.

Lemma getTempImageTag_pair image :
  parseImageNameAndTag (getTempImageTag image) ≠ parseImageNameAndTag image.
Proof.
  unfold parseImageNameAndTag at 1. rewrite getTempImageTag_split.
  destruct (parseImageNameAndTag image) as [repo tag]. cbn.
  intros [= E]. by apply append_longer in E; [|cbn; lia].
Qed.

Lemma getTempImageTag_reference image : readIdentity (getTempImageTag image) = None.
Proof.
  pose proof (getTempImageTag_split image) as E.
  unfold readIdentity. repeat case_bool_decide; [| |done].
  all: match goal with H : getTempImageTag _ = _ |- _ => rewrite H in E end.
  all: cbn in E; injection E as _ E; apply (f_equal String.length) in E.
  all: rewrite string_length_app in E; cbn in E; lia.
Qed.

Lemma reference_tagStore : TagStore collaborators utils resolve.
Proof.
  split; unfold callKeeps; cbn.
  - intros imageId repo tag w w' H.
    destruct (readIdentity imageId) as [i|] eqn:E; [|discriminate].
    injection H as <-. unfold resolve. cbn.
    by rewrite lookup_insert_eq, <- (showIdentity_read _ _ E).
  - intros imageId repo tag w r w' pair H Hne.
    destruct (readIdentity imageId) as [i|]; injection H as _ <-; [|done].
    unfold resolve. cbn. by rewrite lookup_insert_ne.
  - apply getTempImageTag_pair.
  - intros image w0 w0' x [= Hx _] w r w' pair imageId H Hpair Hne.
    apply fmap_Some in Hx as (i & _ & ->). rewrite readIdentity_show in H.
    injection H as _ <-. unfold resolve in *. cbn.
    apply fmap_Some in Hpair as (j & Hj & ->). apply fmap_Some. exists j.
    split; [|done]. apply map_lookup_filter_Some. split; [done|]. cbn. congruence.
  - intros image w r w' pair H Hne. rewrite getTempImageTag_reference in H.
    destruct (fails TagRemovalFails w); injection H as _ <-; [done|].
    unfold resolve. cbn. by rewrite lookup_delete_ne.
  - intros image w w' H. rewrite getTempImageTag_reference in H.
    destruct (fails TagRemovalFails w); [discriminate|]. injection H as <-.
    unfold resolve. cbn. by rewrite lookup_delete_eq.
  - intros x w msg w' H.
    destruct (readIdentity x); [discriminate|].
    destruct (fails TagRemovalFails w); [|discriminate]. by injection H as _ <-.
  - done.
  - intros record w. by destruct (fails SavesFail w).
  - done.
  - done.
  - intros kind n w. by rewrite rejectWhen_world.
  - done.
  - intros w. by rewrite rejectWhen_world.
  - done.
  - done.
  - done.
  - intros options w. by destruct (fails CreateFails w).
  - intros network cid o w. by rewrite rejectWhen_world.
  - done.
Qed.

Lemma steady_reliableLedger : reliableLedger steady.
Proof. split; cbn; unfold ok; eauto. Qed.

Lemma steady_reliableNotifications : reliableNotifications steady.
Proof. intros kind n w. cbn. unfold ok. eauto. Qed.

Lemma reference_reliableLedger : reliableLedger collaborators.
Proof. split; cbn; unfold ok; eauto. Qed.

Lemma reference_sameScans imageId :
  sameScans (historyView imageId) collaborators collaborators.
Proof. intros i w w' [= Hf Hh]. cbn. unfold historyView. by rewrite Hf, Hh. Qed.

Lemma reference_sameCache imageId :
  sameCache (historyView imageId) collaborators collaborators imageId.
Proof. intros w w' [= Hf Hh]. cbn. unfold historyView. by rewrite Hf, Hh. Qed.

Lemma combinedFor_other imageId h record :
  rec_imageId record ≠ imageId →
  combinedFor imageId (h ++ [record]) = combinedFor imageId h.
Proof.
  intros Hne. unfold combinedFor. rewrite List.filter_app. cbn.
  rewrite bool_decide_eq_false_2 by done. by rewrite app_nil_r.
Qed.

Lemma reference_savesKeep current new :
  new ≠ current → savesKeep (historyView current) collaborators new.
Proof.
  intros Hne result w. cbn. destruct (fails SavesFail w); [done|].
  cbn. unfold historyView. cbn. by rewrite combinedFor_other.
Qed.

End ReferenceFacts.

(** ** The properties of the update task *)

Section Properties.
Context {ContainerOptions W : Type}.
Context (C : Collaborators ContainerOptions W) (U : Utils ContainerOptions).
Local Abbreviation St := (St ContainerOptions W).
Local Abbreviation Event := (Event ContainerOptions).

(** Claim C1, as amended: a run that pulled the image by hand on the
    standalone safety-tagging path and wrote the blocked outcome leaves the
    original repository:tag pair resolving to the identity the container was
    running before the run, provided the pulled image has another identity
    than that one. The local image store is assumed to behave as [TagStore]
    says. *)
Theorem blocked_run_keeps_original_tag {R} resolve settingId containerName
    triggeredBy (w : W) (c : Completion R unit) s' inspectData image :
  TagStore C U resolve →
  runContainerUpdate C U settingId containerName triggeredBy (start_state w)
  = (c, s') →
  snapshot (trace s') = Some inspectData →
  Config inspectData ≫= Config_Image = Some image →
  existsb isManualPull (trace s') = true →
  existsb isBlockedWrite (trace s') = true →
  (∀ newId, pulledIdentity (trace s') = Some newId → newId ≠ Image inspectData) →
  resolve (world s') (parseImageNameAndTag U image) = Some (Image inspectData).
Proof.
  intros Hstore Hrun Hsnap Himage Hpull Hblocked Hnew.
  destruct (runContainerUpdate_tags C U resolve Hstore _ _ _ _ _ _ _ _
              Hrun Hsnap Himage Hpull) as [Hb _].
  auto.
Qed.

(** Claim C2, as amended: a run on the standalone safety-tagging path that
    wrote the success outcome has asked for the removal of the temporary
    tag, and it leaves the original repository:tag pair resolving to the
    identity of the pulled image; the temporary pair is unbound when that
    removal went through, and still resolves to the pulled image when it
    was rejected. *)
Theorem approved_run_promotes_tag {R} resolve settingId containerName
    triggeredBy (w : W) (c : Completion R unit) s' inspectData image :
  TagStore C U resolve →
  runContainerUpdate C U settingId containerName triggeredBy (start_state w)
  = (c, s') →
  snapshot (trace s') = Some inspectData →
  Config inspectData ≫= Config_Image = Some image →
  existsb isManualPull (trace s') = true →
  existsb isTag (trace s') = true →
  existsb isSuccessWrite (trace s') = true →
  ∃ newId r, pulledIdentity (trace s') = Some newId
    ∧ removalOf (getTempImageTag U image) (trace s') = Some r
    ∧ resolve (world s') (parseImageNameAndTag U image) = Some newId
    ∧ resolve (world s') (parseImageNameAndTag U (getTempImageTag U image))
      = match r with Ok _ => None | Err _ => Some newId end.
Proof.
  intros Hstore Hrun Hsnap Himage Hpull Htag Hsuccess.
  destruct (runContainerUpdate_tags C U resolve Hstore _ _ _ _ _ _ _ _
              Hrun Hsnap Himage Hpull) as [_ Hs].
  auto.
Qed.



(** Claim C6: when the registry comparison reports no newer image, no error
    and not a local image, the run issues no pull, tag or create call and
    writes the skipped outcome; with a ledger that does not reject, it
    returns with skipped as its one terminal status. *)
Theorem up_to_date_run_is_skipped {R} settingId containerName triggeredBy
    (w : W) (c : Completion R unit) s' registryCheck :
  runContainerUpdate C U settingId containerName triggeredBy (start_state w)
  = (c, s') →
  registryAnswer (trace s') = Some registryCheck →
  hasUpdate registryCheck = false →
  isLocalImage registryCheck = false →
  truthy (check_error registryCheck) = false →
  Forall (λ e, isPullTagOrCreate e = false) (trace s')
  ∧ (∃ executionId r,
        In (EvUpdateScheduleExecution executionId
              (skippedUpdate "Already up-to-date") r) (trace s'))
  ∧ (reliableLedger C → c = Normal tt ∧ terminalWrites (trace s') = [skipped]).
Proof. apply runContainerUpdate_up_to_date. Qed.

(** Claim C7: when the container's image reference is pinned by digest, the
    run makes no registry query and writes the skipped outcome; with a
    ledger that does not reject, it returns with skipped as its one terminal
    status. *)
Theorem pinned_run_is_skipped {R} settingId containerName triggeredBy
    (w : W) (c : Completion R unit) s' inspectData image :
  runContainerUpdate C U settingId containerName triggeredBy (start_state w)
  = (c, s') →
  snapshot (trace s') = Some inspectData →
  Config inspectData ≫= Config_Image = Some image →
  image ≠ EmptyString →
  isDigestBasedImage U image = true →
  Forall (λ e, isRegistryQuery e = false) (trace s')
  ∧ (∃ executionId why r,
        In (EvUpdateScheduleExecution executionId (skippedUpdate why) r)
           (trace s'))
  ∧ (reliableLedger C → c = Normal tt ∧ terminalWrites (trace s') = [skipped]).
Proof. apply runContainerUpdate_pinned. Qed.

(** Claim C8: [recreateContainer] always settles with a boolean and never
    throws. Told from the answers of the calls: without the container the
    result is false; with it, once the old container is removed, a rejected
    creation gives false, and an accepted one is followed by one connection
    attempt for each network other than the primary one and gives true when
    the new container starts, whatever the connections answer. Told from
    the trace: a rejected call other than a reconnection gives false, the
    result is true exactly when a container was created and no such call
    was rejected, and a rejected reconnection is logged as a warning. *)
Theorem recreateContainer_boolean {R} name logger (s : St)
    (c : Completion R bool) s' :
  recreateContainer C U name logger s = (c, s') →
  ∃ b evs, c = Normal b ∧ trace s' = trace s ++ evs
    ∧ (∀ cs w1,
         listContainers C (world s) = (Ok cs, w1) →
         findContainer name cs = None → b = false)
    ∧ (∀ cs w1 old d w2 wasRunning w3 w4 mode config r w5,
         listContainers C (world s) = (Ok cs, w1) →
         findContainer name cs = Some old →
         inspectContainer C (id old) w1 = (Ok d, w2) →
         State_Running d = Some wasRunning →
         (if wasRunning then stopContainer C (id old) w2 = (Ok tt, w3)
          else w3 = w2) →
         removeContainer C (id old) true w3 = (Ok tt, w4) →
         HostConfig_NetworkMode d = Some mode →
         Config d = Some config →
         createContainer C (extractContainerOptions U d) w4 = (r, w5) →
         match r with
         | Err msg => b = false
         | Ok cid =>
             omap connectTarget evs
             = map fst
                 (List.filter
                    (λ entry : string * EndpointSettings,
                       negb (isPrimaryNetwork (orElse mode "bridge") entry.1))
                    (default [] (NetworkSettings_Networks d)))
             ∧ ((∀ w, ∃ w', start C cid w = (Ok tt, w')) → b = true)
         end)
    ∧ (∀ opts msg, In (EvCreateContainer opts (Err msg)) evs → b = false)
    ∧ (b = true ↔ (∃ opts cid, In (EvCreateContainer opts (Ok cid)) evs)
                   ∧ ∀ e, In e evs → isFatal e = false)
    ∧ (logger = true → ∀ net cid o msg,
         In (EvConnectContainerToNetwork net cid o (Err msg)) evs →
         In (EvLog (connectWarning net msg)) evs).
Proof.
  intros H.
  pose proof (recreateContainer_forward C U _ _ _ _ _ H)
    as (b' & evs' & Hc' & Hevs' & Hmissing & Hfound).
  apply recreateContainer_run in H as (b & evs & Hc & Hevs & Htrue & _ & Hwarn).
  assert (b' = b) as -> by congruence.
  assert (evs' = evs) as ->
    by (rewrite Hevs in Hevs'; by apply app_inv_head in Hevs').
  exists b, evs.
  split; [exact Hc|]. split; [exact Hevs|].
  split; [intros cs w1 Hl Hf; by destruct (Hmissing cs w1 Hl Hf)|].
  split.
  { intros cs w1 old d w2 wasRunning w3 w4 mode config r w5
      Hl Hf Hi Hr Hs Hrm Hm Hcfg Hcr.
    destruct (Hfound _ _ _ _ _ _ _ _ _ _ _ _ Hl Hf Hi Hr Hs Hrm Hm Hcfg Hcr)
      as (pre & post & -> & Hpre & _ & _ & Hend).
    destruct r as [cid|msg]; [|by destruct Hend].
    destruct Hend as [Hconn Hstart]. split; [|exact Hstart].
    rewrite omap_app, (omap_connectTarget_none _ Hpre). exact Hconn. }
  split; [|split; [exact Htrue|exact Hwarn]].
  intros opts msg Hin. destruct b; [|done].
  destruct Htrue as [Htrue _]. destruct (Htrue eq_refl) as [_ Hnf].
  apply Hnf in Hin. discriminate.
Qed.

(** Claim C9: recreation is not atomic. Whenever [recreateContainer] calls
    [createContainer], it has already listed and inspected the old
    container and force-removed it, after stopping it if it was running.
    And for a container that is found, stopped when it was running and
    removed, the creation is attempted next, after the removal; when it is
    rejected the result is false, the world is the one the rejected
    creation left of the world without the old container, and nothing but
    log lines follows: the old container is not restored. *)
Theorem recreateContainer_not_atomic {R} name logger (s : St)
    (c : Completion R bool) s' :
  recreateContainer C U name logger s = (c, s') →
  ∃ b evs, c = Normal b ∧ trace s' = trace s ++ evs
    ∧ (∀ opts r, In (EvCreateContainer opts r) evs →
        ∃ pre post cs old d wasRunning,
          evs = pre ++ EvCreateContainer opts r :: post
          ∧ In (EvListContainers (Ok cs)) pre
          ∧ findContainer name cs = Some old
          ∧ In (EvInspectContainer (id old) (Ok d)) pre
          ∧ State_Running d = Some wasRunning
          ∧ In (EvRemoveContainer (id old) true (Ok tt)) pre
          ∧ (wasRunning = true →
             before (EvStopContainer (id old) (Ok tt))
                    (EvRemoveContainer (id old) true (Ok tt)) pre)
          ∧ (∀ msg, r = Err msg →
             b = false ∧ Forall (λ e, isLog e = true) post))
    ∧ (∀ cs w1 old d w2 wasRunning w3 w4 mode config r w5,
         listContainers C (world s) = (Ok cs, w1) →
         findContainer name cs = Some old →
         inspectContainer C (id old) w1 = (Ok d, w2) →
         State_Running d = Some wasRunning →
         (if wasRunning then stopContainer C (id old) w2 = (Ok tt, w3)
          else w3 = w2) →
         removeContainer C (id old) true w3 = (Ok tt, w4) →
         HostConfig_NetworkMode d = Some mode →
         Config d = Some config →
         createContainer C (extractContainerOptions U d) w4 = (r, w5) →
         ∃ pre post,
           evs = pre ++ EvCreateContainer (extractContainerOptions U d) r :: post
           ∧ Forall (λ e, isPullTagOrCreate e = false ∧ connectTarget e = None)
               pre
           ∧ In (EvRemoveContainer (id old) true (Ok tt)) pre
           ∧ (wasRunning = true →
              before (EvStopContainer (id old) (Ok tt))
                     (EvRemoveContainer (id old) true (Ok tt)) pre)
           ∧ (∀ msg, r = Err msg →
              b = false ∧ world s' = w5
              ∧ Forall (λ e, isLog e = true) post)).
Proof.
  intros H.
  pose proof (recreateContainer_forward C U _ _ _ _ _ H)
    as (b' & evs' & Hc' & Hevs' & _ & Hfound).
  apply recreateContainer_order in H as (b & evs & Hc & Hevs & Horder).
  assert (b' = b) as -> by congruence.
  assert (evs' = evs) as ->
    by (rewrite Hevs in Hevs'; by apply app_inv_head in Hevs').
  exists b, evs.
  split; [exact Hc|]. split; [exact Hevs|]. split; [exact Horder|].
  intros cs w1 old d w2 wasRunning w3 w4 mode config r w5
    Hl Hf Hi Hr Hs Hrm Hm Hcfg Hcr.
  destruct (Hfound _ _ _ _ _ _ _ _ _ _ _ _ Hl Hf Hi Hr Hs Hrm Hm Hcfg Hcr)
    as (pre & post & Hsplit & Hpre & Hin & Hstop & Hend).
  exists pre, post.
  split; [exact Hsplit|]. split; [exact Hpre|]. split; [exact Hin|].
  split; [exact Hstop|].
  intros msg ->. exact Hend.
Qed.

(** Claim C10, as amended: a rejected save of a scan record never makes the
    scan throw; a rejected save of a record of the new image is logged as a
    warning (one of a record of the current image is ignored silently); and
    the outcome of the scan, verdict included, is the same in any
    environment whose scanner and cache lookup answer alike, whatever the
    saves do there, provided the saves of the new image's records do not
    change what the scanner and the lookup for the current image see. *)
Theorem scan_history_is_advisory {R V} (view : W → V)
    (C' : Collaborators ContainerOptions W) ctx (s s' : St)
    (c c' : Completion R ScanOutcome) t t' :
  sameScans view C C' →
  sameCache view C C' (currentImageId ctx) →
  savesKeep view C (newImageId ctx) →
  savesKeep view C' (newImageId ctx) →
  view (world s) = view (world s') →
  scanAndCheckBlock C U ctx s = (c, t) →
  scanAndCheckBlock C' U ctx s' = (c', t') →
  c = c'
  ∧ ∃ evs, trace t = trace s ++ evs
      ∧ (∀ msg, c = Throw msg → existsb isSave evs = false)
      ∧ (vulnerabilityCriteria ctx ≠ "more_than_current"
         ∨ newImageId ctx ≠ currentImageId ctx →
         savesLoggedFor (newImageId ctx) evs = true).
Proof.
  intros Hscans Hcache Hsave Hsave' Hview H H'. split.
  - eapply (scanAndCheckBlock_same view C C' U); eauto.
  - pose proof (scanAndCheckBlock_saves view C U ctx s c t H)
      as (evs & Hevs & Hlogged & Hthrow).
    exists evs. auto.
Qed.

End Properties.

(** ** The properties on runs in the reference environment *)

Section Runs.

(** The scanner finds two critical vulnerabilities and the policy blocks on
    critical ones. *)
Local Abbreviation wBlocked :=
  (Reference.world "app:latest" "grype" (Some "critical") true
     [Reference.scanReport 2] []).

(** The same, and the pull fetches the very image the container runs. *)
Local Abbreviation wSameImage :=
  (Reference.withRegistryImage wBlocked Reference.Running).

(** The scan passes. *)
Local Abbreviation wApproved :=
  (Reference.world "app:latest" "grype" (Some "critical") true
     [Reference.scanReport 0] []).

(** The scan passes and the runtime refuses to remove tags. *)
Local Abbreviation wStuck :=
  (Reference.world "app:latest" "grype" (Some "critical") true
     [Reference.scanReport 0] [Reference.TagRemovalFails]).

(** Scanning is off and the notification sink rejects. *)
Local Abbreviation wMute :=
  (Reference.world "app:latest" "none" None true [] [Reference.NotificationsFail]).

(** The runtime cannot list its containers. *)
Local Abbreviation wDown :=
  (Reference.world "app:latest" "none" None true [] [Reference.ListFails]).

(** The registry has nothing newer. *)
Local Abbreviation wSame :=
  (Reference.world "app:latest" "none" None false [] []).

(** The container's image is pinned by digest. *)
Local Abbreviation wPinned :=
  (Reference.world "app@sha256:abc" "none" None true [] []).

(** The runtime refuses to reconnect networks. *)
Local Abbreviation wLoose :=
  (Reference.world "app:latest" "none" None true [] [Reference.ConnectFails]).

(** The runtime refuses to create containers. *)
Local Abbreviation wFull :=
  (Reference.world "app:latest" "none" None true [] [Reference.CreateFails]).

(** The scan history rejects every save, or none. *)
Local Abbreviation wLocked :=
  (Reference.world "app:latest" "grype" (Some "more_than_current") true
     [Reference.scanReport 2] [Reference.SavesFail]).
Local Abbreviation wOpen :=
  (Reference.world "app:latest" "grype" (Some "more_than_current") true
     [Reference.scanReport 2] []).

(** The history holds one earlier scan of the running image, with one
    finding. *)
Local Abbreviation earlier :=
  (mkScanRecord "sha:aaa" "app:latest" "grype" "2024-12-01T00:00:00Z" 1
     (mkSeverity 0 0 1 0 0 0) [] None).

(** A scan whose new image is the running image. *)
Local Abbreviation rescan :=
  (mkScanContext "sha:aaa" "sha:aaa" "more_than_current").

(** Claim C1 as stated fails: when the pull fetches the image the container
    runs, the blocked image is removed by its identity and the original
    pair, bound before the run, resolves to nothing after it. *)
Lemma blocked_removal_unbinds_original_tag :
  Reference.resolve wSameImage
    (parseImageNameAndTag Reference.utils "app:latest")
  = Some (Image (Reference.webInspection "app:latest"))
  ∧ (Reference.run wSameImage).1 = Normal tt
  ∧ terminalWrites (trace (Reference.run wSameImage).2) = [skipped]
  ∧ existsb isManualPull (trace (Reference.run wSameImage).2) = true
  ∧ existsb isBlockedWrite (trace (Reference.run wSameImage).2) = true
  ∧ Reference.resolve (world (Reference.run wSameImage).2)
      (parseImageNameAndTag Reference.utils "app:latest")
    = None.
Proof. vm_compute. repeat split. Qed.

Lemma blocked_run_keeps_original_tag_witness :
  Reference.resolve (world (Reference.run wBlocked).2)
    (parseImageNameAndTag Reference.utils "app:latest")
  = Some (Image (Reference.webInspection "app:latest")).
Proof.
  apply (blocked_run_keeps_original_tag Reference.collaborators Reference.utils
           Reference.resolve 7 "web-1" scheduled wBlocked
           (Reference.run wBlocked).1 (Reference.run wBlocked).2
           (Reference.webInspection "app:latest") "app:latest").
  - exact reference_tagStore.
  - apply surjective_pairing.
  - vm_compute. reflexivity.
  - reflexivity.
  - vm_compute. reflexivity.
  - vm_compute. reflexivity.
  - intros newId H. vm_compute in H. injection H as <-. vm_compute. discriminate.
Defined.

(** Claim C2 as stated fails: the run succeeds, the original tag points at
    the new image, and the temporary tag is still bound, because the
    rejected removal of the temporary tag is ignored. *)
Lemma temporary_tag_can_remain :
  (Reference.run wStuck).1 = Normal tt
  ∧ terminalWrites (trace (Reference.run wStuck).2) = [success]
  ∧ existsb isManualPull (trace (Reference.run wStuck).2) = true
  ∧ existsb isTag (trace (Reference.run wStuck).2) = true
  ∧ Reference.resolve (world (Reference.run wStuck).2)
      (parseImageNameAndTag Reference.utils
         (getTempImageTag Reference.utils "app:latest"))
    = Some "sha:bbb".
Proof. vm_compute. repeat split. Qed.

(** The amended claim on a run whose removal of the temporary tag goes
    through, and on one where it is rejected. *)
Lemma approved_run_promotes_tag_witness :
  (∃ newId r, pulledIdentity (trace (Reference.run wApproved).2) = Some newId
     ∧ removalOf (getTempImageTag Reference.utils "app:latest")
         (trace (Reference.run wApproved).2) = Some r
     ∧ Reference.resolve (world (Reference.run wApproved).2)
         (parseImageNameAndTag Reference.utils "app:latest") = Some newId
     ∧ Reference.resolve (world (Reference.run wApproved).2)
         (parseImageNameAndTag Reference.utils
            (getTempImageTag Reference.utils "app:latest"))
       = match r with Ok _ => None | Err _ => Some newId end)
  ∧ (∃ newId r, pulledIdentity (trace (Reference.run wStuck).2) = Some newId
       ∧ removalOf (getTempImageTag Reference.utils "app:latest")
           (trace (Reference.run wStuck).2) = Some r
       ∧ Reference.resolve (world (Reference.run wStuck).2)
           (parseImageNameAndTag Reference.utils "app:latest") = Some newId
       ∧ Reference.resolve (world (Reference.run wStuck).2)
           (parseImageNameAndTag Reference.utils
              (getTempImageTag Reference.utils "app:latest"))
         = match r with Ok _ => None | Err _ => Some newId end).
Proof.
  split.
  - apply (approved_run_promotes_tag Reference.collaborators Reference.utils
             Reference.resolve 7 "web-1" scheduled wApproved
             (Reference.run wApproved).1 (Reference.run wApproved).2
             (Reference.webInspection "app:latest") "app:latest").
    + exact reference_tagStore.
    + apply surjective_pairing.
    + vm_compute. reflexivity.
    + reflexivity.
    + vm_compute. reflexivity.
    + vm_compute. reflexivity.
    + vm_compute. reflexivity.
  - apply (approved_run_promotes_tag Reference.collaborators Reference.utils
             Reference.resolve 7 "web-1" scheduled wStuck
             (Reference.run wStuck).1 (Reference.run wStuck).2
             (Reference.webInspection "app:latest") "app:latest").
    + exact reference_tagStore.
    + apply surjective_pairing.
    + vm_compute. reflexivity.
    + reflexivity.
    + vm_compute. reflexivity.
    + vm_compute. reflexivity.
    + vm_compute. reflexivity.
Defined.





Lemma up_to_date_run_is_skipped_witness :
  Forall (λ e, isPullTagOrCreate e = false) (trace (Reference.run wSame).2)
  ∧ (∃ executionId r,
        In (EvUpdateScheduleExecution executionId
              (skippedUpdate "Already up-to-date") r)
           (trace (Reference.run wSame).2))
  ∧ (reliableLedger Reference.collaborators →
     (Reference.run wSame).1 = Normal tt
     ∧ terminalWrites (trace (Reference.run wSame).2) = [skipped]).
Proof.
  apply (up_to_date_run_is_skipped Reference.collaborators Reference.utils
           7 "web-1" scheduled wSame
           (Reference.run wSame).1 (Reference.run wSame).2
           (mkRegistryCheck false (Some "sha256:bbb") false None)).
  - apply surjective_pairing.
  - vm_compute. reflexivity.
  - reflexivity.
  - reflexivity.
  - reflexivity.
Defined.

Lemma pinned_run_is_skipped_witness :
  Forall (λ e, isRegistryQuery e = false) (trace (Reference.run wPinned).2)
  ∧ (∃ executionId why r,
        In (EvUpdateScheduleExecution executionId (skippedUpdate why) r)
           (trace (Reference.run wPinned).2))
  ∧ (reliableLedger Reference.collaborators →
     (Reference.run wPinned).1 = Normal tt
     ∧ terminalWrites (trace (Reference.run wPinned).2) = [skipped]).
Proof.
  apply (pinned_run_is_skipped Reference.collaborators Reference.utils
           7 "web-1" scheduled wPinned
           (Reference.run wPinned).1 (Reference.run wPinned).2
           (Reference.webInspection "app@sha256:abc") "app@sha256:abc").
  - apply surjective_pairing.
  - vm_compute. reflexivity.
  - reflexivity.
  - discriminate.
  - vm_compute. reflexivity.
Defined.

(** [recreateContainer] where the runtime refuses the reconnection: the
    result is true, the one secondary network was tried, and the refusal is
    logged. And where the runtime refuses the creation: the result is
    false. *)
Lemma recreateContainer_boolean_witness :
  (Reference.recreate wLoose).1 = Normal true
  ∧ omap connectTarget (trace (Reference.recreate wLoose).2) = ["backend"]
  ∧ In (EvLog (connectWarning "backend" "network not found"))
       (trace (Reference.recreate wLoose).2)
  ∧ (Reference.recreate wFull).1 = Normal false.
Proof.
  destruct (recreateContainer_boolean Reference.collaborators Reference.utils
              "web-1" true (start_state wLoose)
              (Reference.recreate wLoose).1 (Reference.recreate wLoose).2
              (surjective_pairing _))
    as (b & evs & Hc & Hevs & _ & Hfound & _ & _ & Hwarn).
  destruct (recreateContainer_boolean Reference.collaborators Reference.utils
              "web-1" true (start_state wFull)
              (Reference.recreate wFull).1 (Reference.recreate wFull).2
              (surjective_pairing _))
    as (b' & evs' & Hc' & _ & _ & Hfound' & _).
  epose proof (Hfound _ _ _ _ _ _ _ _ _ _ (Ok "new-container") _
                 eq_refl eq_refl eq_refl eq_refl eq_refl eq_refl eq_refl
                 eq_refl eq_refl) as [Hconn Htrue].
  epose proof (Hfound' _ _ _ _ _ _ _ _ _ _ (Err "port is already allocated") _
                 eq_refl eq_refl eq_refl eq_refl eq_refl eq_refl eq_refl
                 eq_refl eq_refl) as Hfalse.
  cbn in Hfalse. subst b'.
  rewrite (Htrue (λ w, ex_intro _ w eq_refl)) in Hc.
  cbn [start_state trace app] in Hevs.
  split; [exact Hc|]. split; [rewrite Hevs; exact Hconn|].
  split; [|exact Hc'].
  rewrite Hevs.
  apply (Hwarn eq_refl "backend" "new-container"
           (mkConnect (Some ["web"]) None None None) "network not found").
  rewrite <- Hevs. vm_compute. tauto.
Defined.

(** [recreateContainer] where the runtime refuses the creation: the result
    is false, the creation was tried after the stop and the forced removal
    of the old container, only log lines follow it, and the listing of the
    world the call leaves is empty. *)
Lemma recreateContainer_not_atomic_witness :
  (Reference.recreate wFull).1 = Normal false
  ∧ Reference.containerList wFull = [mkContainerInfo "c0ffee" "web-1"]
  ∧ Reference.containerList (world (Reference.recreate wFull).2) = []
  ∧ ∃ pre post,
      trace (Reference.recreate wFull).2
      = pre ++ EvCreateContainer (Reference.webInspection "app:latest")
                 (Err "port is already allocated") :: post
      ∧ before (EvStopContainer "c0ffee" (Ok tt))
               (EvRemoveContainer "c0ffee" true (Ok tt)) pre
      ∧ Forall (λ e, isLog e = true) post.
Proof.
  destruct (recreateContainer_not_atomic Reference.collaborators Reference.utils
              "web-1" true (start_state wFull)
              (Reference.recreate wFull).1 (Reference.recreate wFull).2
              (surjective_pairing _))
    as (b & evs & Hc & Hevs & _ & Hfound).
  edestruct Hfound as (pre & post & Hsplit & _ & _ & Hstop & Hend);
    [reflexivity..|].
  destruct (Hend _ eq_refl) as (-> & Hw & Hpost).
  cbn [start_state trace app] in Hevs.
  split; [exact Hc|]. split; [reflexivity|]. split; [rewrite Hw; reflexivity|].
  exists pre, post. rewrite Hevs. auto.
Defined.

(** Claim C10 as stated fails twice. With the comparison policy and a scan
    history that rejects, the save of the current image's record is
    rejected and no warning follows it. And when the new image is the
    running one, the records just saved count in the lookup for the
    current image: the scan blocks when the saves are rejected and allows
    when they go through. *)
Lemma rejected_save_changes_verdict :
  savesLogged (trace (Reference.scan "more_than_current" wLocked).2) = false
  ∧ savesLoggedFor "sha:bbb"
      (trace (Reference.scan "more_than_current" wLocked).2) = true
  ∧ match (Reference.scanOf rescan (Reference.withHistory wLocked [earlier])).1
    with Normal o => blocked o | _ => false end = true
  ∧ match (Reference.scanOf rescan (Reference.withHistory wOpen [earlier])).1
    with Normal o => blocked o | _ => true end = false.
Proof. vm_compute. repeat split. Qed.

Lemma scan_history_is_advisory_witness :
  (Reference.scan "more_than_current" wLocked).1
  = (Reference.scan "more_than_current" wOpen).1
  ∧ ∃ evs, trace (Reference.scan "more_than_current" wLocked).2 = [] ++ evs
      ∧ (∀ msg, (Reference.scan "more_than_current" wLocked).1 = Throw msg →
                existsb isSave evs = false)
      ∧ ("more_than_current" ≠ "more_than_current" ∨ "sha:bbb" ≠ "sha:aaa" →
         savesLoggedFor "sha:bbb" evs = true).
Proof.
  apply (scan_history_is_advisory Reference.collaborators Reference.utils
           (Reference.historyView "sha:aaa") Reference.collaborators
           (mkScanContext "sha:bbb" "sha:aaa" "more_than_current")
           (start_state wLocked) (start_state wOpen)
           (Reference.scan "more_than_current" wLocked).1
           (Reference.scan "more_than_current" wOpen).1
           (Reference.scan "more_than_current" wLocked).2
           (Reference.scan "more_than_current" wOpen).2).
  - apply reference_sameScans.
  - apply reference_sameCache.
  - apply reference_savesKeep. discriminate.
  - apply reference_savesKeep. discriminate.
  - reflexivity.
  - apply surjective_pairing.
  - apply surjective_pairing.
Defined.

End Runs.

(** ** Network aliases and reconnection *)

Section Networks.
Context {ContainerOptions W : Type}.
Context (C : Collaborators ContainerOptions W) (U : Utils ContainerOptions).
Local Abbreviation St := (St ContainerOptions W).
Local Abbreviation Event := (Event ContainerOptions).

Local Abbreviation aliasSource netConf :=
  (match Aliases netConf with
   | Some ((_ :: _) as l) => l
   | _ => default [] (DNSNames netConf)
   end).

Lemma kept_aliases container netConf a :
  In a (List.filter (λ a, negb (bool_decide (a = id container))
                          && negb (bool_decide (a = prefix 12 (id container))))
          (aliasSource netConf)) ↔
  In a (aliasSource netConf) ∧ a ≠ id container ∧ a ≠ prefix 12 (id container).
Proof.
  rewrite List.filter_In, andb_true_iff, !negb_true_iff, !bool_decide_eq_false.
  tauto.
Qed.

(** Lines 854-865: every alias reapplied on a secondary network is an alias
    (or, without aliases, a DNS name) of the old endpoint other than the
    container's identity and its twelve-character prefix, or one of the two
    compose names. *)
Theorem secondaryAliasesOf_origin container project service netConf :
  Forall (λ a,
      (In a (aliasSource netConf)
       ∧ a ≠ id container ∧ a ≠ prefix 12 (id container))
      ∨ (truthy project = true ∧ truthy service = true
         ∧ (a = default EmptyString service
            ∨ a = default EmptyString project +:+ "-"
                  +:+ default EmptyString service)))
    (secondaryAliasesOf container project service netConf).
Proof.
  apply List.Forall_forall. intros a. unfold secondaryAliasesOf, includes.
  destruct (truthy project) eqn:Hp, (truthy service) eqn:Hs; cbn [andb];
    try (rewrite kept_aliases; tauto).
  repeat case_bool_decide; rewrite ?List.in_app_iff, ?kept_aliases; cbn;
    intuition auto.
Qed.

(** Lines 857-865: with both compose labels, the service name and the
    project-service name are among the aliases. *)
Theorem secondaryAliasesOf_compose_names container project service netConf :
  truthy project = true → truthy service = true →
  default EmptyString service
    ∈ secondaryAliasesOf container project service netConf
  ∧ default EmptyString project +:+ "-" +:+ default EmptyString service
    ∈ secondaryAliasesOf container project service netConf.
Proof.
  intros Hp Hs. unfold secondaryAliasesOf, includes. rewrite Hp, Hs. cbn [andb].
  repeat case_bool_decide; set_solver.
Qed.

(** Lines 854-865: no alias is added twice. *)
Theorem secondaryAliasesOf_NoDup container project service netConf :
  NoDup (aliasSource netConf) →
  NoDup (secondaryAliasesOf container project service netConf).
Proof.
  intros Hnd. unfold secondaryAliasesOf, includes.
  assert (Hk : NoDup (List.filter
                        (λ a, negb (bool_decide (a = id container))
                              && negb (bool_decide
                                         (a = prefix 12 (id container))))
                        (aliasSource netConf)))
    by (apply NoDup_ListNoDup, List.NoDup_filter, NoDup_ListNoDup, Hnd).
  destruct (truthy project && truthy service); [|done].
  repeat case_bool_decide; try done;
    repeat (apply NoDup_app; split_and?; try done;
            try apply NoDup_singleton; try set_solver).
Qed.

(** Lines 841-876: the networks to reconnect are the attached networks
    other than the primary one, in the order of the snapshot; collecting
    them leaves the world as it was. *)
Theorem collectAdditionalNetworks_result {R} logger container options primary
    project service entries acc (s : St) :
  ∃ s', collectAdditionalNetworks (R:=R) U logger container options primary
          project service entries acc s
        = (Normal (acc ++ map (λ entry, networkInfoOf container project service
                                          entry.1 entry.2)
                          (List.filter
                             (λ entry, negb (isPrimaryNetwork primary entry.1))
                             entries)), s')
    ∧ world s' = world s.
Proof. apply collectAdditionalNetworks_value. Qed.


End Networks.

(** ** Updating a container through its compose stack *)

Section Stack.
Context {ContainerOptions W : Type}.
Context (C : Collaborators ContainerOptions W) (U : Utils ContainerOptions).
Local Abbreviation St := (St ContainerOptions W).
Local Abbreviation Event := (Event ContainerOptions).

Lemma updateStackContainer_run {R} stackName serviceName logger path (s : St)
    (c : Completion R bool) s' :
  updateStackContainer C stackName serviceName logger path s = (c, s') →
  ∃ b evs, c = Normal b ∧ trace s' = trace s ++ evs
    ∧ Forall (λ e, isStackUpdateEvent e = true) evs
    ∧ (logger = false → Forall (λ e, isLog e = false) evs)
    ∧ (b = true ↔
       ∃ file result,
         In (EvGetStackComposeFile stackName path (Ok file)) evs
         ∧ compose_success file = true
         ∧ truthy (compose_content file) = true
         ∧ In (EvUpdateStackService stackName serviceName path (Ok result)) evs
         ∧ service_success result = true)
    ∧ (∀ e, In e evs → isServiceUpdate e = true →
       ∃ file, In (EvGetStackComposeFile stackName path (Ok file)) evs
               ∧ compose_success file = true
               ∧ truthy (compose_content file) = true).
Proof.
  intros H. unfold updateStackContainer in H.
  run_all.
  all: cbn [trace]; rewrite <- ?app_assoc.
  all: eexists _, _; split; [reflexivity|]; split; [reflexivity|].
  all: cbn [app].
  all: repeat match goal with
              | H : _ || _ = _ |- _ =>
                  first [ apply orb_false_iff in H as [? ?]
                        | apply orb_true_iff in H ]
              | H : negb _ = false |- _ => apply negb_false_iff in H
              end.
  all: split; [solve_forall|].
  all: split; [intros Hlog; try discriminate Hlog; solve_forall|].
  all: split.
  all: try (split; [discriminate|]; intros (file & result & Hf & ? & ? & Hu & ?);
            in_cases; simplify_eq; cbn in *; split_ors;
            try congruence; try discriminate; fail).
  all: try (split; [intros _|reflexivity]; eexists _, _;
            split; [in_solve|]; split; [eassumption|]; split; [eassumption|];
            split; [in_solve|eassumption]).
  all: intros e Hin Hsu; in_cases; simplify_eq; try discriminate Hsu.
  all: eexists; split; [in_solve|split; eassumption].
Qed.

(** Lines 918-949: [updateStackContainer] never throws, and it returns true
    exactly when the stack's compose file was found with content and the
    service update reported success. *)
Theorem updateStackContainer_boolean {R} stackName serviceName logger path
    (s : St) :
  ∃ b evs s',
    updateStackContainer (R:=R) C stackName serviceName logger path s
    = (Normal b, s')
    ∧ trace s' = trace s ++ evs
    ∧ (b = true ↔
       ∃ file result,
         In (EvGetStackComposeFile stackName path (Ok file)) evs
         ∧ compose_success file = true
         ∧ truthy (compose_content file) = true
         ∧ In (EvUpdateStackService stackName serviceName path (Ok result)) evs
         ∧ service_success result = true).
Proof.
  destruct (updateStackContainer (R:=R) C stackName serviceName logger path s)
    as [c s'] eqn:H.
  apply updateStackContainer_run in H as (b & evs & -> & Hevs & _ & _ & Hb & _).
  eauto 10.
Qed.

(** Lines 918-949: [updateStackContainer] only looks the compose file up
    and updates the service; it updates the service only after a lookup
    that found a compose file with content, and without a logger it leaves
    no log line. *)
Theorem updateStackContainer_calls {R} stackName serviceName logger path
    (s : St) :
  ∃ evs,
    trace (updateStackContainer (R:=R) C stackName serviceName logger path s).2
    = trace s ++ evs
    ∧ Forall (λ e, isStackUpdateEvent e = true) evs
    ∧ (logger = false → Forall (λ e, isLog e = false) evs)
    ∧ (∀ e, In e evs → isServiceUpdate e = true →
       ∃ file, In (EvGetStackComposeFile stackName path (Ok file)) evs
               ∧ compose_success file = true
               ∧ truthy (compose_content file) = true).
Proof.
  destruct (updateStackContainer (R:=R) C stackName serviceName logger path s)
    as [c s'] eqn:H.
  apply updateStackContainer_run in H as (b & evs & _ & Hevs & He & Hl & _ & Hu).
  eauto 10.
Qed.

End Stack.

(** ** The scan of a pulled image *)

Section Scan.
Context {ContainerOptions W : Type}.
Context (C : Collaborators ContainerOptions W) (U : Utils ContainerOptions).
Local Abbreviation St := (St ContainerOptions W).
Local Abbreviation Event := (Event ContainerOptions).

Local Abbreviation logsOrSaves :=
  (λ e : Event, isLog e = true ∨ isSave e = true).

Lemma logs_logsOrSaves (lines : list string) :
  Forall logsOrSaves (map (EvLog (ContainerOptions:=ContainerOptions)) lines).
Proof. apply Forall_map, Forall_true. intros line. by left. Qed.

Lemma omap_savedRecord_quiet (l : list Event) :
  Forall (λ e, isSave e = false) l → omap savedRecord l = [].
Proof.
  induction 1 as [|e l He _ IH]; [done|]. destruct e; cbn in *; try done.
Qed.

Lemma omap_savedRecord_nil : omap savedRecord (@nil Event) = [].
Proof. reflexivity. Qed.

Lemma omap_savedRecord_cons (e : Event) (l : list Event) :
  omap savedRecord (e :: l)
  = match savedRecord e with
    | Some record => record :: omap savedRecord l
    | None => omap savedRecord l
    end.
Proof. cbn. by destruct (savedRecord e). Qed.

Lemma omap_savedRecord_logs (lines : list string) :
  omap savedRecord (map (EvLog (ContainerOptions:=ContainerOptions)) lines) = [].
Proof. induction lines; cbn; auto. Qed.

Lemma filter_isScanCall_quiet (l : list Event) :
  Forall logsOrSaves l → List.filter isScanCall l = [].
Proof.
  induction 1 as [|e l He _ IH]; [done|].
  destruct e; cbn in *; try done; destruct He; discriminate.
Qed.

Lemma existsb_isCacheLookup_quiet (l : list Event) :
  Forall logsOrSaves l → existsb isCacheLookup l = false.
Proof.
  induction 1 as [|e l He _ IH]; [done|].
  destruct e; cbn in *; try done; destruct He; discriminate.
Qed.

(** Lines 133-155: one save is attempted per result, in order. *)
Lemma saveScanResults_records {R} imageId results (s : St)
    (c : Completion R unit) s' :
  saveScanResults C imageId results s = (c, s') →
  c = Normal tt
  ∧ ∃ evs, trace s' = trace s ++ evs
      ∧ omap savedRecord evs = map (scanRecordOf imageId) results
      ∧ Forall logsOrSaves evs.
Proof.
  revert s. induction results as [|result results IH]; intros s H.
  - cbn in H. run_all. split; [done|]. exists []. rewrite app_nil_r. done.
  - unfold saveScanResults in H. cbn [forOf] in H.
    fold (saveScanResults (R:=R) C imageId results) in H.
    run_all.
    all: match goal with
         | H : saveScanResults _ _ _ _ = _ |- _ =>
             apply IH in H as (-> & evs & Hevs & Hrec & Hall)
         end.
    all: split; [done|]; cbn [trace world] in *; rewrite Hevs, <- ?app_assoc.
    all: eexists; split; [reflexivity|].
    all: split; [cbn; by rewrite Hrec|].
    all: cbn [app]; repeat (constructor; [cbn; auto|]); done.
Qed.

Lemma saveCurrentScanResults_quiet {R} imageId results (s : St)
    (c : Completion R unit) s' :
  saveCurrentScanResults C imageId results s = (c, s') →
  c = Normal tt ∧ ∃ evs, trace s' = trace s ++ evs ∧ Forall logsOrSaves evs.
Proof.
  intros H. apply saveCurrentScanResults_run in H as (-> & evs & Hevs & Hall).
  split; [done|]. exists evs. split; [done|].
  eapply Forall_impl; [exact Hall|]. intros e (result & r & ->). by right.
Qed.

End Scan.

Ltac scan_loops :=
  match goal with
  | H : saveScanResults _ _ _ _ = (_, _) |- _ =>
      apply saveScanResults_records in H
  | H : saveCurrentScanResults _ _ _ _ = (_, _) |- _ =>
      apply saveCurrentScanResults_quiet in H
  end; run_settle.

(** Evaluate an observation on a trace made of explicit events, progress
    lines and the events of the save loops. *)
Ltac observe_trace :=
  repeat first
    [ progress cbn [app existsb List.filter length isCacheLookup isScanCall
                    savedRecord orb]
    | rewrite omap_savedRecord_cons
    | rewrite omap_savedRecord_nil
    | rewrite existsb_app
    | rewrite omap_app
    | rewrite List.filter_app
    | rewrite length_app
    | rewrite existsb_isSave_logs
    | rewrite omap_savedRecord_logs
    | rewrite (filter_isScanCall_quiet (map EvLog _)) by apply logs_logsOrSaves
    | rewrite (existsb_isCacheLookup_quiet (map EvLog _))
        by apply logs_logsOrSaves
    | match goal with
      | Hq : Forall _ ?x |- context [List.filter isScanCall ?x] =>
          rewrite (filter_isScanCall_quiet x Hq)
      | Hq : Forall _ ?x |- context [existsb isCacheLookup ?x] =>
          rewrite (existsb_isCacheLookup_quiet x Hq)
      | Hr : omap savedRecord ?x = _ |- context [omap savedRecord ?x] =>
          rewrite Hr
      end ].

Section ScanProperties.
Context {ContainerOptions W : Type}.
Context (C : Collaborators ContainerOptions W) (U : Utils ContainerOptions).
Local Abbreviation St := (St ContainerOptions W).
Local Abbreviation Event := (Event ContainerOptions).

(** Lines 115-129: when the scanner returns no result, the update is not
    blocked whatever the policy, nothing is saved and the cache is not
    consulted. *)
Theorem scanAndCheckBlock_no_results {R} ctx (s : St) ps w' :
  scanImage C (newImageId ctx) (world s) = (ps, Ok [], w') →
  scanAndCheckBlock (R:=R) C U ctx s
  = (Normal (mkScanOutcome false None (Some []) None),
     mkSt w' (trace s
              ++ EvLog "Scanning new image for vulnerabilities..."
                 :: map EvLog (concat (map onProgressNew ps))
              ++ [EvScanImage (newImageId ctx) (Ok [])])).
Proof.
  intros H.
  unfold scanAndCheckBlock, asFunction, bind, log, emit, callScanImage.
  cbn [world trace]. rewrite H. cbn. by rewrite <- app_assoc.
Qed.

(** Lines 115-213: the scan throws only when the scan of the new image is
    rejected, with the scanner's message and before anything is saved or
    looked up; a rejected cache lookup, scan of the current image or save
    never makes it throw. *)
Theorem scanAndCheckBlock_throws_only_on_scan {R} ctx (s : St) :
  match scanAndCheckBlock (R:=R) C U ctx s with
  | (Normal _, _) => True
  | (Return _, _) => False
  | (Throw msg, s') =>
      ∃ lines, trace s' = trace s
                 ++ EvLog "Scanning new image for vulnerabilities..."
                    :: map EvLog lines
                 ++ [EvScanImage (newImageId ctx) (Err msg)]
  end.
Proof.
  destruct (scanAndCheckBlock (R:=R) C U ctx s) as [c s'] eqn:H.
  unfold scanAndCheckBlock, lookupCurrentSummary, checkBlock in H.
  repeat (first [run_step | scan_loops]).
  all: try exact I.
  all: cbn [trace]; rewrite <- ?app_assoc; eexists; reflexivity.
Qed.

(** Lines 131-212: under a policy other than the comparison with the
    current image, the cache is not consulted, the scanner is called once,
    one save is attempted per result of the scan, in order, and the verdict
    is the policy applied to the new image's combined summary alone. *)
Theorem scanAndCheckBlock_plain_policy {R} ctx (s : St)
    (c : Completion R ScanOutcome) s' :
  scanAndCheckBlock C U ctx s = (c, s') →
  vulnerabilityCriteria ctx ≠ "more_than_current" →
  ∃ evs, trace s' = trace s ++ evs
    ∧ existsb isCacheLookup evs = false
    ∧ length (List.filter isScanCall evs) = 1%nat
    ∧ ∀ o results, c = Normal o → scanResults o = Some results →
        omap savedRecord evs = map (scanRecordOf (newImageId ctx)) results
        ∧ (results ≠ [] →
           blocked o = fst (shouldBlockUpdate U (vulnerabilityCriteria ctx)
                              (combineScanSummaries results) None)).
Proof.
  intros H Hplain.
  unfold scanAndCheckBlock, lookupCurrentSummary, checkBlock in H.
  rewrite (bool_decide_eq_false_2 _ Hplain) in H.
  repeat (first [run_step | scan_loops]).
  all: cbn [trace]; rewrite_traces; rewrite <- ?app_assoc.
  all: eexists; split; [reflexivity|].
  all: split; [observe_trace; try done|].
  all: split; [observe_trace; try done|].
  all: intros o results Ho Hres; simplify_eq; cbn [scanResults] in Hres;
    simplify_eq.
  all: split; [observe_trace; rewrite ?app_nil_r; try done|].
  all: intros Hne; try done; cbn [blocked];
    match goal with
    | Hp : shouldBlockUpdate _ _ _ _ = _ |- _ => by rewrite Hp
    end.
Qed.

(** Lines 111-213: a scan only logs and calls the scanner and the scan
    history; it touches neither the runtime, nor the ledger, nor the
    notification sink. *)
Theorem scanAndCheckBlock_only_scans {R} ctx (s : St) :
  ∃ evs, trace (scanAndCheckBlock (R:=R) C U ctx s).2 = trace s ++ evs
    ∧ Forall (λ e, isScanEvent e = true) evs.
Proof.
  destruct (scanAndCheckBlock (R:=R) C U ctx s) as [c s'] eqn:H.
  exact (scanAndCheckBlock_emits C U ctx _ _ _ H).
Qed.

(** Lines 792-910: a recreation only logs and calls the runtime's container
    operations; it touches neither the image store, nor the scanner, nor
    the ledger, nor the notification sink. *)
Theorem recreateContainer_only_runtime {R} containerName logger (s : St) :
  ∃ evs, trace (recreateContainer (R:=R) C U containerName logger s).2
         = trace s ++ evs
    ∧ Forall (λ e, isRecreateEvent e = true) evs.
Proof.
  destruct (recreateContainer (R:=R) C U containerName logger s)
    as [c s'] eqn:H.
  exact (recreateContainer_emits C U containerName logger _ _ _ H).
Qed.

Ltac recreation_loops :=
  match goal with
  | H : collectAdditionalNetworks _ _ _ _ _ _ _ _ _ _ = _ |- _ =>
      apply collectAdditionalNetworks_run in H; destruct H as ((? & ?) & ? & ?)
  | H : reconnectNetworks _ _ _ _ _ = _ |- _ =>
      apply reconnectNetworks_run in H; destruct H as (? & ? & ? & ? & ?)
  end; run_settle.

(** Lines 814-905: a container that was not running is recreated without a
    stop and without a start. *)
Theorem recreateContainer_stopped_stays_stopped {R} containerName logger
    (s : St) (c : Completion R bool) s' evs inspectData :
  recreateContainer C U containerName logger s = (c, s') →
  trace s' = trace s ++ evs →
  snapshot evs = Some inspectData →
  State_Running inspectData = Some false →
  Forall (λ e, match e with
               | EvStopContainer _ _ | EvStart _ _ => False
               | _ => True
               end) evs.
Proof.
  intros H Hevs Hsnap Hstopped. unfold recreateContainer in H.
  repeat (run_step || recreation_loops).
  all: open_emitted; symmetry in Hevs; cbn [trace] in Hevs;
    rewrite_traces_in Hevs; rewrite <- ?app_assoc in Hevs;
    apply app_inv_head in Hevs; subst evs.
  all: cbn [app snapshot] in Hsnap; simplify_eq.
  all: cbn [app]; solve_forall.
Qed.

End ScanProperties.

(** ** Runs that end before the registry is asked *)

Section EarlyExits.
Context {ContainerOptions W : Type}.
Context (C : Collaborators ContainerOptions W) (U : Utils ContainerOptions).
Local Abbreviation St := (St ContainerOptions W).
Local Abbreviation Event := (Event ContainerOptions).

Local Abbreviation idle :=
  (λ e : Event, isRegistryQuery e = false ∧ isPullTagOrCreate e = false).

Lemma runContainerUpdate_early {R} settingId containerName triggeredBy
    (w : W) (c : Completion R unit) s' :
  runContainerUpdate C U settingId containerName triggeredBy (start_state w)
  = (c, s') →
  (∃ r rest,
      trace s' = EvCreateScheduleExecution settingId containerName triggeredBy
                   running r :: rest
      ∧ ∀ msg, r = Err msg → c = Throw msg ∧ rest = [])
  ∧ (∀ cs, listing (trace s') = Some cs →
       findContainer containerName cs = None →
       Forall idle (trace s')
       ∧ snapshot (trace s') = None
       ∧ ∃ executionId r,
           In (EvUpdateScheduleExecution executionId
                 (failedUpdate "Container not found") r) (trace s'))
  ∧ (∀ inspectData image kind,
       snapshot (trace s') = Some inspectData →
       Config inspectData ≫= Config_Image = Some image →
       image ≠ EmptyString →
       isSystemContainer U image = Some kind →
       Forall idle (trace s')
       ∧ ∃ executionId r,
           In (EvUpdateScheduleExecution executionId
                 (skippedUpdate
                    match kind with
                    | dockhand => "Cannot auto-update Dockhand itself"
                    | hawser => "Cannot auto-update Hawser agent"
                    end) r) (trace s')).
Proof.
  intros H.
  unfold runContainerUpdate, start_state in H.
  repeat (first [ run_step
                | match goal with
                  | H : tryUpdate _ _ _ _ _ _ = _ |- _ => unfold tryUpdate in H
                  | H : updateFromSnapshot _ _ _ _ _ _ _ _ = _ |- _ =>
                      apply updateFromSnapshot_grows in H
                  | H : onError _ _ _ _ _ = _ |- _ => unfold onError in H
                  end ]).
  all: open_emitted; rewrite_traces; rewrite <- ?app_assoc; cbn [app].
  all: split; [eexists _, _; split; [reflexivity|];
               intros msg' Hr; by simplify_eq|].
  all: split;
    [ intros cs Hcs Hnone; cbn [listing] in Hcs; simplify_eq; try congruence
    | intros d image kind Hsnap Himage Hne Hkind;
      cbn [snapshot] in Hsnap; simplify_eq;
      rewrite Himage in *; cbn [default from_option] in *;
      unfold Datatypes.id in *; simplify_eq;
      try (exfalso; unfold truthy in *; case_decide; cbn in *; congruence) ].
  all: split; [solve_forall|].
  all: try (split; [reflexivity|]).
  all: eexists _, _; unfold failedUpdate, skippedUpdate; in_solve.
Qed.

(** Lines 308-320: a run first creates its execution record, outside the
    [try]; when the creation is rejected the run throws the rejection and
    calls nothing else. *)
Theorem runContainerUpdate_creates_record_first {R} settingId containerName
    triggeredBy (w : W) :
  ∃ r rest,
    trace (runContainerUpdate (R:=R) C U settingId containerName triggeredBy
             (start_state w)).2
    = EvCreateScheduleExecution settingId containerName triggeredBy running r
      :: rest
    ∧ ∀ msg, r = Err msg →
        (runContainerUpdate (R:=R) C U settingId containerName triggeredBy
           (start_state w)).1 = Throw msg
        ∧ rest = [].
Proof.
  destruct (runContainerUpdate (R:=R) C U settingId containerName triggeredBy
              (start_state w)) as [c s'] eqn:H.
  apply runContainerUpdate_early in H as [Hfirst _]. exact Hfirst.
Qed.

(** Lines 333-343: when the container is not among the listed ones, the run
    writes failed with the message [Container not found], and it neither
    inspects a container, nor asks the registry, nor pulls, tags or
    creates anything. *)
Theorem missing_container_fails_run {R} settingId containerName triggeredBy
    (w : W) (c : Completion R unit) s' cs :
  runContainerUpdate C U settingId containerName triggeredBy (start_state w)
  = (c, s') →
  listing (trace s') = Some cs →
  findContainer containerName cs = None →
  Forall (λ e, isRegistryQuery e = false ∧ isPullTagOrCreate e = false)
    (trace s')
  ∧ snapshot (trace s') = None
  ∧ ∃ executionId r,
      In (EvUpdateScheduleExecution executionId
            (failedUpdate "Container not found") r) (trace s').
Proof.
  intros H. apply runContainerUpdate_early in H as (_ & Hmissing & _).
  apply Hmissing.
Qed.

(** Lines 357-375: a container that runs the management software or its
    agent is skipped with the matching reason, before the registry is
    asked and without any pull, tag or create call. *)
Theorem system_container_is_skipped {R} settingId containerName triggeredBy
    (w : W) (c : Completion R unit) s' inspectData image kind :
  runContainerUpdate C U settingId containerName triggeredBy (start_state w)
  = (c, s') →
  snapshot (trace s') = Some inspectData →
  Config inspectData ≫= Config_Image = Some image →
  image ≠ EmptyString →
  isSystemContainer U image = Some kind →
  Forall (λ e, isRegistryQuery e = false ∧ isPullTagOrCreate e = false)
    (trace s')
  ∧ ∃ executionId r,
      In (EvUpdateScheduleExecution executionId
            (skippedUpdate
               match kind with
               | dockhand => "Cannot auto-update Dockhand itself"
               | hawser => "Cannot auto-update Hawser agent"
               end) r) (trace s').
Proof.
  intros H. apply runContainerUpdate_early in H as (_ & _ & Hsystem).
  apply Hsystem.
Qed.

End EarlyExits.

(** ** The further properties on runs in the reference environment *)

Section MoreRuns.

Local Abbreviation webContainer := (mkContainerInfo "c0ffee" "web-1").

Local Abbreviation shopEndpoint :=
  (mkEndpoint (Some ["web"; "db"; "c0ffee"]) None None None).

(** The scanner reports nothing. *)
Local Abbreviation wClean :=
  (Reference.world "app:latest" "grype" (Some "any") true [] []).

(** The scanner finds two critical vulnerabilities. *)
Local Abbreviation wCritical :=
  (Reference.world "app:latest" "grype" (Some "critical") true
     [Reference.scanReport 2] []).

(** The container is not running. *)
Local Abbreviation wStopped :=
  (Reference.mkWorld
     {[ parseImageNameAndTag Reference.utils "app:latest" := Reference.Running ]}
     Reference.Fetched (mkRegistryCheck true (Some "sha256:bbb") false None)
     [webContainer]
     (mkInspect (Some (mkContainerConfig (Some "app:latest") None)) "sha:aaa"
        (Some false) (Some (Some "bridge"))
        (Some [("bridge", mkEndpoint None None None None);
               ("backend", mkEndpoint (Some ["web"]) None None None)]))
     "none" None [] [] []).

(** The container runs the management software. *)
Local Abbreviation wSelf :=
  (Reference.world "dockhand:latest" "none" None true [] []).

Local Abbreviation wPlain :=
  (Reference.world "app:latest" "none" None true [] []).

Local Abbreviation ghostRun :=
  (runContainerUpdate (R:=unit) Reference.collaborators Reference.utils 7
     "ghost" scheduled (start_state wPlain)).

Lemma secondaryAliasesOf_compose_names_witness :
  "web" ∈ secondaryAliasesOf webContainer (Some "shop") (Some "web") shopEndpoint
  ∧ "shop-web"
    ∈ secondaryAliasesOf webContainer (Some "shop") (Some "web") shopEndpoint.
Proof.
  apply (secondaryAliasesOf_compose_names webContainer (Some "shop")
           (Some "web") shopEndpoint); reflexivity.
Defined.

Lemma secondaryAliasesOf_NoDup_witness :
  NoDup (secondaryAliasesOf webContainer (Some "shop") (Some "web") shopEndpoint).
Proof.
  apply (secondaryAliasesOf_NoDup webContainer (Some "shop") (Some "web")
           shopEndpoint).
  cbn. repeat (apply NoDup_cons; split; [set_solver|]). apply NoDup_nil_2.
Defined.

Lemma scanAndCheckBlock_no_results_witness :
  Reference.scan "any" wClean
  = (Normal (mkScanOutcome false None (Some []) None),
     mkSt wClean
       [EvLog "Scanning new image for vulnerabilities...";
        EvScanImage "sha:bbb" (Ok [])]).
Proof.
  apply (scanAndCheckBlock_no_results Reference.collaborators Reference.utils
           (R:=unit) (mkScanContext "sha:bbb" "sha:aaa" "any")
           (start_state wClean) [] wClean).
  reflexivity.
Defined.

Lemma scanAndCheckBlock_plain_policy_witness :
  ∃ evs, trace (Reference.scan "critical" wCritical).2 = [] ++ evs
    ∧ existsb isCacheLookup evs = false
    ∧ length (List.filter isScanCall evs) = 1%nat
    ∧ ∀ o results,
        (Reference.scan "critical" wCritical).1 = Normal o →
        scanResults o = Some results →
        omap savedRecord evs = map (scanRecordOf "sha:bbb") results
        ∧ (results ≠ [] →
           blocked o = fst (Reference.shouldBlockUpdate "critical"
                              (combineScanSummaries results) None)).
Proof.
  apply (scanAndCheckBlock_plain_policy Reference.collaborators Reference.utils
           (R:=unit) (mkScanContext "sha:bbb" "sha:aaa" "critical")
           (start_state wCritical)
           (Reference.scan "critical" wCritical).1
           (Reference.scan "critical" wCritical).2).
  - apply surjective_pairing.
  - discriminate.
Defined.

Lemma recreateContainer_stopped_stays_stopped_witness :
  Forall (λ e, match e with
               | EvStopContainer _ _ | EvStart _ _ => False
               | _ => True
               end) (trace (Reference.recreate wStopped).2).
Proof.
  apply (recreateContainer_stopped_stays_stopped Reference.collaborators
           Reference.utils (R:=unit) "web-1" true (start_state wStopped)
           (Reference.recreate wStopped).1 (Reference.recreate wStopped).2
           (trace (Reference.recreate wStopped).2)
           (Reference.inspection wStopped)).
  - apply surjective_pairing.
  - reflexivity.
  - vm_compute. reflexivity.
  - reflexivity.
Defined.

Lemma missing_container_fails_run_witness :
  Forall (λ e, isRegistryQuery e = false ∧ isPullTagOrCreate e = false)
    (trace ghostRun.2)
  ∧ snapshot (trace ghostRun.2) = None
  ∧ ∃ executionId r,
      In (EvUpdateScheduleExecution executionId
            (failedUpdate "Container not found") r) (trace ghostRun.2).
Proof.
  apply (missing_container_fails_run Reference.collaborators Reference.utils
           (R:=unit) 7 "ghost" scheduled wPlain ghostRun.1 ghostRun.2
           [webContainer]).
  - apply surjective_pairing.
  - vm_compute. reflexivity.
  - reflexivity.
Defined.

Lemma system_container_is_skipped_witness :
  Forall (λ e, isRegistryQuery e = false ∧ isPullTagOrCreate e = false)
    (trace (Reference.run wSelf).2)
  ∧ ∃ executionId r,
      In (EvUpdateScheduleExecution executionId
            (skippedUpdate "Cannot auto-update Dockhand itself") r)
         (trace (Reference.run wSelf).2).
Proof.
  apply (system_container_is_skipped Reference.collaborators Reference.utils
           (R:=unit) 7 "web-1" scheduled wSelf
           (Reference.run wSelf).1 (Reference.run wSelf).2
           (Reference.webInspection "dockhand:latest") "dockhand:latest"
           dockhand).
  - apply surjective_pairing.
  - vm_compute. reflexivity.
  - reflexivity.
  - discriminate.
  - vm_compute. reflexivity.
Defined.

End MoreRuns.
